(** * Email-to-task webhook: payload normalizer, sanitizers and task extractor

    A shallow embedding of the email-to-task Cloud Function
    ([processEmailTask] and its helpers [validateAndSanitizeEmail],
    [extractUserIdFromEmail], [sanitizeSubject], [sanitizeTextContent],
    [parseEmailToTask], [extractDueDateFromSubject],
    [extractImportanceFromSubject], [cleanEmailBody]) and of the callable
    [verifyRecaptcha] of the same file.

    Conventions of the embedding.
    - A JavaScript string is a list of code units; code units are
      restricted to 0..255 ([ascii]), so [toLowerCase], [trim] and the
      regular-expression classes are the Latin-1 restrictions of the
      ECMAScript ones.
    - Regular expressions are kept as syntax trees and run by a
      backtracking matcher that follows the ECMAScript matching order
      (alternatives left to right, greedy and lazy repetition, an
      iteration that consumes nothing is rejected).
    - A thrown exception is an explicit [Throw] result.
    - The clock, the time zone of the runtime, [JSON.parse], the
      document store and the answer of the reCAPTCHA assessment are
      inputs of the functions that use them.
    - [console.log] calls are left out, except that an argument whose
      evaluation can throw is kept as a check at the same place. *)

From Stdlib Require Import Ascii String List Bool Arith ZArith Lia.
Import ListNotations.

Set Implicit Arguments.
Set Warnings "-register-all".

(* ================================================================== *)
(** * Strings as lists of code units *)

Definition jsstr := list ascii.

(** String literal. *)
Definition lit (s : string) : jsstr := list_ascii_of_string s.

Definition code (c : ascii) : nat := nat_of_ascii c.

Definition in_range (lo hi : nat) (c : ascii) : bool :=
  (lo <=? code c) && (code c <=? hi).

Definition is_code (n : nat) (c : ascii) : bool := code c =? n.

Definition ascii_eqb (a b : ascii) : bool := Ascii.eqb a b.

Fixpoint str_eqb (a b : jsstr) : bool :=
  match a, b with
  | [], [] => true
  | x :: a', y :: b' => ascii_eqb x y && str_eqb a' b'
  | _, _ => false
  end.

(** ECMAScript WhiteSpace and LineTerminator code units below 256:
    TAB, LF, VT, FF, CR, SP, NBSP. *)
Definition is_space (c : ascii) : bool :=
  in_range 9 13 c || is_code 32 c || is_code 160 c.

(** LineTerminator code units below 256: LF and CR. *)
Definition is_line_terminator (c : ascii) : bool :=
  is_code 10 c || is_code 13 c.

Definition is_digit (c : ascii) : bool := in_range 48 57 c.
Definition is_upper (c : ascii) : bool := in_range 65 90 c.
Definition is_lower (c : ascii) : bool := in_range 97 122 c.
Definition is_alpha (c : ascii) : bool := is_upper c || is_lower c.
Definition is_alnum (c : ascii) : bool := is_alpha c || is_digit c.

(** The class [[\x00-\x1F\x7F]] of the two sanitizers. *)
Definition is_control (c : ascii) : bool := (code c <=? 31) || is_code 127 c.

(** [String.prototype.toLowerCase] on one code unit: A-Z, and the Latin-1
    capitals 0xC0-0xDE other than the multiplication sign 0xD7. *)
Definition lower_char (c : ascii) : ascii :=
  if is_upper c || (in_range 192 222 c && negb (is_code 215 c))
  then ascii_of_nat (code c + 32) else c.

Definition toLowerCase (s : jsstr) : jsstr := map lower_char s.

(** Canonicalize of a regular expression with the [i] flag and without
    the [u] flag: the upper-case form when it is a single code unit and
    does not turn a non-ASCII unit into an ASCII one. *)
Definition canon (c : ascii) : ascii :=
  if is_lower c || (in_range 224 254 c && negb (is_code 247 c))
  then ascii_of_nat (code c - 32) else c.

Definition ci_eqb (a b : ascii) : bool := ascii_eqb (canon a) (canon b).

Fixpoint drop_while (p : ascii -> bool) (s : jsstr) : jsstr :=
  match s with
  | c :: t => if p c then drop_while p t else s
  | [] => []
  end.

(** [String.prototype.trim]. *)
Definition trim (s : jsstr) : jsstr :=
  rev (drop_while is_space (rev (drop_while is_space s))).

(** [s.substring(0, n)]. *)
Definition substring0 (n : nat) (s : jsstr) : jsstr := firstn n s.

(** [x || y] on strings: the empty string is falsy. *)
Definition str_or (x y : jsstr) : jsstr :=
  match x with [] => y | _ => x end.

(** [s.includes(w)]. *)
Fixpoint starts_with (w s : jsstr) : bool :=
  match w, s with
  | [], _ => true
  | x :: w', y :: s' => ascii_eqb x y && starts_with w' s'
  | _ :: _, [] => false
  end.

Fixpoint includes (w s : jsstr) : bool :=
  starts_with w s || match s with [] => false | _ :: t => includes w t end.

(* ================================================================== *)
(** * Regular expressions *)

Inductive regex : Type :=
| Eps                                  (* the empty pattern *)
| Cls (p : ascii -> bool)              (* a character or class *)
| Seq (a b : regex)
| Alt (a b : regex)
| Star (greedy : bool) (a : regex)     (* [a*] and [a*?] *)
| Grp (i : nat) (a : regex)            (* capturing group number [i] *)
| Bol                                  (* [^] *)
| Eol                                  (* [$] *)
| Ahead (a : regex).                   (* [(?=a)] *)

(** Captured substrings, most recent first. *)
Definition caps := list (nat * jsstr).

Fixpoint cap (i : nat) (cs : caps) : option jsstr :=
  match cs with
  | [] => None
  | (j, s) :: t => if j =? i then Some s else cap i t
  end.

(** A match state is the code unit before the current position (for
    [^] with the [m] flag) and the rest of the input. The outcome of a
    successful match is the captures and the length of the input that is
    left after the match. *)
Definition outcome := option (caps * nat).
Definition cont := option ascii -> jsstr -> caps -> outcome.

Definition at_bol (multiline : bool) (prev : option ascii) : bool :=
  match prev with
  | None => true
  | Some c => multiline && is_line_terminator c
  end.

Definition at_eol (multiline : bool) (s : jsstr) : bool :=
  match s with
  | [] => true
  | c :: _ => multiline && is_line_terminator c
  end.

Fixpoint rmatch (ml : bool) (r : regex) (prev : option ascii) (s : jsstr)
  (cs : caps) (k : cont) {struct r} : outcome :=
  match r with
  | Eps => k prev s cs
  | Cls p =>
      match s with
      | c :: t => if p c then k (Some c) t cs else None
      | [] => None
      end
  | Seq a b =>
      rmatch ml a prev s cs (fun p' s' cs' => rmatch ml b p' s' cs' k)
  | Alt a b =>
      match rmatch ml a prev s cs k with
      | Some x => Some x
      | None => rmatch ml b prev s cs k
      end
  | Star g a =>
      (fix loop (fuel : nat) (prev : option ascii) (s : jsstr) (cs : caps)
         {struct fuel} : outcome :=
         match fuel with
         | O => k prev s cs
         | S f =>
             let again (_ : unit) :=
               rmatch ml a prev s cs
                 (fun p' s' cs' =>
                    if length s' <? length s then loop f p' s' cs' else None) in
             if g then
               match again tt with Some x => Some x | None => k prev s cs end
             else
               match k prev s cs with Some x => Some x | None => again tt end
         end) (S (length s)) prev s cs
  | Grp i a =>
      rmatch ml a prev s cs
        (fun p' s' cs' =>
           k p' s' ((i, firstn (length s - length s') s) :: cs'))
  | Bol => if at_bol ml prev then k prev s cs else None
  | Eol => if at_eol ml s then k prev s cs else None
  | Ahead a =>
      match rmatch ml a prev s cs (fun _ s' cs' => Some (cs', length s')) with
      | Some (cs', _) => k prev s cs'
      | None => None
      end
  end.

(** One attempt at the current position. *)
Definition exec_at (ml : bool) (r : regex) (prev : option ascii) (s : jsstr)
  : outcome :=
  rmatch ml r prev s [] (fun _ s' cs' => Some (cs', length s')).

(** The result of a search: the text before the match, the matched text,
    the text after it, and the captures. *)
Record found := Found {
  f_before : jsstr;
  f_match : jsstr;
  f_after : jsstr;
  f_caps : caps
}.

Fixpoint search_from (ml : bool) (r : regex) (prev : option ascii) (s : jsstr)
  : option found :=
  match exec_at ml r prev s with
  | Some (cs, n) =>
      Some (Found [] (firstn (length s - n) s) (skipn (length s - n) s) cs)
  | None =>
      match s with
      | [] => None
      | c :: t =>
          match search_from ml r (Some c) t with
          | Some f => Some (Found (c :: f_before f) (f_match f) (f_after f) (f_caps f))
          | None => None
          end
      end
  end.

(** [s.match(r)] and [r.exec(s)] for a regex without the [g] flag. *)
Definition js_match (ml : bool) (r : regex) (s : jsstr) : option found :=
  search_from ml r None s.

(** [r.test(s)]. *)
Definition js_test (ml : bool) (r : regex) (s : jsstr) : bool :=
  match js_match ml r s with Some _ => true | None => false end.

(** [match[i]] of a successful match. *)
Definition group (i : nat) (f : found) : jsstr :=
  match cap i (f_caps f) with Some s => s | None => [] end.

(** [s.replace(r, rep)] for a regex without the [g] flag and a
    replacement text without [$] patterns. *)
Definition replace_first (ml : bool) (r : regex) (rep s : jsstr) : jsstr :=
  match js_match ml r s with
  | Some f => f_before f ++ rep ++ f_after f
  | None => s
  end.

(** [s.replace(r, rep)] for a regex with the [g] flag. [skip] counts the
    code units of the last match that are still to be dropped. After an
    empty match the search resumes one code unit further. *)
Fixpoint replace_go (ml : bool) (r : regex) (rep : jsstr)
  (prev : option ascii) (s : jsstr) (skip : nat) {struct s} : jsstr :=
  match skip with
  | S k =>
      match s with
      | [] => []
      | c :: t => replace_go ml r rep (Some c) t k
      end
  | O =>
      match exec_at ml r prev s with
      | Some (_, n) =>
          rep ++
          match s with
          | [] => []
          | c :: t =>
              match length s - n with
              | O => c :: replace_go ml r rep (Some c) t 0
              | S l => replace_go ml r rep (Some c) t l
              end
          end
      | None =>
          match s with
          | [] => []
          | c :: t => c :: replace_go ml r rep (Some c) t 0
          end
      end
  end.

Definition replace_all (ml : bool) (r : regex) (rep s : jsstr) : jsstr :=
  replace_go ml r rep None s 0.

(** [s.split(r)] for a regex without capturing groups. [piece] is the
    text since the last separator, reversed. *)
Fixpoint split_go (ml : bool) (r : regex) (prev : option ascii) (s : jsstr)
  (skip : nat) (piece : jsstr) {struct s} : list jsstr :=
  match skip with
  | S k =>
      match s with
      | [] => [rev piece]
      | c :: t => split_go ml r (Some c) t k piece
      end
  | O =>
      match s with
      | [] => [rev piece]
      | c :: t =>
          match exec_at ml r prev s with
          | Some (_, n) =>
              match length s - n, piece with
              | O, [] => split_go ml r (Some c) t 0 [c]
              | O, _ => rev piece :: split_go ml r (Some c) t 0 [c]
              | S l, _ => rev piece :: split_go ml r (Some c) t l []
              end
          | None => split_go ml r (Some c) t 0 (c :: piece)
          end
      end
  end.

Definition js_split (ml : bool) (r : regex) (s : jsstr) : list jsstr :=
  match s with
  | [] => match exec_at ml r None [] with Some _ => [] | None => [[]] end
  | _ => split_go ml r None s 0 []
  end.

(** ** Regex syntax helpers *)

Definition chr (c : ascii) : regex := Cls (ascii_eqb c).
Definition chr_i (c : ascii) : regex := Cls (ci_eqb c).

Fixpoint seqs (l : list regex) : regex :=
  match l with
  | [] => Eps
  | [r] => r
  | r :: t => Seq r (seqs t)
  end.

Fixpoint alts (l : list regex) : regex :=
  match l with
  | [] => Cls (fun _ => false)
  | [r] => r
  | r :: t => Alt r (alts t)
  end.

(** A literal, case-sensitive and with the [i] flag. *)
Definition word (s : string) : regex := seqs (map chr (lit s)).
Definition word_i (s : string) : regex := seqs (map chr_i (lit s)).

Definition plus (r : regex) : regex := Seq r (Star true r).
Definition opt (r : regex) : regex := Alt r Eps.
Fixpoint times (n : nat) (r : regex) : regex :=
  match n with
  | O => Eps
  | 1 => r
  | S m => Seq r (times m r)
  end.

Definition ws : regex := Cls is_space.                       (* \s *)
Definition digit : regex := Cls is_digit.                    (* \d *)
Definition dot : regex := Cls (fun c => negb (is_line_terminator c)).
Definition none_of (s : string) : regex :=
  Cls (fun c => negb (existsb (ascii_eqb c) (lit s))).
Definition one_of (s : string) : regex :=
  Cls (fun c => existsb (ascii_eqb c) (lit s)).

(* ================================================================== *)
(** * JavaScript values *)

(** The values a request body is made of. Numbers are integers:
    [VNum z] is the Number value of the integer [z], which is [z] itself
    up to 2^53 in absolute value. An object is the list of its own
    properties in insertion order. *)
Inductive jsval : Type :=
| VUndef
| VNull
| VBool (b : bool)
| VNum (z : Z)
| VStr (s : jsstr)
| VArr (items : list jsval)
| VObj (props : list (jsstr * jsval)).

(** ToBoolean. *)
Definition truthy (v : jsval) : bool :=
  match v with
  | VUndef | VNull => false
  | VBool b => b
  | VNum z => negb (Z.eqb z 0)
  | VStr s => match s with [] => false | _ => true end
  | VArr _ | VObj _ => true
  end.

(** [a || b]. *)
Definition js_or (a b : jsval) : jsval := if truthy a then a else b.

Definition is_nullish (v : jsval) : bool :=
  match v with VUndef | VNull => true | _ => false end.

(** [typeof v === 'object'] and [typeof v === 'string']. *)
Definition typeof_object (v : jsval) : bool :=
  match v with VNull | VArr _ | VObj _ => true | _ => false end.

Definition typeof_string (v : jsval) : bool :=
  match v with VStr _ => true | _ => false end.

Definition isArray (v : jsval) : bool :=
  match v with VArr _ => true | _ => false end.

Fixpoint assoc (k : jsstr) (l : list (jsstr * jsval)) : jsval :=
  match l with
  | [] => VUndef
  | (k', v) :: t => if str_eqb k k' then v else assoc k t
  end.

(** The value of a string of decimal digits. *)
Definition digit_val (c : ascii) : N := N.of_nat (code c - 48).

Definition number_of_digits (s : jsstr) : N :=
  fold_left (fun acc c => (10 * acc + digit_val c)%N) s 0%N.

Definition all_digits (s : jsstr) : bool :=
  match s with [] => false | _ => forallb is_digit s end.

(** Decimal digits without a leading zero. *)
Definition canonical_digits (s : jsstr) : bool :=
  all_digits s &&
  match s with
  | c :: _ :: _ => negb (is_code 48 c)
  | _ => true
  end.

(** A canonical array index: decimal digits without a leading zero, of
    a value below 2^32 - 1. *)
Definition is_index (s : jsstr) : bool :=
  canonical_digits s && (number_of_digits s <? 4294967295)%N.

(** [v[k]] for a receiver that is neither [null] nor [undefined] (for
    those JavaScript throws a TypeError; every use below is either
    guarded by the truthiness of the receiver, as in the source, or
    preceded by an explicit check). None of the property names the
    handler reads is defined on a built-in prototype. *)
Definition get (v : jsval) (k : jsstr) : jsval :=
  match v with
  | VObj l => assoc k l
  | VArr l =>
      if str_eqb k (lit "length") then VNum (Z.of_nat (length l))
      else if is_index k then nth (N.to_nat (number_of_digits k)) l VUndef
      else VUndef
  | VStr s =>
      if str_eqb k (lit "length") then VNum (Z.of_nat (length s))
      else if is_index k then
        match nth_error s (N.to_nat (number_of_digits k)) with
        | Some c => VStr [c]
        | None => VUndef
        end
      else VUndef
  | _ => VUndef
  end.

(** [v?.[k]]. *)
Definition get_opt (v : jsval) (k : jsstr) : jsval :=
  if is_nullish v then VUndef else get v k.

(** Stable insertion of a key by numeric value. *)
Fixpoint insert_by (A : Type) (f : A -> N) (k : A) (l : list A) : list A :=
  match l with
  | [] => [k]
  | h :: t => if (f k <? f h)%N then k :: l else h :: insert_by f k t
  end.

Definition sort_by (A : Type) (f : A -> N) (l : list A) : list A :=
  fold_left (fun acc k => insert_by f k acc) l [].

(** The Number value nearest to a natural number: the number itself
    below 2^53, else its 53 leading bits rounded to nearest, ties to even;
    from 2^1024 on the value is Infinity, which is represented by 2^1024. *)
Definition double_of_N (n : N) : N :=
  let bits := N.size n in
  if (bits <=? 53)%N then n
  else
    let e := (bits - 53)%N in
    let q := N.shiftr n e in
    let r := (n - N.shiftl q e)%N in
    let half := N.shiftl 1 (e - 1) in
    let q' := if (half <? r)%N || ((r =? half)%N && N.odd q) then (q + 1)%N else q in
    N.min (N.shiftl q' e) (2 ^ 1024)%N.

(** [Number(k)] for a string of decimal digits. *)
Definition Number_of_digits (k : jsstr) : N := double_of_N (number_of_digits k).

(** [keys.sort((a, b) => Number(a) - Number(b))] on strings of digits.
    The sort is stable: keys of the same Number value keep their order,
    also two keys that are both Infinity, whose difference is NaN. *)
Definition sort_numeric (l : list jsstr) : list jsstr :=
  sort_by Number_of_digits l.

(** The property order of an object: array indices in ascending order,
    then the other names in insertion order. The property list of a
    [VObj] is kept in this order. *)
Definition order_props (l : list (jsstr * jsval)) : list (jsstr * jsval) :=
  sort_by (fun kv => number_of_digits (fst kv)) (filter (fun kv => is_index (fst kv)) l)
  ++ filter (fun kv => negb (is_index (fst kv))) l.

(** [Object.keys]. *)
Definition object_keys (l : list (jsstr * jsval)) : list jsstr := map fst l.

(** ** JSON.stringify *)

Fixpoint digits_of (fuel : nat) (n : N) (acc : jsstr) : jsstr :=
  match fuel with
  | O => acc
  | S f =>
      let d := ascii_of_N (48 + n mod 10) in
      if (n <? 10)%N then d :: acc else digits_of f (n / 10)%N (d :: acc)
  end.

Definition decimal (z : Z) : jsstr :=
  let n := Z.to_N (Z.abs z) in
  let ds := digits_of (S (N.to_nat (N.log2 n))) n [] in
  if (z <? 0)%Z then "-"%char :: ds else ds.

Definition hex_digit (n : nat) : ascii :=
  if n <? 10 then ascii_of_nat (48 + n) else ascii_of_nat (87 + n).

Definition dquote : ascii := ascii_of_nat 34.
Definition backslash : ascii := ascii_of_nat 92.

(** QuoteJSONString on one code unit. *)
Definition quote_char (c : ascii) : jsstr :=
  if is_code 34 c then [backslash; dquote]
  else if is_code 92 c then [backslash; backslash]
  else if is_code 8 c then backslash :: lit "b"
  else if is_code 12 c then backslash :: lit "f"
  else if is_code 10 c then backslash :: lit "n"
  else if is_code 13 c then backslash :: lit "r"
  else if is_code 9 c then backslash :: lit "t"
  else if code c <? 32 then
    backslash :: lit "u00" ++ [hex_digit (code c / 16); hex_digit (code c mod 16)]
  else [c].

Definition quote (s : jsstr) : jsstr :=
  dquote :: flat_map quote_char s ++ [dquote].

Fixpoint join (sep : jsstr) (l : list jsstr) : jsstr :=
  match l with
  | [] => []
  | [x] => x
  | x :: t => x ++ sep ++ join sep t
  end.

(** The integer of the fewest significant digits that the Number [n]
    is the nearest Number to; of two such integers the one nearer to [n],
    and the even one when they are as near. [p] is the number of
    significant digits tried, [len] the number of digits of [n]. *)
Fixpoint shortest (fuel p : nat) (n : N) (len : nat) : N :=
  match fuel with
  | O => n
  | S f =>
      let s := (10 ^ N.of_nat (len - p))%N in
      let lo := (n / s * s)%N in
      let hi := (lo + s)%N in
      let oklo := (double_of_N lo =? n)%N in
      let okhi := (double_of_N hi =? n)%N in
      if oklo && okhi then
        if (n - lo <? hi - n)%N then lo
        else if (hi - n <? n - lo)%N then hi
        else if N.even (lo / s) then lo else hi
      else if oklo then lo
      else if okhi then hi
      else shortest f (S p) n len
  end.

Definition strip_zeros (ds : jsstr) : jsstr :=
  rev (drop_while (is_code 48) (rev ds)).

(** [Number.prototype.toString] on the Number value of an integer: all
    the digits below 10^21, the exponent form from there on, and
    Infinity from 2^1024 on. *)
Definition Number_toString (z : Z) : jsstr :=
  let n := double_of_N (Z.to_N (Z.abs z)) in
  let sign := if (z <? 0)%Z then lit "-" else [] in
  if (2 ^ 1024 <=? n)%N then sign ++ lit "Infinity"
  else
    let c := shortest (length (decimal (Z.of_N n))) 1 n (length (decimal (Z.of_N n))) in
    let ds := decimal (Z.of_N c) in
    if (c <? 10 ^ 21)%N then sign ++ ds
    else
      match strip_zeros ds with
      | d :: [] => sign ++ d :: lit "e+" ++ decimal (Z.of_nat (length ds - 1))
      | d :: more => sign ++ d :: lit "." ++ more ++ lit "e+"
                     ++ decimal (Z.of_nat (length ds - 1))
      | [] => sign ++ ds
      end.

(** [JSON.stringify(v)]; [None] is the result [undefined]. A Number that
    is not finite is written [null]. *)
Fixpoint stringify (v : jsval) : option jsstr :=
  match v with
  | VUndef => None
  | VNull => Some (lit "null")
  | VBool b => Some (if b then lit "true" else lit "false")
  | VNum z =>
      Some (if (2 ^ 1024 <=? double_of_N (Z.to_N (Z.abs z)))%N then lit "null"
            else Number_toString z)
  | VStr s => Some (quote s)
  | VArr l =>
      Some (lit "[" ++
            join (lit ",")
              ((fix items (l : list jsval) : list jsstr :=
                  match l with
                  | [] => []
                  | x :: t =>
                      match stringify x with
                      | Some s => s
                      | None => lit "null"
                      end :: items t
                  end) l)
            ++ lit "]")
  | VObj l =>
      Some (lit "{" ++
            join (lit ",")
              ((fix members (l : list (jsstr * jsval)) : list jsstr :=
                  match l with
                  | [] => []
                  | (k, x) :: t =>
                      match stringify x with
                      | Some s => (quote k ++ lit ":" ++ s) :: members t
                      | None => members t
                      end
                  end) l)
            ++ lit "}")
  end.

(** ** A reference JSON parser

    [JSON.parse] is an input of the handler: the statements about the
    handler hold for every parser. [json_parse] is a parser for the
    fragment of JSON whose numbers are integer literals and whose strings
    stay below code unit 256; it is used only to run the handler on
    concrete payloads of that fragment. On a text of the fragment [None]
    stands for the SyntaxError; a number with a fraction or an exponent
    and a string with a code unit from 256 on are outside the fragment,
    and [json_parse] gives [None] for them although [JSON.parse] reads
    them. *)

Definition is_json_ws (c : ascii) : bool :=
  is_code 32 c || is_code 9 c || is_code 10 c || is_code 13 c.

Definition hex_val (c : ascii) : option nat :=
  if is_digit c then Some (code c - 48)
  else if in_range 97 102 c then Some (code c - 87)
  else if in_range 65 70 c then Some (code c - 55)
  else None.

(** The characters of a JSON string after its opening quote. *)
Fixpoint parse_chars (s : jsstr) : option (jsstr * jsstr) :=
  match s with
  | [] => None
  | c :: t =>
      if is_code 34 c then Some ([], t)
      else if code c <? 32 then None
      else if is_code 92 c then
        match t with
        | e :: t' =>
            let simple (x : ascii) :=
              match parse_chars t' with
              | Some (r, rest) => Some (x :: r, rest)
              | None => None
              end in
            if is_code 34 e then simple dquote
            else if is_code 92 e then simple backslash
            else if is_code 47 e then simple "/"%char
            else if is_code 98 e then simple (ascii_of_nat 8)
            else if is_code 102 e then simple (ascii_of_nat 12)
            else if is_code 110 e then simple (ascii_of_nat 10)
            else if is_code 114 e then simple (ascii_of_nat 13)
            else if is_code 116 e then simple (ascii_of_nat 9)
            else if is_code 117 e then
              match t' with
              | h1 :: h2 :: h3 :: h4 :: t'' =>
                  match hex_val h1, hex_val h2, hex_val h3, hex_val h4 with
                  | Some 0, Some 0, Some a, Some b =>
                      match parse_chars t'' with
                      | Some (r, rest) => Some (ascii_of_nat (16 * a + b) :: r, rest)
                      | None => None
                      end
                  | _, _, _, _ => None
                  end
              | _ => None
              end
            else None
        | [] => None
        end
      else
        match parse_chars t with
        | Some (r, rest) => Some (c :: r, rest)
        | None => None
        end
  end.

Fixpoint span (p : ascii -> bool) (s : jsstr) : jsstr * jsstr :=
  match s with
  | c :: t => if p c then let (a, b) := span p t in (c :: a, b) else ([], s)
  | [] => ([], [])
  end.

(** An integer literal (an optional minus sign, then 0 or a non-zero
    digit followed by digits) that is not followed by a fraction or an
    exponent; its value is the nearest Number. *)
Definition parse_int (s : jsstr) : option (Z * jsstr) :=
  let (neg, s1) :=
    match s with
    | c :: t => if is_code 45 c then (true, t) else (false, s)
    | [] => (false, s)
    end in
  let (ds, rest) := span is_digit s1 in
  if negb (canonical_digits ds) then None
  else
    match rest with
    | c :: _ =>
        if is_code 46 c || is_code 101 c || is_code 69 c then None
        else Some ((if neg then - Z.of_N (Number_of_digits ds)
                    else Z.of_N (Number_of_digits ds))%Z, rest)
    | [] => Some ((if neg then - Z.of_N (Number_of_digits ds)
                   else Z.of_N (Number_of_digits ds))%Z, rest)
    end.

(** A member with a repeated name replaces the earlier value. *)
Fixpoint set_prop (k : jsstr) (v : jsval) (l : list (jsstr * jsval))
  : list (jsstr * jsval) :=
  match l with
  | [] => [(k, v)]
  | (k', v') :: t => if str_eqb k k' then (k', v) :: t else (k', v') :: set_prop k v t
  end.

Fixpoint parse_value (fuel : nat) (s : jsstr) : option (jsval * jsstr) :=
  match fuel with
  | O => None
  | S f =>
      match drop_while is_json_ws s with
      | [] => None
      | c :: t =>
          if is_code 34 c then
            match parse_chars t with
            | Some (r, rest) => Some (VStr r, rest)
            | None => None
            end
          else if is_code 91 c then
            match drop_while is_json_ws t with
            | c' :: t' =>
                if is_code 93 c' then Some (VArr [], t')
                else parse_elements f t []
            | [] => None
            end
          else if is_code 123 c then
            match drop_while is_json_ws t with
            | c' :: t' =>
                if is_code 125 c' then Some (VObj [], t')
                else parse_members f t []
            | [] => None
            end
          else if starts_with (lit "null") (c :: t) then Some (VNull, skipn 4 (c :: t))
          else if starts_with (lit "true") (c :: t) then Some (VBool true, skipn 4 (c :: t))
          else if starts_with (lit "false") (c :: t) then Some (VBool false, skipn 5 (c :: t))
          else
            match parse_int (c :: t) with
            | Some (z, rest) => Some (VNum z, rest)
            | None => None
            end
      end
  end
with parse_elements (fuel : nat) (s : jsstr) (acc : list jsval)
  : option (jsval * jsstr) :=
  match fuel with
  | O => None
  | S f =>
      match parse_value f s with
      | Some (v, rest) =>
          match drop_while is_json_ws rest with
          | c :: t =>
              if is_code 44 c then parse_elements f t (v :: acc)
              else if is_code 93 c then Some (VArr (rev (v :: acc)), t)
              else None
          | [] => None
          end
      | None => None
      end
  end
with parse_members (fuel : nat) (s : jsstr) (acc : list (jsstr * jsval))
  : option (jsval * jsstr) :=
  match fuel with
  | O => None
  | S f =>
      match drop_while is_json_ws s with
      | q :: t0 =>
          if is_code 34 q then
            match parse_chars t0 with
            | Some (k, rest0) =>
                match drop_while is_json_ws rest0 with
                | colon :: t1 =>
                    if is_code 58 colon then
                      match parse_value f t1 with
                      | Some (v, rest) =>
                          match drop_while is_json_ws rest with
                          | c :: t =>
                              if is_code 44 c then parse_members f t (set_prop k v acc)
                              else if is_code 125 c then
                                Some (VObj (order_props (set_prop k v acc)), t)
                              else None
                          | [] => None
                          end
                      | None => None
                      end
                    else None
                | [] => None
                end
            | None => None
            end
          else None
      | [] => None
      end
  end.

Definition json_parse (s : jsstr) : option jsval :=
  match parse_value (2 * length s + 3) s with
  | Some (v, rest) =>
      match drop_while is_json_ws rest with
      | [] => Some v
      | _ => None
      end
  | None => None
  end.

(* ================================================================== *)
(** * Exceptions *)

Inductive error_kind := TypeError | RangeError | SyntaxError | PlainError.

Record js_error := JsError { err_kind : error_kind; err_message : jsstr }.

Inductive result (A : Type) : Type :=
| Ok (a : A)
| Throw (e : js_error).

Arguments Ok {A} a.
Arguments Throw {A} e.

Definition bind (A B : Type) (x : result A) (f : A -> result B) : result B :=
  match x with
  | Ok a => f a
  | Throw e => Throw e
  end.

(* ================================================================== *)
(** * Dates *)

Local Open Scope Z_scope.

(** A Date object: its time value in milliseconds since the epoch, or the
    time value NaN of an Invalid Date. *)
Inductive Date := InvalidDate | Instant (t : Z).

Definition msPerDay : Z := 86400000.
Definition maxTime : Z := 8640000000000000.

Definition Day (t : Z) : Z := t / msPerDay.
Definition TimeWithinDay (t : Z) : Z := t mod msPerDay.

Definition DayFromYear (y : Z) : Z :=
  365 * (y - 1970) + (y - 1969) / 4 - (y - 1901) / 100 + (y - 1601) / 400.

Definition InLeapYear (y : Z) : bool :=
  ((y mod 4 =? 0) && negb (y mod 100 =? 0)) || (y mod 400 =? 0).

(** The largest year that starts on or before the day, searched downward
    from an upper estimate. *)
Fixpoint year_search (fuel : nat) (y day : Z) : Z :=
  match fuel with
  | O => y
  | S f => if DayFromYear y <=? day then y else year_search f (y - 1) day
  end.

Definition YearFromDay (day : Z) : Z :=
  year_search 1000 (1970 + (if 0 <=? day then day / 365 else day / 366)) day.

Definition YearFromTime (t : Z) : Z := YearFromDay (Day t).

(** The day within the year on which month [m] (0 to 11) starts. *)
Definition month_start (leap : bool) (m : Z) : Z :=
  let l := if leap then 1 else 0 in
  match m with
  | 0 => 0
  | 1 => 31
  | 2 => 59 + l
  | 3 => 90 + l
  | 4 => 120 + l
  | 5 => 151 + l
  | 6 => 181 + l
  | 7 => 212 + l
  | 8 => 243 + l
  | 9 => 273 + l
  | 10 => 304 + l
  | _ => 334 + l
  end.

Definition DayWithinYear (t : Z) : Z := Day t - DayFromYear (YearFromTime t).

Definition MonthFromTime (t : Z) : Z :=
  let leap := InLeapYear (YearFromTime t) in
  let d := DayWithinYear t in
  if d <? month_start leap 1 then 0
  else if d <? month_start leap 2 then 1
  else if d <? month_start leap 3 then 2
  else if d <? month_start leap 4 then 3
  else if d <? month_start leap 5 then 4
  else if d <? month_start leap 6 then 5
  else if d <? month_start leap 7 then 6
  else if d <? month_start leap 8 then 7
  else if d <? month_start leap 9 then 8
  else if d <? month_start leap 10 then 9
  else if d <? month_start leap 11 then 10
  else 11.

Definition DateFromTime (t : Z) : Z :=
  DayWithinYear t - month_start (InLeapYear (YearFromTime t)) (MonthFromTime t) + 1.

Definition MakeDay (year month date : Z) : Z :=
  let ym := year + month / 12 in
  let mn := month mod 12 in
  DayFromYear ym + month_start (InLeapYear ym) mn + date - 1.

Definition MakeDate (day time : Z) : Z := day * msPerDay + time.

Definition TimeClip (t : Z) : Date :=
  if maxTime <? Z.abs t then InvalidDate else Instant t.

(** The time zone of the runtime: the offset from UTC, in milliseconds,
    in force at an instant, and the offset by which a local time value is
    read (LocalTZA(t, true) and LocalTZA(t, false) of ECMAScript; at a
    change of offset a local time that is skipped or repeated is read
    with the offset before the change). *)
Record TimeZone := {
  offset_at_utc : Z -> Z;
  offset_at_local : Z -> Z
}.

Definition LocalTime (tza : TimeZone) (t : Z) : Z := t + offset_at_utc tza t.
Definition UTC (tza : TimeZone) (t : Z) : Z := t - offset_at_local tza t.

(** A zone at a fixed offset from UTC, and UTC itself. *)
Definition fixed_zone (offset : Z) : TimeZone :=
  {| offset_at_utc := fun _ => offset; offset_at_local := fun _ => offset |}.

Definition utc_zone : TimeZone := fixed_zone 0.

(** [d.getDate()]; [None] is NaN. *)
Definition getDate (tza : TimeZone) (d : Date) : option Z :=
  match d with
  | InvalidDate => None
  | Instant t => Some (DateFromTime (LocalTime tza t))
  end.

(** [d.setDate(dt)], as the new value of the Date object. *)
Definition setDate (tza : TimeZone) (d : Date) (dt : option Z) : Date :=
  match d, dt with
  | Instant tv, Some dt =>
      let t := LocalTime tza tv in
      TimeClip (UTC tza (MakeDate (MakeDay (YearFromTime t) (MonthFromTime t) dt)
                                  (TimeWithinDay t)))
  | _, _ => InvalidDate
  end.

Definition int_of_digits (s : jsstr) : Z := Z.of_N (number_of_digits s).

(** [new Date(s)] for a string of the form YYYY-MM-DD, the only form it
    is called with, as V8 reads it. With a month in 1..12 and a day in
    1..31 the string is an ISO date, at midnight UTC (a day past the end
    of its month carries into the next month). Otherwise V8 goes on with
    its legacy parser on the three numbers: when the first one is in 1..31
    they are read as month, day and two-digit year (0..49 in 2000, 50..99
    in 1900) at midnight local time, which gives a date when that month is
    in 1..12 and that day in 1..31. In every other case the Date is
    invalid. *)
Definition Date_of_string (tza : TimeZone) (s : jsstr) : Date :=
  match s with
  | [y1; y2; y3; y4; d1; m1; m2; d2; a1; a2] =>
      if forallb is_digit [y1; y2; y3; y4; m1; m2; a1; a2]
         && is_code 45 d1 && is_code 45 d2 then
        let y := int_of_digits [y1; y2; y3; y4] in
        let m := int_of_digits [m1; m2] in
        let d := int_of_digits [a1; a2] in
        if (1 <=? m) && (m <=? 12) && (1 <=? d) && (d <=? 31)
        then TimeClip (MakeDate (MakeDay y (m - 1) d) 0)
        else if (1 <=? y) && (y <=? 12) && (1 <=? m) && (m <=? 31)
        then
          let year := if d <=? 49 then 2000 + d else 1900 + d in
          TimeClip (UTC tza (MakeDate (MakeDay year (y - 1) m) 0))
        else InvalidDate
      else InvalidDate
  | _ => InvalidDate
  end.

(** [d.toISOString()] throws a RangeError on an Invalid Date; its text is
    only logged. *)
Definition toISOString (d : Date) : result unit :=
  match d with
  | InvalidDate => Throw (JsError RangeError (lit "Invalid time value"))
  | Instant _ => Ok tt
  end.

(** The calendar date (year, month 1..12, day) of a time value in UTC. *)
Definition civil (t : Z) : Z * Z * Z :=
  (YearFromTime t, MonthFromTime t + 1, DateFromTime t).

Local Close Scope Z_scope.

(* ================================================================== *)
(** * Sanitization and validation helpers *)

Definition LF : ascii := ascii_of_nat 10.

(** The classes [[a-zA-Z0-9._%+-]] and [[a-zA-Z0-9.-]]. *)
Definition local_class (c : ascii) : bool :=
  is_alnum c || existsb (ascii_eqb c) (lit "._%+-").
Definition domain_class (c : ascii) : bool :=
  is_alnum c || existsb (ascii_eqb c) (lit ".-").

(** [/^[a-zA-Z0-9._%+-]+@[a-zA-Z0-9.-]+\.[a-zA-Z]{2,}$/] *)
Definition emailRegex : regex :=
  seqs [ Bol;
         plus (Cls local_class);
         chr "@";
         plus (Cls domain_class);
         chr ".";
         times 2 (Cls is_alpha); Star true (Cls is_alpha);
         Eol ].

Definition validateAndSanitizeEmail (email : jsval) : option jsstr :=
  match email with
  | VStr [] => None
  | VStr e =>
      let cleaned := toLowerCase (trim e) in
      if negb (js_test false emailRegex cleaned) then None
      else if 254 <? length cleaned then None
      else Some cleaned
  | _ => None
  end.

(** [/^([^@]+)@/] *)
Definition userIdRegex : regex :=
  seqs [ Bol; Grp 1 (plus (none_of "@")); chr "@" ].

Definition extractUserIdFromEmail (emailAddress : jsval) : option jsstr :=
  match validateAndSanitizeEmail emailAddress with
  | None => None
  | Some sanitizedEmail =>
      match js_match false userIdRegex sanitizedEmail with
      | None => None
      | Some m => Some (group 1 m)
      end
  end.

Definition angle_brackets : regex := one_of "<>".            (* /[<>]/g *)
Definition control_chars : regex := Cls is_control.          (* /[\x00-\x1F\x7F]/g *)

Definition sanitizeSubject (subject : jsval) : jsstr :=
  match subject with
  | VStr [] => lit "Email Task"
  | VStr s =>
      let cleaned :=
        substring0 200
          (trim (replace_all false control_chars []
                   (replace_all false angle_brackets [] s))) in
      str_or cleaned (lit "Email Task")
  | _ => lit "Email Task"
  end.

Definition amp (entity : string) : regex := word ("&" ++ entity).

Definition sanitizeTextContent (text : jsval) : jsstr :=
  match text with
  | VStr [] => []
  | VStr s =>
      let s1 := replace_all false angle_brackets [] s in
      let s2 := replace_all false control_chars [] s1 in
      let s3 := replace_all false (amp "quot;") [dquote] s2 in
      let s4 := replace_all false (amp "amp;") (lit "&") s3 in
      let s5 := replace_all false (amp "lt;") (lit "<") s4 in
      let s6 := replace_all false (amp "gt;") (lit ">") s5 in
      let s7 := replace_all false (amp "#39;") (lit "'") s6 in
      substring0 5000 (trim s7)
  | _ => []
  end.

(* ================================================================== *)
(** * Task extractor *)

Record EmailMessage := {
  from : jsstr;
  to : jsstr;
  subject : jsstr;
  text : option jsstr;
  html : option jsstr;
  receivedAt : Date
}.

Record EmailSource := {
  sender : jsstr;
  source_receivedAt : Date;
  originalSubject : jsstr
}.

Record EmailTask := {
  title : jsstr;
  description : jsstr;
  area : jsstr;
  importance : Z;
  dueDate : option Date;
  emailSource : EmailSource
}.

(** [/due:\s*(\d{4}-\d{2}-\d{2})/i] *)
Definition dueRegex : regex :=
  seqs [ word_i "due:"; Star true ws;
         Grp 1 (seqs [ times 4 digit; chr "-"; times 2 digit; chr "-";
                       times 2 digit ]) ].

Definition tomorrowRegex : regex := word_i "tomorrow".       (* /tomorrow/i *)
Definition nextWeekRegex : regex := word_i "next week".      (* /next week/i *)

(** [now] is the value of the clock read by [new Date()]. *)
Definition extractDueDateFromSubject (tza : TimeZone) (now : Z) (subject : jsstr)
  : option Date :=
  match js_match false dueRegex subject with
  | Some dueMatch => Some (Date_of_string tza (group 1 dueMatch))
  | None =>
      match js_match false tomorrowRegex subject with
      | Some _ =>
          let tomorrow := Instant now in
          Some (setDate tza tomorrow (option_map (Z.add 1) (getDate tza tomorrow)))
      | None =>
          match js_match false nextWeekRegex subject with
          | Some _ =>
              let nextWeek := Instant now in
              Some (setDate tza nextWeek (option_map (Z.add 7) (getDate tza nextWeek)))
          | None => None
          end
      end
  end.

Definition urgentRegex : regex :=                             (* /urgent|asap|immediate/i *)
  alts [ word_i "urgent"; word_i "asap"; word_i "immediate" ].
Definition highRegex : regex :=                               (* /high|important/i *)
  alts [ word_i "high"; word_i "important" ].
Definition lowRegex : regex :=                                (* /low|minor/i *)
  alts [ word_i "low"; word_i "minor" ].

Definition extractImportanceFromSubject (subject : jsstr) : Z :=
  if js_test false urgentRegex subject then 9%Z
  else if js_test false highRegex subject then 7%Z
  else if js_test false lowRegex subject then 3%Z
  else 5%Z.

Definition placeholder : jsstr := lit "No description provided".

Definition headerLabels : regex :=
  alts [ word_i "From:"; word_i "To:"; word_i "Subject:"; word_i "Date:";
         word_i "Sent:"; word_i "Cc:"; word_i "Bcc:" ].

Definition forwardMarkers : regex :=
  alts [ word_i "Original Message"; word_i "From:"; word_i "Sent:" ].

(** [/\n\s*\n/] *)
Definition blankLine : regex := seqs [ chr LF; Star true ws; chr LF ].

Definition cleanEmailBody (body : jsstr) : jsstr :=
  (* /<[^>]*>/g *)
  let textOnly :=
    replace_all false (seqs [ chr "<"; Star true (none_of ">"); chr ">" ]) [] body in
  (* /^.*?(?=From:|To:|Subject:|Date:|Sent:|Cc:|Bcc:)/gim *)
  let withoutHeaders :=
    replace_all true (seqs [ Bol; Star false dot; Ahead headerLabels ]) [] textOnly in
  (* /^>.*$/gm *)
  let withoutQuotes :=
    replace_all true (seqs [ Bol; chr ">"; Star true dot; Eol ]) [] withoutHeaders in
  (* /--\s*\n.*$/m *)
  let withoutSignature :=
    replace_first true
      (seqs [ word "--"; Star true ws; chr LF; Star true dot; Eol ]) [] withoutQuotes in
  (* /^.*?(?=Original Message|From:|Sent:)/gim *)
  let withoutForwardMarkers :=
    replace_all true (seqs [ Bol; Star false dot; Ahead forwardMarkers ]) []
      withoutSignature in
  (* /\n\s*\n/g, then /^\s+|\s+$/gm, then trim *)
  let cleaned :=
    trim (replace_all true (Alt (Seq Bol (plus ws)) (Seq (plus ws) Eol)) []
            (replace_all false blankLine [LF; LF] withoutForwardMarkers)) in
  let fallback := str_or cleaned placeholder in
  if length cleaned <? 50 then
    let paragraphs := js_split false blankLine textOnly in
    match find (fun p => 20 <? length (trim p)) paragraphs with
    | Some firstParagraph =>
        match firstParagraph with
        | [] => fallback
        | _ => str_or (trim firstParagraph) placeholder
        end
    | None => fallback
    end
  else fallback.

(** [/^(Fwd|Re|Fw|Forward|Reply):\s*/i] *)
Definition prefixRegex : regex :=
  seqs [ Bol;
         Grp 1 (alts [ word_i "Fwd"; word_i "Re"; word_i "Fw"; word_i "Forward";
                       word_i "Reply" ]);
         chr ":"; Star true ws ].

(** The cleaned subject of [parseEmailToTask], from the sanitized one. *)
Definition cleanSubjectOf (rawSubject : jsstr) : jsstr :=
  str_or (trim (replace_first false prefixRegex [] rawSubject)) (lit "Email Task").

Definition opt_str (o : option jsstr) : jsstr :=
  match o with Some s => s | None => [] end.

(** [Math.max(1, Math.min(10, importance || 5))] *)
Definition clampImportance (importance : Z) : Z :=
  Z.max 1 (Z.min 10 (if Z.eqb importance 0 then 5 else importance)).

Definition parseEmailToTask (tza : TimeZone) (now : Z) (email : EmailMessage)
  : result EmailTask :=
  let rawSubject := sanitizeSubject (VStr (subject email)) in
  let cleanSubject := cleanSubjectOf rawSubject in
  let dueDate := extractDueDateFromSubject tza now cleanSubject in
  let importance := extractImportanceFromSubject cleanSubject in
  let rawBody := str_or (opt_str (text email)) (opt_str (html email)) in
  let cleanedBody := cleanEmailBody rawBody in
  let description := sanitizeTextContent (VStr cleanedBody) in
  let sanitizedSender :=
    match validateAndSanitizeEmail (VStr (from email)) with
    | Some s => s
    | None => lit "unknown@sender.com"
    end in
  (* the logged object evaluates dueDate?.toISOString() *)
  bind (match dueDate with Some d => toISOString d | None => Ok tt end)
    (fun _ =>
       Ok {| title := cleanSubject;
             description := str_or description placeholder;
             area := lit "inbox";
             importance := clampImportance importance;
             dueDate := dueDate;
             emailSource := {| sender := sanitizedSender;
                               source_receivedAt := receivedAt email;
                               originalSubject := rawSubject |} |}).

(* ================================================================== *)
(** * Payload normalizer (the extraction phase of [processEmailTask]) *)

(** The five variables [from], [to], [subject], [text], [html] of the
    handler. *)
Record Extracted := {
  e_from : jsval;
  e_to : jsval;
  e_subject : jsval;
  e_text : jsval;
  e_html : jsval
}.

Definition nothing : Extracted :=
  {| e_from := VUndef; e_to := VUndef; e_subject := VUndef;
     e_text := VUndef; e_html := VUndef |}.

Definition with_from (v : jsval) (e : Extracted) : Extracted :=
  {| e_from := v; e_to := e_to e; e_subject := e_subject e;
     e_text := e_text e; e_html := e_html e |}.
Definition with_to (v : jsval) (e : Extracted) : Extracted :=
  {| e_from := e_from e; e_to := v; e_subject := e_subject e;
     e_text := e_text e; e_html := e_html e |}.
Definition with_subject (v : jsval) (e : Extracted) : Extracted :=
  {| e_from := e_from e; e_to := e_to e; e_subject := v;
     e_text := e_text e; e_html := e_html e |}.
Definition with_text (v : jsval) (e : Extracted) : Extracted :=
  {| e_from := e_from e; e_to := e_to e; e_subject := e_subject e;
     e_text := v; e_html := e_html e |}.
Definition with_html (v : jsval) (e : Extracted) : Extracted :=
  {| e_from := e_from e; e_to := e_to e; e_subject := e_subject e;
     e_text := e_text e; e_html := v |}.

Definition str_of (v : jsval) : jsstr :=
  match v with VStr s => s | _ => [] end.

Definition prop (v : jsval) (k : string) : jsval := get v (lit k).

(** [v.from || v.to || v.subject || v.sender || v.recipient] *)
Definition has_email_keys (v : jsval) : bool :=
  truthy (prop v "from") || truthy (prop v "to") || truthy (prop v "subject")
  || truthy (prop v "sender") || truthy (prop v "recipient").

(** [v.from || v.to || v.subject] *)
Definition has_header_keys (v : jsval) : bool :=
  truthy (prop v "from") || truthy (prop v "to") || truthy (prop v "subject").

(** [v && typeof v === 'object'] *)
Definition is_object (v : jsval) : bool := truthy v && typeof_object v.

(** [v && typeof v === 'string'] *)
Definition is_string (v : jsval) : bool := truthy v && typeof_string v.

(** Step 1: a string body is parsed as JSON when it can be. *)
Definition parse_body (parse : jsstr -> option jsval) (body : jsval) : jsval :=
  match body with
  | VStr s => match parse s with Some v => v | None => body end
  | _ => body
  end.

(** Step 2, arrays of at most 100 items: the first item that carries
    email fields, or whose JSON text does, becomes the body. *)
Fixpoint scan_small_array (parse : jsstr -> option jsval) (items : list jsval)
  : option jsval :=
  match items with
  | [] => None
  | item :: rest =>
      if is_object item && has_email_keys item then Some item
      else if is_string item then
        match parse (str_of item) with
        | Some parsed =>
            if is_object parsed && has_email_keys parsed then Some parsed
            else scan_small_array parse rest
        | None => scan_small_array parse rest
        end
      else scan_small_array parse rest
  end.

Definition not_dquote : regex := Cls (fun c => negb (is_code 34 c)).

(** A key in double quotes, a colon, optional space and a value in double
    quotes that is captured: the shape of the patterns that look for
    from, to, subject and the body keys in serialized JSON. *)
Definition keyValue (ignoreCase : bool) (key : string) (value : regex) : regex :=
  seqs [ chr dquote; (if ignoreCase then word_i key else word key); chr dquote;
         chr ":"; Star true ws; chr dquote; Grp 1 value; chr dquote ].

(** One or more code units other than the double quote. *)
Definition anyValue : regex := plus not_dquote.
(** The same on both sides of an at sign. *)
Definition addressValue : regex :=
  seqs [ plus not_dquote; chr "@"; plus not_dquote ].

(** [if (m) x = m[1]] *)
Definition set_if (m : option found) (old : jsval) : jsval :=
  match m with Some f => VStr (group 1 f) | None => old end.

(** [if (m) x = m[1].trim()] *)
Definition set_trim_if (m : option found) (old : jsval) : jsval :=
  match m with Some f => VStr (trim (group 1 f)) | None => old end.

Definition stringify_str (v : jsval) : jsstr :=
  match stringify v with Some s => s | None => [] end.

(** Step 2, arrays of more than 100 items: the array is serialized and
    the fields are taken from the first matches of five patterns. *)
Definition extract_large_array (body : jsval) (e : Extracted) : Extracted :=
  let arrayStr := stringify_str body in
  let m (key : string) := js_match false (keyValue true key anyValue) arrayStr in
  {| e_from := set_if (m "from"%string) (e_from e);
     e_to := set_if (m "to"%string) (e_to e);
     e_subject := set_if (m "subject"%string) (e_subject e);
     e_text := set_if (m "body-plain"%string) (e_text e);
     e_html := set_if (m "body-html"%string) (e_html e) |}.

Definition array_stage (parse : jsstr -> option jsval) (body : jsval)
  (e : Extracted) : jsval * Extracted :=
  match body with
  | VArr items =>
      if length items <=? 100 then
        match scan_small_array parse items with
        | Some item => (item, e)
        | None => (body, e)
        end
      else (body, extract_large_array body e)
  | _ => (body, e)
  end.

(** [x = typeof v === 'string' ? v : x] *)
Definition pick_string (v old : jsval) : jsval :=
  if typeof_string v then v else old.

Definition take_headers (h : jsval) (e : Extracted) : Extracted :=
  {| e_from := pick_string (prop h "from") (e_from e);
     e_to := pick_string (prop h "to") (e_to e);
     e_subject := pick_string (prop h "subject") (e_subject e);
     e_text := e_text e; e_html := e_html e |}.

Definition take_bodies (m : jsval) (e : Extracted) : Extracted :=
  {| e_from := e_from e; e_to := e_to e; e_subject := e_subject e;
     e_text := pick_string (prop m "body-plain") (e_text e);
     e_html := pick_string (prop m "body-html") (e_html e) |}.

(** Step 3, the scan of the items of an array-like object. *)
Fixpoint scan_array_like (parse : jsstr -> option jsval) (items : list jsval)
  (e : Extracted) : Extracted :=
  match items with
  | [] => e
  | item :: rest =>
      if is_object item then
        let headers := prop item "headers" in
        if is_object headers && has_header_keys headers then take_headers headers e
        else
          let msg := prop item "message" in
          if is_object msg && is_object (prop msg "headers")
          then take_headers (prop msg "headers") e
          else
            let e1 := if is_object msg then take_bodies msg e else e in
            if has_header_keys item then take_headers item e1
            else scan_array_like parse rest e1
      else if is_string item then
        match parse (str_of item) with
        | Some parsed =>
            if is_object parsed then
              if is_object (prop parsed "headers")
              then take_headers (prop parsed "headers") e
              else if truthy (prop parsed "message")
                      && is_object (prop (prop parsed "message") "headers")
              then take_headers (prop (prop parsed "message") "headers") e
              else scan_array_like parse rest (take_bodies parsed e)
            else scan_array_like parse rest e
        | None => scan_array_like parse rest e
        end
      else scan_array_like parse rest e
  end.

Definition array_like_stage (parse : jsstr -> option jsval) (body : jsval)
  (e : Extracted) : Extracted :=
  match body with
  | VObj props =>
      let objectKeys := object_keys props in
      let numericKeys := filter all_digits objectKeys in
      if (0 <? length numericKeys) && (length objectKeys / 2 <=? length numericKeys)
      then
        let orderedItems := map (get body) (sort_numeric numericKeys) in
        scan_array_like parse orderedItems e
      else e
  | _ => e
  end.

(** [a || b || c ...] over a list of property names. *)
Fixpoint first_truthy (v : jsval) (keys : list string) : jsval :=
  match keys with
  | [] => VUndef
  | [k] => prop v k
  | k :: t => js_or (prop v k) (first_truthy v t)
  end.

(** The [event-data] format. *)
Definition extract_event_data (message : jsval) : Extracted :=
  let headers := prop message "headers" in
  {| e_from := js_or (get_opt headers (lit "from")) (prop message "from");
     e_to := js_or (get_opt headers (lit "to")) (prop message "to");
     e_subject := js_or (get_opt headers (lit "subject")) (prop message "subject");
     e_text := first_truthy message ["body-plain"; "stripped-text"; "body"]%string;
     e_html := first_truthy message ["body-html"; "stripped-html"]%string |}.

(** The [recipient] format, also used on a body found by sampling. *)
Definition extract_recipient (body : jsval) : Extracted :=
  {| e_from := first_truthy body ["sender"; "from"]%string;
     e_to := first_truthy body ["recipient"; "to"]%string;
     e_subject := prop body "subject";
     e_text := first_truthy body ["body-plain"; "stripped-text"; "body"; "text"]%string;
     e_html := first_truthy body ["body-html"; "stripped-html"; "html"]%string |}.

(** The simple format. *)
Definition extract_simple (body : jsval) : Extracted :=
  {| e_from := prop body "from";
     e_to := prop body "to";
     e_subject := prop body "subject";
     e_text := first_truthy body ["text"; "body-plain"; "stripped-text"]%string;
     e_html := first_truthy body ["html"; "body-html"; "stripped-html"]%string |}.

(** The indices [start, start + 100, ...] below [stop]. *)
Definition stride (start stop : nat) : list nat :=
  map (fun j => start + 100 * j) (seq 0 ((stop - start + 99) / 100)).

Definition sample_indices (len : nat) : list nat :=
  let sampleSize := Nat.min 1000 (len / 10) in
  stride 0 sampleSize
  ++ stride (len / 2) (Nat.min (len / 2 + sampleSize) len)
  ++ stride (len - sampleSize) len.

(** The key, in double quotes or bare, a colon and optional space. *)
Definition looseKey (key : string) : regex :=
  seqs [ Alt (seqs [ chr dquote; word_i key; chr dquote ]) (word_i key);
         chr ":"; Star true ws ].

(** An at sign between runs of code units other than the double quote,
    the comma and the line feed. *)
Definition sampleAddress : regex :=
  let c := Cls (fun c => negb (is_code 34 c || is_code 44 c || is_code 10 c)) in
  seqs [ plus c; chr "@"; plus c ].

Definition sampleAddressRegex (key : string) : regex :=
  seqs [ looseKey key; opt (chr dquote); Grp 1 sampleAddress; opt (chr dquote) ].

Definition sampleSubjectRegex : regex :=
  seqs [ looseKey "subject"; chr dquote; Grp 1 anyValue; chr dquote ].

Definition all_three (e : Extracted) : bool :=
  truthy (e_from e) && truthy (e_to e) && truthy (e_subject e).

Definition none_of_three (e : Extracted) : bool :=
  negb (truthy (e_from e)) && negb (truthy (e_to e)) && negb (truthy (e_subject e)).

(** The loop over the samples of a massive array: the new body, the new
    fields and [emailFound]. *)
Fixpoint scan_samples (parse : jsstr -> option jsval) (samples : list jsval)
  (body : jsval) (e : Extracted) : jsval * Extracted * bool :=
  match samples with
  | [] => (body, e, false)
  | item :: rest =>
      if is_string item then
        let s := str_of item in
        let hit :=
          match parse s with
          | Some parsed =>
              if is_object parsed && has_email_keys parsed then Some parsed else None
          | None => None
          end in
        match hit with
        | Some parsed => (parsed, e, true)
        | None =>
            if includes (lit "@") s
               && (includes (lit "subject") s || includes (lit "from") s
                   || includes (lit "to") s)
            then
              let e1 :=
                {| e_from := set_trim_if (js_match false (sampleAddressRegex "from") s) (e_from e);
                   e_to := set_trim_if (js_match false (sampleAddressRegex "to") s) (e_to e);
                   e_subject := set_trim_if (js_match false sampleSubjectRegex s) (e_subject e);
                   e_text := e_text e; e_html := e_html e |} in
              if all_three e1 then (body, e1, true)
              else scan_samples parse rest body e1
            else scan_samples parse rest body e
        end
      else if is_object item then
        if has_email_keys item then (item, e, true)
        else scan_samples parse rest body e
      else scan_samples parse rest body e
  end.

(** The search over the whole serialized array, for fewer than 10000
    items. *)
Definition extract_full_array (body : jsval) (e : Extracted) : Extracted :=
  let arrayStr := stringify_str body in
  {| e_from := set_if (js_match false (keyValue false "from" addressValue) arrayStr) (e_from e);
     e_to := set_if (js_match false (keyValue false "to" addressValue) arrayStr) (e_to e);
     e_subject := set_if (js_match false (keyValue false "subject" anyValue) arrayStr) (e_subject e);
     e_text := e_text e; e_html := e_html e |}.

Definition massive_stage (parse : jsstr -> option jsval) (body : jsval)
  (e : Extracted) : jsval * Extracted :=
  match body with
  | VArr items =>
      if 1000 <? length items then
        let samples := map (fun i => nth i items VUndef) (sample_indices (length items)) in
        match scan_samples parse samples body e with
        | (body1, e1, true) => (body1, e1)
        | (body1, e1, false) =>
            if length items <? 10000 then (body1, extract_full_array body1 e1)
            else (body1, e1)
        end
      else (body, e)
  | _ => (body, e)
  end.

(** The first pattern of a list that matches gives the trimmed capture. *)
Fixpoint first_match (patterns : list regex) (s : jsstr) (old : jsval) : jsval :=
  match patterns with
  | [] => old
  | p :: t =>
      match js_match false p s with
      | Some f => VStr (trim (group 1 f))
      | None => first_match t s old
      end
  end.

Fixpoint first_match_raw (patterns : list regex) (s : jsstr) (old : jsval) : jsval :=
  match patterns with
  | [] => old
  | p :: t =>
      match js_match false p s with
      | Some f => VStr (group 1 f)
      | None => first_match_raw t s old
      end
  end.

(** [key:\s*([^,\s\n]+@[^,\s\n]+)] with the [i] flag *)
Definition bareAddressRegex (key : string) : regex :=
  let c := Cls (fun c => negb (is_code 44 c || is_space c || is_code 10 c)) in
  seqs [ word_i key; chr ":"; Star true ws;
         Grp 1 (seqs [ plus c; chr "@"; plus c ]) ].

(** [subject:\s*([^\n\r]+)] with the [i] flag *)
Definition bareSubjectRegex : regex :=
  seqs [ word_i "subject"; chr ":"; Star true ws;
         Grp 1 (plus (Cls (fun c => negb (is_code 10 c || is_code 13 c)))) ].

Definition fromPatterns : list regex :=
  [ keyValue true "from" addressValue; keyValue true "sender" addressValue;
    bareAddressRegex "from"; bareAddressRegex "sender" ].
Definition toPatterns : list regex :=
  [ keyValue true "to" addressValue; keyValue true "recipient" addressValue;
    bareAddressRegex "to"; bareAddressRegex "recipient" ].
Definition subjectPatterns : list regex :=
  [ keyValue true "subject" anyValue; bareSubjectRegex ].
Definition bodyPatterns : list regex :=
  [ keyValue false "body-plain" anyValue; keyValue false "stripped-text" anyValue;
    keyValue false "body" anyValue; keyValue false "text" anyValue ].

(** The final fallback over the text of the body. *)
Definition extract_fallback (body : jsval) (e : Extracted) : Extracted :=
  let bodyStr :=
    match body with
    | VStr s => s
    | _ => substring0 50000 (stringify_str body)
    end in
  {| e_from := first_match fromPatterns bodyStr (e_from e);
     e_to := first_match toPatterns bodyStr (e_to e);
     e_subject := first_match subjectPatterns bodyStr (e_subject e);
     e_text :=
       if negb (truthy (e_text e)) && negb (truthy (e_html e))
       then first_match_raw bodyPatterns bodyStr (e_text e) else e_text e;
     e_html := e_html e |}.

(** [x ? `${x.substring(0, n)}...` : undefined] throws when [x] is truthy
    and not a string. *)
Definition preview (name : string) (v : jsval) : result unit :=
  if truthy v && negb (typeof_string v)
  then Throw (JsError TypeError (lit name ++ lit ".substring is not a function"))
  else Ok tt.

(** The last branch of the format dispatch. *)
Definition extract_any (parse : jsstr -> option jsval) (body : jsval)
  (e : Extracted) : result Extracted :=
  let (body1, e1) := massive_stage parse body e in
  let e2 :=
    if none_of_three e1 && is_object body1 && negb (isArray body1)
    then extract_recipient body1 else e1 in
  let e3 := if none_of_three e2 then extract_fallback body1 e2 else e2 in
  bind (preview "from" (e_from e3)) (fun _ =>
  bind (preview "to" (e_to e3)) (fun _ =>
  bind (preview "subject" (e_subject e3)) (fun _ => Ok e3))).

(** Step 4, the format dispatch. Reading [parsedBody['event-data']] throws
    when the body is [null] or [undefined]. *)
Definition dispatch_stage (parse : jsstr -> option jsval) (body : jsval)
  (e : Extracted) : result Extracted :=
  if is_nullish body then
    Throw (JsError TypeError
             (lit "Cannot read properties of "
              ++ match body with VNull => lit "null" | _ => lit "undefined" end
              ++ lit " (reading 'event-data')"))
  else if truthy (prop body "event-data")
          && truthy (prop (prop body "event-data") "message")
  then Ok (extract_event_data (prop (prop body "event-data") "message"))
  else if truthy (prop body "recipient") then Ok (extract_recipient body)
  else if has_header_keys body then Ok (extract_simple body)
  else extract_any parse body e.

(** The extraction phase: from the request body to the five fields. *)
Definition normalize (parse : jsstr -> option jsval) (reqBody : jsval)
  : result Extracted :=
  let parsedBody := parse_body parse reqBody in
  let (parsedBody1, e1) := array_stage parse parsedBody nothing in
  let e2 := array_like_stage parse parsedBody1 e1 in
  dispatch_stage parse parsedBody1 e2.

(* ================================================================== *)
(** * The request handler *)

Record Request := { method : jsstr; body : jsval }.

Record Response := { status : nat; payload : jsval }.

(** The task document written to the store: the task, [status: 'open']
    and the user identifier ([dateNoted] is assigned by the store). *)
Record TaskData := {
  task : EmailTask;
  task_status : jsstr;
  task_userId : jsstr
}.

(** What the store does when asked: nothing goes wrong, the user lookup
    rejects, or the write rejects with an Error of the given message or
    with a value that is not an Error. *)
Inductive store_fault :=
| NoFault
| LookupRejects
| AddRejects (message : option jsstr).

(** The document store: the identifiers of the documents of [users], the
    tasks written so far with their users, and the identifier the next
    written task gets. *)
Record Store := {
  users : list jsstr;
  tasks : list (jsstr * TaskData);
  next_task_id : jsstr;
  fault : store_fault
}.

Definition obj (l : list (string * jsval)) : jsval :=
  VObj (map (fun kv => (lit (fst kv), snd kv)) l).

Definition failure (error : string) (details : jsval) : jsval :=
  obj [ ("success", VBool false); ("error", VStr (lit error));
        ("details", details) ]%string.

Definition pad (n : nat) (z : Z) : jsstr :=
  let ds := decimal z in
  repeat "0"%char (n - length ds) ++ ds.

(** [new Date(t).toISOString()] for a valid time value. *)
Definition iso_string (t : Z) : jsstr :=
  let y := YearFromTime t in
  let ms := TimeWithinDay t in
  (if ((0 <=? y) && (y <=? 9999))%Z then pad 4 y
   else (if (y <? 0)%Z then lit "-" else lit "+") ++ pad 6 (Z.abs y))
  ++ lit "-" ++ pad 2 (MonthFromTime t + 1) ++ lit "-" ++ pad 2 (DateFromTime t)
  ++ lit "T" ++ pad 2 (ms / 3600000) ++ lit ":" ++ pad 2 ((ms / 60000) mod 60)
  ++ lit ":" ++ pad 2 ((ms / 1000) mod 60) ++ lit "." ++ pad 3 (ms mod 1000)
  ++ lit "Z".

(** The exact lookup of the user document, then the scan of all users
    that compares identifiers in lower case. *)
Definition find_user (st : Store) (userId : jsstr) : option jsstr :=
  if existsb (str_eqb userId) (users st) then Some userId
  else find (fun id => str_eqb (toLowerCase id) (toLowerCase userId)) (users st).

Definition missing_or_ok (missing : bool) : jsval :=
  VStr (if missing then lit "missing or invalid" else lit "ok").

Definition is_none (A : Type) (o : option A) : bool :=
  match o with None => true | Some _ => false end.

Definition is_empty (s : jsstr) : bool :=
  match s with [] => true | _ => false end.

(** The checks made on the task document before it is written. *)
Definition validate_task (t : EmailTask) : result unit :=
  if is_empty (title t) || (length (trim (title t)) =? 0) then
    Throw (JsError PlainError (lit "Task title is required"))
  else if (importance t <? 1)%Z || (10 <? importance t)%Z then
    Throw (JsError PlainError (lit "Task importance must be a number between 1 and 10"))
  else if is_empty (area t) then
    Throw (JsError PlainError (lit "Task area is required"))
  else Ok tt.

Definition create_failed (userId : jsstr) (e : js_error) : Response :=
  let details :=
    obj [ ("userId", VStr userId); ("message", VStr (err_message e)) ]%string in
  if includes (lit "permission") (err_message e) then
    {| status := 403; payload := failure "Permission denied while creating task" details |}
  else if includes (lit "quota") (err_message e) || includes (lit "limit") (err_message e) then
    {| status := 429; payload := failure "Database quota exceeded" details |}
  else
    {| status := 500; payload := failure "Failed to create task in database" details |}.

(** The creation of the task once the user is known. *)
Definition create_task (st : Store) (userId actualUserId : jsstr) (t : EmailTask)
  : Response * Store :=
  match validate_task t with
  | Throw e => (create_failed userId e, st)
  | Ok _ =>
      match fault st with
      | AddRejects (Some message) =>
          (create_failed userId (JsError PlainError message), st)
      | AddRejects None =>
          ({| status := 500;
              payload := failure "Unknown error while creating task"
                           (obj [ ("userId", VStr userId) ]%string) |}, st)
      | _ =>
          let data := {| task := t; task_status := lit "open";
                         task_userId := actualUserId |} in
          ({| status := 200;
              payload :=
                obj [ ("success", VBool true);
                      ("taskId", VStr (next_task_id st));
                      ("message", VStr (lit "Task created successfully from email"));
                      ("taskData",
                       obj [ ("title", VStr (title t));
                             ("area", VStr (area t));
                             ("importance", VNum (importance t));
                             ("status", VStr (lit "open")) ]) ]%string |},
           {| users := users st;
              tasks := tasks st ++ [(actualUserId, data)];
              next_task_id := next_task_id st ++ lit "'";
              fault := fault st |})
      end
  end.

(** The handler after the extraction phase. *)
Definition respond (tza : TimeZone) (now : Z) (st : Store) (e : Extracted)
  : Response * Store :=
  let sanitizedFrom := validateAndSanitizeEmail (js_or (e_from e) (VStr [])) in
  let sanitizedTo := validateAndSanitizeEmail (js_or (e_to e) (VStr [])) in
  let sanitizedSubject := sanitizeSubject (js_or (e_subject e) (VStr [])) in
  let sanitizedText := sanitizeTextContent (js_or (e_text e) (VStr [])) in
  let sanitizedHtml := sanitizeTextContent (js_or (e_html e) (VStr [])) in
  match sanitizedFrom, sanitizedTo, is_empty sanitizedSubject with
  | Some sFrom, Some sTo, false =>
      match extractUserIdFromEmail (VStr sTo) with
      | Some (c :: u) =>
          let userId := c :: u in
          match fault st with
          | LookupRejects =>
              ({| status := 500;
                  payload := failure "Database error while checking user"
                               (obj [ ("userId", VStr userId) ]%string) |}, st)
          | _ =>
              match find_user st userId with
              | None =>
                  ({| status := 404;
                      payload :=
                        failure "User not found"
                          (obj [ ("requestedUserId", VStr userId);
                                 ("availableUsers",
                                  VArr (map VStr (firstn 5 (users st)))) ]%string) |},
                   st)
              | Some actualUserId =>
                  match parseEmailToTask tza now
                          {| from := sFrom; to := sTo; subject := sanitizedSubject;
                             text := Some sanitizedText; html := Some sanitizedHtml;
                             receivedAt := Instant now |} with
                  | Throw err =>
                      ({| status := 500;
                          payload := failure "Error parsing email content"
                                       (obj [ ("error", VStr (err_message err)) ]%string) |},
                       st)
                  | Ok emailTask => create_task st userId actualUserId emailTask
                  end
              end
          end
      | _ =>
          ({| status := 400;
              payload := failure "Invalid email address format"
                           (obj [ ("email", VStr sTo) ]%string) |}, st)
      end
  | _, _, _ =>
      ({| status := 400;
          payload :=
            failure "Missing or invalid required email fields"
              (obj [ ("from", missing_or_ok (is_none sanitizedFrom));
                     ("to", missing_or_ok (is_none sanitizedTo));
                     ("subject", missing_or_ok (is_empty sanitizedSubject)) ]%string) |},
       st)
  end.

(** [processEmailTask]: the response and the store after the request.
    The clock is read as one instant [now] during a request. *)
Definition processEmailTask (parse : jsstr -> option jsval) (tza : TimeZone) (now : Z)
  (st : Store) (req : Request) : Response * Store :=
  if str_eqb (method req) (lit "OPTIONS") then
    ({| status := 204; payload := VStr [] |}, st)
  else if negb (str_eqb (method req) (lit "POST")) then
    ({| status := 405; payload := VStr (lit "Method not allowed") |}, st)
  else
    match normalize parse (body req) with
    | Throw err =>
        ({| status := 500;
            payload :=
              failure "Internal server error while processing email"
                (obj [ ("message", VStr (err_message err));
                       ("timestamp", VStr (iso_string now)) ]%string) |}, st)
    | Ok e => respond tza now st e
    end.

(** ** Named parts of the handler *)

(** The email message the handler passes to [parseEmailToTask]. *)
Definition message_of (now : Z) (e : Extracted) (sFrom sTo : jsstr) : EmailMessage :=
  {| from := sFrom; to := sTo;
     subject := sanitizeSubject (js_or (e_subject e) (VStr []));
     text := Some (sanitizeTextContent (js_or (e_text e) (VStr [])));
     html := Some (sanitizeTextContent (js_or (e_html e) (VStr [])));
     receivedAt := Instant now |}.

(** The store after a task was written for a user. *)
Definition store_with (st : Store) (uid : jsstr) (t : EmailTask) : Store :=
  {| users := users st;
     tasks := tasks st ++ [(uid, {| task := t; task_status := lit "open";
                                    task_userId := uid |})];
     next_task_id := next_task_id st ++ lit "'";
     fault := fault st |}.

(** The answer to a task that was written. *)
Definition created_response (st : Store) (t : EmailTask) : Response :=
  {| status := 200;
     payload :=
       obj [ ("success", VBool true);
             ("taskId", VStr (next_task_id st));
             ("message", VStr (lit "Task created successfully from email"));
             ("taskData",
              obj [ ("title", VStr (title t));
                    ("area", VStr (area t));
                    ("importance", VNum (importance t));
                    ("status", VStr (lit "open")) ]) ]%string |}.

(** The [error] text of an answer. *)
Definition error_of (r : Response) : jsval := prop (payload r) "error".

(* ================================================================== *)
(** * The reCAPTCHA callable *)

(** What a callable function rejects with: an [HttpsError] with its code
    and message, or any other thrown value. *)
Inductive call_error :=
| HttpsError (code message : jsstr)
| OtherError (e : js_error).

Inductive call_outcome (A : Type) :=
| Returns (a : A)
| Rejects (e : call_error).
Arguments Returns {A} a.
Arguments Rejects {A} e.

(** [try { body } catch (error) { handler }] *)
Definition try_catch (A : Type) (body : call_outcome A)
  (handler : call_error -> call_outcome A) : call_outcome A :=
  match body with
  | Returns a => Returns a
  | Rejects e => handler e
  end.

(** [verifyRecaptcha]. The helper [verifyRecaptchaToken] asks the
    assessment service; its whole body is inside a [try] whose [catch]
    returns [false], so it always resolves to a boolean, which depends on
    the configuration and on the service and is a parameter here.
    Destructuring [data] throws when it is [null] or [undefined]. *)
Definition verifyRecaptcha (verifyRecaptchaToken : jsval -> jsval -> bool)
  (data : jsval) : call_outcome jsval :=
  if is_nullish data then
    Rejects (OtherError
               (JsError TypeError
                  (lit "Cannot destructure property 'token' of 'data' as it is "
                   ++ match data with VNull => lit "null" | _ => lit "undefined" end
                   ++ lit ".")))
  else
    let token := prop data "token" in
    let action := prop data "action" in
    if negb (truthy token) || negb (truthy action) then
      Rejects (HttpsError (lit "invalid-argument") (lit "Token and action are required"))
    else
      try_catch
        (if negb (verifyRecaptchaToken token action) then
           Rejects (HttpsError (lit "permission-denied")
                      (lit "reCAPTCHA verification failed"))
         else
           Returns (obj [ ("success", VBool true);
                          ("message", VStr (lit "reCAPTCHA verified successfully")) ]%string))
        (fun _ =>
           Rejects (HttpsError (lit "internal") (lit "Failed to verify reCAPTCHA"))).

(* ================================================================== *)
(** * Specification-side notions *)

(** [w] occurs in [s] up to letter case: the meaning of a literal pattern
    with the [i] flag. *)
Definition same_word_ci (w mid : jsstr) : Prop :=
  Forall2 (fun p c => ci_eqb p c = true) w mid.

Definition contains_ci (w : string) (s : jsstr) : Prop :=
  exists pre mid post, s = pre ++ mid ++ post /\ same_word_ci (lit w) mid.

Definition contains_any_ci (ws : list string) (s : jsstr) : Prop :=
  exists w, In w ws /\ contains_ci w s.

(** The reply and forward markers of title cleaning, in any letter case. *)
Definition reply_markers : list string :=
  [ "Fwd"; "Re"; "Fw"; "Forward"; "Reply" ]%string.

Definition is_reply_marker (m : jsstr) : Prop :=
  exists w, In w reply_markers /\ same_word_ci (lit w) m.

Definition no_leading_space (s : jsstr) : Prop :=
  match s with [] => True | c :: _ => is_space c = false end.

(** A Date that denotes an instant: a time value within the range of
    ECMAScript time values. *)
Definition valid_date (d : Date) : Prop :=
  match d with
  | InvalidDate => False
  | Instant t => (Z.abs t <= maxTime)%Z
  end.




(** Sample payloads. *)
Definition sample_mail : jsval :=
  obj [ ("from", VStr (lit "alice@example.com"));
        ("to", VStr (lit "JohnDoe@tasks.example.com"));
        ("subject", VStr (lit "Quarterly report"));
        ("text", VStr (lit "Please review the attached report.")) ]%string.


Definition sample_store : Store :=
  {| users := [lit "JohnDoe"]; tasks := []; next_task_id := lit "task-1";
     fault := NoFault |}.

Definition sample_email (subj : string) : EmailMessage :=
  {| from := lit "alice@example.com"; to := lit "johndoe@tasks.example.com";
     subject := lit subj; text := None; html := None; receivedAt := Instant 0 |}.

(** An email whose text has two lines. *)
Definition two_line_email : EmailMessage :=
  {| from := lit "alice@example.com"; to := lit "johndoe@tasks.example.com";
     subject := lit "Status"; text := Some (lit "Line one" ++ LF :: lit "Line two");
     html := None; receivedAt := Instant 0 |}.



(** The shape of an address accepted by the email pattern, with its
    local part: one or more code units of the local class, an at sign,
    one or more of the domain class, a dot and two or more letters. *)
Definition address_shape (t local : jsstr) : Prop :=
  exists c run1 d run2 a1 a2 run3,
    t = (c :: run1) ++ "@"%char :: (d :: run2) ++ "."%char :: a1 :: a2 :: run3 /\
    local = c :: run1 /\
    Forall (fun c => local_class c = true) (c :: run1) /\
    Forall (fun c => domain_class c = true) (d :: run2) /\
    Forall (fun c => is_alpha c = true) (a1 :: a2 :: run3).




(** A value that is a string or [undefined]. *)
Definition string_or_undefined (v : jsval) : Prop :=
  match v with VStr _ | VUndef => True | _ => False end.

(** A string without white space at either end. *)
Definition trimmed (s : jsstr) : Prop :=
  no_leading_space s /\ no_leading_space (rev s).

(** A code unit that is neither a control character nor an angle
    bracket. *)
Definition plain_char (c : ascii) : Prop :=
  is_control c = false /\ existsb (ascii_eqb c) (lit "<>") = false.

(** A value on which the preview of a field does not throw: falsy, or a
    string. *)
Definition falsy_or_string (v : jsval) : Prop :=
  truthy v = false \/ typeof_string v = true.

(** The three headers are strings or [undefined]. *)
Definition headers_typed (e : Extracted) : Prop :=
  string_or_undefined (e_from e) /\ string_or_undefined (e_to e) /\
  string_or_undefined (e_subject e).

(** A code unit of a line of text: not a control character, an angle
    bracket or an ampersand. *)
Definition line_char (c : ascii) : Prop :=
  is_control c = false /\ existsb (ascii_eqb c) (lit "<>&") = false.

(** An ordinary one-line text: not empty, without white space at either
    end, of at most 5000 code units, without control characters, angle
    brackets and ampersands, and without a header label or a forward
    marker. *)
Definition ordinary_text (s : jsstr) : Prop :=
  s <> [] /\ trimmed s /\ length s <= 5000 /\
  Forall (fun c => is_control c = false /\
                   existsb (ascii_eqb c) (lit "<>&") = false) s /\
  js_test false headerLabels s = false /\
  js_test false forwardMarkers s = false.

(** The values [cleanEmailBody] computes on the way: the body without
    its tags ([textOnly] in the source), the text after all the
    replacements and the trim ([cleaned]), and the first paragraph of the
    body without tags that has more than 20 code units once trimmed
    ([firstParagraph]). *)
Definition textOnly_of (body : jsstr) : jsstr :=
  replace_all false (seqs [ chr "<"; Star true (none_of ">"); chr ">" ]) [] body.

Definition cleaned_of (body : jsstr) : jsstr :=
  let withoutHeaders :=
    replace_all true (seqs [ Bol; Star false dot; Ahead headerLabels ]) []
      (textOnly_of body) in
  let withoutQuotes :=
    replace_all true (seqs [ Bol; chr ">"; Star true dot; Eol ]) [] withoutHeaders in
  let withoutSignature :=
    replace_first true
      (seqs [ word "--"; Star true ws; chr LF; Star true dot; Eol ]) [] withoutQuotes in
  let withoutForwardMarkers :=
    replace_all true (seqs [ Bol; Star false dot; Ahead forwardMarkers ]) []
      withoutSignature in
  trim (replace_all true (Alt (Seq Bol (plus ws)) (Seq (plus ws) Eol)) []
          (replace_all false blankLine [LF; LF] withoutForwardMarkers)).

Definition firstParagraph_of (body : jsstr) : option jsstr :=
  find (fun p => 20 <? length (trim p)) (js_split false blankLine (textOnly_of body)).

(** ** Auxiliary functions of the proofs *)

(** Consume one code unit per predicate. *)
Fixpoint eat (ps : list (ascii -> bool)) (prev : option ascii) (s : jsstr)
  : option (option ascii * jsstr) :=
  match ps with
  | [] => Some (prev, s)
  | p :: ps' =>
      match s with
      | c :: t => if p c then eat ps' (Some c) t else None
      | [] => None
      end
  end.

(** The code unit before the position reached after reading [pre]. *)
Definition prev_after (prev : option ascii) (pre : jsstr) : option ascii :=
  match rev pre with
  | [] => prev
  | c :: _ => Some c
  end.

(** Greedy repetition of a class: the longest run first, then shorter
    ones, until the continuation accepts. *)
Fixpoint take_greedy (p : ascii -> bool) (k : cont) (prev : option ascii)
  (s : jsstr) (cs : caps) : outcome :=
  match s with
  | c :: t =>
      if p c then
        match take_greedy p k (Some c) t cs with
        | Some x => Some x
        | None => k prev s cs
        end
      else k prev s cs
  | [] => k prev s cs
  end.

Definition is_some (A : Type) (o : option A) : bool :=
  match o with Some _ => true | None => false end.

(* ================================================================== *)
(** * Properties of the regular-expression matcher *)

Unset Implicit Arguments.

Lemma rmatch_seqs_cls ml ps : forall prev s cs k,
  rmatch ml (seqs (map Cls ps)) prev s cs k =
  match eat ps prev s with
  | Some (p', s') => k p' s' cs
  | None => None
  end.
Proof.
  induction ps as [|p ps IH]; intros prev s cs k.
  - reflexivity.
  - destruct ps as [|q ps'].
    + simpl. destruct s as [|c t]; [reflexivity|]. destruct (p c); reflexivity.
    + change (seqs (map Cls (p :: q :: ps'))) with (Seq (Cls p) (seqs (map Cls (q :: ps')))).
      cbn [rmatch eat]. destruct s as [|c t]; [reflexivity|].
      destruct (p c); [apply IH | reflexivity].
Qed.

Lemma word_i_cls w : word_i w = seqs (map Cls (map ci_eqb (lit w))).
Proof. unfold word_i, chr_i. now rewrite map_map. Qed.

Lemma eat_length ps : forall prev s p' s',
  eat ps prev s = Some (p', s') -> length s = length ps + length s'.
Proof.
  induction ps as [|p ps IH]; intros prev s p' s' H; simpl in *.
  - now inversion H.
  - destruct s as [|c t]; [discriminate|]. destruct (p c); [|discriminate].
    apply IH in H. simpl. lia.
Qed.

Lemma eat_spec ps : forall prev s,
  is_some (eat ps prev s) = true <->
  exists mid rest, s = mid ++ rest /\ Forall2 (fun p c => p c = true) ps mid.
Proof.
  induction ps as [|p ps IH]; intros prev s; simpl.
  - split; [intros _; exists [], s; split; [reflexivity|constructor] | reflexivity].
  - destruct s as [|c t].
    + split; [discriminate|]. intros (mid & rest & E & F). inversion F; subst. discriminate.
    + destruct (p c) eqn:Hp.
      * rewrite IH. split.
        -- intros (mid & rest & E & F). exists (c :: mid), rest. subst. split; [reflexivity|]. now constructor.
        -- intros (mid & rest & E & F). inversion F; subst. inversion E; subst. eauto.
      * split; [discriminate|]. intros (mid & rest & E & F). inversion F; subst. inversion E; subst. congruence.
Qed.
Lemma prev_after_nil prev : prev_after prev [] = prev.
Proof. reflexivity. Qed.

Lemma prev_after_cons prev c pre : prev_after prev (c :: pre) = prev_after (Some c) pre.
Proof.
  unfold prev_after. simpl. destruct (rev pre) as [|x l] eqn:E; simpl.
  - reflexivity.
  - reflexivity.
Qed.

(** A search fails exactly when the matcher fails at every position. *)
Lemma search_from_none ml r : forall s prev,
  search_from ml r prev s = None <->
  forall pre post, s = pre ++ post -> exec_at ml r (prev_after prev pre) post = None.
Proof.
  induction s as [|c t IH]; intros prev; simpl.
  - destruct (exec_at ml r prev []) as [[cs n]|] eqn:E.
    + split; [discriminate|]. intros H. specialize (H [] [] eq_refl).
      rewrite prev_after_nil in H. congruence.
    + split; [|reflexivity]. intros _ pre post H.
      destruct pre; [|discriminate]. simpl in H. subst. now rewrite prev_after_nil.
  - destruct (exec_at ml r prev (c :: t)) as [[cs n]|] eqn:E.
    + split; [discriminate|]. intros H. specialize (H [] (c :: t) eq_refl).
      rewrite prev_after_nil in H. congruence.
    + destruct (search_from ml r (Some c) t) as [f|] eqn:S.
      * split; [discriminate|]. intros H.
        assert (N : search_from ml r (Some c) t = None).
        { apply IH. intros pre post Hs. specialize (H (c :: pre) post).
          rewrite prev_after_cons in H. apply H. simpl. now rewrite Hs. }
        congruence.
      * split; [|reflexivity]. intros _ pre post Hs.
        destruct pre as [|x pre].
        -- simpl in Hs. subst. now rewrite prev_after_nil.
        -- simpl in Hs. inversion Hs; subst. rewrite prev_after_cons.
           apply (proj1 (IH (Some x)) S). reflexivity.
Qed.

Lemma js_test_true ml r s :
  js_test ml r s = true <->
  exists pre post, s = pre ++ post /\ is_some (exec_at ml r (prev_after None pre) post) = true.
Proof.
  unfold js_test, js_match.
  destruct (search_from ml r None s) as [f|] eqn:E.
  - split; [intros _|reflexivity].
    destruct (search_from_none ml r s None) as [_ H].
    assert (N : ~ forall pre post, s = pre ++ post -> exec_at ml r (prev_after None pre) post = None).
    { intros A. apply H in A. congruence. }
    clear H E f. revert N. generalize (@None ascii) as prev. 
    induction s as [|c t IH]; intros prev N.
    + exists [], []. split; [reflexivity|].
      destruct (exec_at ml r (prev_after prev []) []) eqn:E; [reflexivity|].
      exfalso. apply N. intros pre post H. destruct pre; [|discriminate]. simpl in H. now subst.
    + destruct (exec_at ml r (prev_after prev []) (c :: t)) eqn:E.
      * exists [], (c :: t). split; [reflexivity|]. now rewrite E.
      * destruct (IH (Some c)) as (pre & post & Hs & Hm).
        { intros A. apply N. intros pre post H. destruct pre as [|x pre].
          - simpl in H. now subst.
          - simpl in H. inversion H; subst. rewrite prev_after_cons. now apply A. }
        exists (c :: pre), post. split; [simpl; now rewrite Hs|].
        now rewrite prev_after_cons.
  - split; [discriminate|]. intros (pre & post & Hs & Hm).
    rewrite (proj1 (search_from_none ml r s None) E pre post Hs) in Hm. discriminate.
Qed.
Lemma exec_word_i ml w prev s :
  exec_at ml (word_i w) prev s =
  match eat (map ci_eqb (lit w)) prev s with
  | Some (_, s') => Some ([], length s')
  | None => None
  end.
Proof.
  unfold exec_at. rewrite word_i_cls, rmatch_seqs_cls.
  destruct (eat _ prev s) as [[p' s']|]; reflexivity.
Qed.

Lemma Forall2_map_pred (ps : list ascii) (mid : jsstr) :
  Forall2 (fun p c => p c = true) (map ci_eqb ps) mid <-> same_word_ci ps mid.
Proof.
  unfold same_word_ci. revert mid. induction ps as [|p ps IH]; intros mid; simpl.
  - split; intros H; inversion H; constructor.
  - split; intros H; inversion H; subst; constructor; auto; now apply IH.
Qed.

(** A literal pattern with the [i] flag matches somewhere exactly when
    the word occurs up to letter case. *)
Lemma test_word_i w s : js_test false (word_i w) s = true <-> contains_ci w s.
Proof.
  rewrite js_test_true. unfold contains_ci. split.
  - intros (pre & post & Hs & Hm). rewrite exec_word_i in Hm.
    assert (E : is_some (eat (map ci_eqb (lit w)) (prev_after None pre) post) = true).
    { destruct (eat _ _ post) as [[? ?]|]; [reflexivity|discriminate]. }
    apply eat_spec in E. destruct E as (mid & rest & Hp & F).
    exists pre, mid, rest. subst. split; [reflexivity|]. now apply Forall2_map_pred.
  - intros (pre & mid & post & Hs & F). exists pre, (mid ++ post). split; [assumption|].
    rewrite exec_word_i.
    assert (E : is_some (eat (map ci_eqb (lit w)) (prev_after None pre) (mid ++ post)) = true).
    { apply eat_spec. exists mid, post. split; [reflexivity|]. now apply Forall2_map_pred. }
    destruct (eat _ _ (mid ++ post)) as [[? ?]|]; [reflexivity|discriminate].
Qed.

Lemma test_alt ml a b s :
  js_test ml (Alt a b) s = true <-> js_test ml a s = true \/ js_test ml b s = true.
Proof.
  rewrite !js_test_true. split.
  - intros (pre & post & Hs & Hm). unfold exec_at in Hm. cbn [rmatch] in Hm.
    destruct (rmatch ml a (prev_after None pre) post [] _) eqn:Ea.
    + left. exists pre, post. split; [assumption|]. unfold exec_at. now rewrite Ea.
    + right. exists pre, post. split; [assumption|]. exact Hm.
  - intros [(pre & post & Hs & Hm)|(pre & post & Hs & Hm)]; exists pre, post; (split; [assumption|]);
      unfold exec_at in *; cbn [rmatch].
    + destruct (rmatch ml a _ post [] _); [reflexivity|discriminate].
    + destruct (rmatch ml a _ post [] _); [reflexivity|exact Hm].
Qed.

Lemma test_alts3 a b c s :
  js_test false (alts [word_i a; word_i b; word_i c]) s = true <-> contains_any_ci [a; b; c] s.
Proof.
  change (alts [word_i a; word_i b; word_i c]) with (Alt (word_i a) (Alt (word_i b) (word_i c))).
  rewrite !test_alt, !test_word_i. unfold contains_any_ci. split.
  - intros [H|[H|H]]; eexists; (split; [|exact H]); simpl; auto.
  - intros (w & [Hw|[Hw|[Hw|[]]]] & H); subst; auto.
Qed.

Lemma test_alts2 a b s :
  js_test false (alts [word_i a; word_i b]) s = true <-> contains_any_ci [a; b] s.
Proof.
  change (alts [word_i a; word_i b]) with (Alt (word_i a) (word_i b)).
  rewrite !test_alt, !test_word_i. unfold contains_any_ci. split.
  - intros [H|H]; eexists; (split; [|exact H]); simpl; auto.
  - intros (w & [Hw|[Hw|[]]] & H); subst; auto.
Qed.

Lemma not_true_iff (b : bool) (P : Prop) : (b = true <-> P) -> b = false -> ~ P.
Proof. intros H E HP. apply H in HP. congruence. Qed.

Lemma importance_values s :
  let i := extractImportanceFromSubject s in
  (i = 9 \/ i = 7 \/ i = 3 \/ i = 5)%Z.
Proof.
  unfold extractImportanceFromSubject.
  destruct (js_test false urgentRegex s); [auto|].
  destruct (js_test false highRegex s); [auto|].
  destruct (js_test false lowRegex s); auto.
Qed.

Lemma parse_ok_inv tza now email t :
  parseEmailToTask tza now email = Ok t ->
  let rawSubject := sanitizeSubject (VStr (subject email)) in
  let cleanSubject := cleanSubjectOf rawSubject in
  title t = cleanSubject /\
  importance t = clampImportance (extractImportanceFromSubject cleanSubject) /\
  dueDate t = extractDueDateFromSubject tza now cleanSubject /\
  description t =
    str_or (sanitizeTextContent
              (VStr (cleanEmailBody (str_or (opt_str (text email)) (opt_str (html email))))))
           placeholder /\
  originalSubject (emailSource t) = rawSubject /\
  area t = lit "inbox" /\
  (forall d, dueDate t = Some d -> exists tv, d = Instant tv).
Proof.
  unfold parseEmailToTask. cbv zeta.
  destruct (extractDueDateFromSubject tza now _) as [[|tv]|] eqn:E;
    cbv [bind toISOString]; intros H; try discriminate H;
    apply (f_equal (fun r => match r with Ok x => x | Throw _ => t end)) in H;
    cbv beta iota in H; rewrite <- H;
    cbn [title importance dueDate description emailSource originalSubject area];
    repeat split; try reflexivity.
  - intros d Hd. inversion Hd. eauto.
  - intros d Hd. discriminate.
Qed.

(** C1. The importance inferred from a subject is 9 when it contains
    urgent, asap or immediate (in any letter case), else 7 when it
    contains high or important, else 3 when it contains low or minor,
    else 5; and the importance of every task draft is the one inferred
    from its cleaned subject and lies between 1 and 10. *)
Theorem importance_inference :
  (forall s : jsstr,
     let i := extractImportanceFromSubject s in
     let urgent := contains_any_ci ["urgent"; "asap"; "immediate"]%string s in
     let high := contains_any_ci ["high"; "important"]%string s in
     let low := contains_any_ci ["low"; "minor"]%string s in
     (urgent /\ i = 9%Z) \/
     (~ urgent /\ high /\ i = 7%Z) \/
     (~ urgent /\ ~ high /\ low /\ i = 3%Z) \/
     (~ urgent /\ ~ high /\ ~ low /\ i = 5%Z)) /\
  (forall tza now email t,
     parseEmailToTask tza now email = Ok t ->
     importance t = extractImportanceFromSubject (title t) /\
     (1 <= importance t <= 10)%Z).
Proof.
  split.
  - intros s. cbv zeta. unfold extractImportanceFromSubject.
    destruct (js_test false urgentRegex s) eqn:U.
    { left. split; [now apply test_alts3|reflexivity]. }
    right. pose proof (not_true_iff _ _ (test_alts3 _ _ _ s) U) as NU.
    destruct (js_test false highRegex s) eqn:Hh.
    { left. repeat split; [exact NU|now apply test_alts2]. }
    right. pose proof (not_true_iff _ _ (test_alts2 _ _ s) Hh) as NH.
    destruct (js_test false lowRegex s) eqn:L.
    { left. repeat split; [exact NU|exact NH|now apply test_alts2]. }
    right. pose proof (not_true_iff _ _ (test_alts2 _ _ s) L) as NL.
    repeat split; assumption.
  - intros tza now email t H. apply parse_ok_inv in H. cbv zeta in H.
    destruct H as (Ht & Hi & _). rewrite Hi, Ht.
    pose proof (importance_values (cleanSubjectOf (sanitizeSubject (VStr (subject email))))) as V.
    cbv zeta in V. unfold clampImportance.
    destruct V as [V|[V|[V|V]]]; rewrite V;
      (split; [reflexivity | split; vm_compute; discriminate]).
Qed.
Lemma star_cls_cons ml p prev c t cs k :
  rmatch ml (Star true (Cls p)) prev (c :: t) cs k =
  if p c then
    match rmatch ml (Star true (Cls p)) (Some c) t cs k with
    | Some x => Some x
    | None => k prev (c :: t) cs
    end
  else k prev (c :: t) cs.
Proof.
  cbn [rmatch length]. destruct (p c); [|reflexivity].
  assert (L : (length t <? S (length t)) = true) by (apply Nat.ltb_lt; lia).
  rewrite L. reflexivity.
Qed.

Lemma star_cls_nil ml p prev cs k :
  rmatch ml (Star true (Cls p)) prev [] cs k = k prev [] cs.
Proof. reflexivity. Qed.

Lemma star_cls_greedy ml p k : forall s prev cs,
  rmatch ml (Star true (Cls p)) prev s cs k = take_greedy p k prev s cs.
Proof.
  induction s as [|c t IH]; intros prev cs.
  - now rewrite star_cls_nil.
  - rewrite star_cls_cons. cbn [take_greedy]. destruct (p c); [|reflexivity]. now rewrite IH.
Qed.

(** A greedy class repetition in front of an accepting continuation
    takes the whole run. *)
Lemma take_greedy_run p k cs x : forall run prev rest,
  Forall (fun c => p c = true) run ->
  k (prev_after prev run) rest cs = Some x ->
  match rest with [] => True | c :: _ => p c = false end ->
  take_greedy p k prev (run ++ rest) cs = Some x.
Proof.
  induction run as [|c run IH]; intros prev rest F K R.
  - simpl. rewrite prev_after_nil in K. destruct rest as [|c t]; simpl; [exact K|].
    now rewrite R.
  - inversion F; subst. simpl. rewrite H1. rewrite prev_after_cons in K.
    now rewrite (IH (Some c) rest H2 K R).
Qed.

Lemma skipn_app_tail (A : Type) (a b : list A) :
  skipn (length (a ++ b) - length b) (a ++ b) = b.
Proof.
  rewrite length_app. replace (length a + length b - length b) with (length a) by lia.
  rewrite skipn_app, Nat.sub_diag, skipn_all. reflexivity.
Qed.

Lemma ci_eqb_canon p c : ci_eqb p c = true -> canon c = canon p.
Proof. unfold ci_eqb, ascii_eqb. intros H. apply Ascii.eqb_eq in H. congruence. Qed.

Lemma ascii_eqb_canon_false q c : canon c <> canon q -> ascii_eqb q c = false.
Proof.
  unfold ascii_eqb. intros H. destruct (Ascii.eqb q c) eqn:E; [|reflexivity].
  apply Ascii.eqb_eq in E. subst. congruence.
Qed.
Lemma r_seq ml a b prev s cs k :
  rmatch ml (Seq a b) prev s cs k =
  rmatch ml a prev s cs (fun p' s' cs' => rmatch ml b p' s' cs' k).
Proof. reflexivity. Qed.

Lemma r_alt ml a b prev s cs k :
  rmatch ml (Alt a b) prev s cs k =
  match rmatch ml a prev s cs k with
  | Some x => Some x
  | None => rmatch ml b prev s cs k
  end.
Proof. reflexivity. Qed.

Lemma r_grp ml i a prev s cs k :
  rmatch ml (Grp i a) prev s cs k =
  rmatch ml a prev s cs
    (fun p' s' cs' => k p' s' ((i, firstn (length s - length s') s) :: cs')).
Proof. reflexivity. Qed.

Lemma r_bol ml prev s cs k :
  rmatch ml Bol prev s cs k = if at_bol ml prev then k prev s cs else None.
Proof. reflexivity. Qed.

Lemma r_eol ml prev s cs k :
  rmatch ml Eol prev s cs k = if at_eol ml s then k prev s cs else None.
Proof. reflexivity. Qed.

Lemma r_cls ml p prev s cs k :
  rmatch ml (Cls p) prev s cs k =
  match s with
  | c :: t => if p c then k (Some c) t cs else None
  | [] => None
  end.
Proof. reflexivity. Qed.

Lemma r_eps ml prev s cs k : rmatch ml Eps prev s cs k = k prev s cs.
Proof. reflexivity. Qed.

Lemma ci_eqb_canon_as p c P : canon p = P -> ci_eqb p c = true -> canon c = P.
Proof. intros <- H. now apply ci_eqb_canon. Qed.

Lemma ci_eqb_by_canon q c P : canon c = P -> ci_eqb q c = ascii_eqb (canon q) P.
Proof. intros <-. reflexivity. Qed.

Lemma ascii_eqb_by_canon q c P :
  canon c = P -> ascii_eqb (canon q) P = false -> ascii_eqb q c = false.
Proof.
  intros <- H. apply ascii_eqb_canon_false. intros E. rewrite E in H.
  unfold ascii_eqb in H. now rewrite Ascii.eqb_refl in H.
Qed.

(** Turn the hypotheses [ci_eqb p c = true] into [canon c = P]. *)
Ltac canon_hyps :=
  repeat match goal with
  | H : ci_eqb ?p ?c = true |- _ =>
      let P := eval vm_compute in (canon p) in
      apply (ci_eqb_canon_as p c P eq_refl) in H
  end.

(** Decide the tests on code units whose canonical form is known. *)
Ltac canon_tests :=
  repeat match goal with
  | H : canon ?c = ?P |- context [ci_eqb ?q ?c] =>
      rewrite (ci_eqb_by_canon q c P H);
      let b := eval vm_compute in (ascii_eqb (canon q) P) in
      change (ascii_eqb (canon q) P) with b
  | H : canon ?c = ?P |- context [ascii_eqb ?q ?c] =>
      rewrite (ascii_eqb_by_canon q c P H eq_refl)
  end.

Lemma colon_fails ml X prev c t cs k :
  ascii_eqb ":" c = false ->
  rmatch ml (Seq (chr ":") X) prev (c :: t) cs k = None.
Proof. intros H. rewrite r_seq. unfold chr. rewrite r_cls. now rewrite H. Qed.

Lemma exec_prefix_marker m sp rest :
  is_reply_marker m ->
  Forall (fun c => is_space c = true) sp ->
  no_leading_space rest ->
  exists cs,
    exec_at false prefixRegex None (m ++ ":"%char :: sp ++ rest) = Some (cs, length rest).
Proof.
  intros (w & Hw & F) Fsp Hrest.
  assert (G : forall prev cs,
             rmatch false (Seq (chr ":") (Star true ws)) prev (":"%char :: sp ++ rest) cs
               (fun _ s' cs' => Some (cs', length s')) = Some (cs, length rest)).
  { intros prev cs. rewrite r_seq. unfold chr at 1. rewrite r_cls.
    change (ascii_eqb ":" ":") with true. cbv iota beta.
    unfold ws. rewrite star_cls_greedy.
    apply take_greedy_run; [exact Fsp|reflexivity|].
    destruct rest; [exact I|exact Hrest]. }
  unfold exec_at, prefixRegex, reply_markers in *.
  cbn [seqs alts]. rewrite r_seq, r_bol. cbn [at_bol]. rewrite r_seq, r_grp.
  rewrite !r_alt, !word_i_cls, !rmatch_seqs_cls.
  cbn [map lit list_ascii_of_string].
  destruct Hw as [<-|[<-|[<-|[<-|[<-|[]]]]]];
    cbn [lit list_ascii_of_string] in F; unfold same_word_ci in F;
    repeat match goal with
    | H : Forall2 _ (_ :: _) _ |- _ => inversion H; clear H; subst
    | H : Forall2 _ [] _ |- _ => inversion H; clear H; subst
    end;
    canon_hyps; eexists;
    repeat (cbn [app eat]; canon_tests; cbv iota beta);
    repeat match goal with
    | |- context [rmatch false (Seq (chr ":") (Star true ws)) ?p (":"%char :: ?t) ?cs _] =>
        rewrite (G p cs)
    | H : canon ?c = ?P
      |- context [rmatch false (Seq (chr ":") (Star true ws)) ?p (?c :: ?t) ?cs ?k] =>
        rewrite (colon_fails false (Star true ws) p c t cs k
                   (ascii_eqb_by_canon ":"%char c P H eq_refl))
    end;
    reflexivity.
Qed.

Lemma search_from_here ml r prev s cs n :
  exec_at ml r prev s = Some (cs, n) ->
  search_from ml r prev s =
  Some (Found [] (firstn (length s - n) s) (skipn (length s - n) s) cs).
Proof. intros H. destruct s; cbn [search_from]; rewrite H; reflexivity. Qed.

Lemma replace_first_marker m sp rest :
  is_reply_marker m ->
  Forall (fun c => is_space c = true) sp ->
  no_leading_space rest ->
  replace_first false prefixRegex [] (m ++ ":"%char :: sp ++ rest) = rest.
Proof.
  intros Hm Hsp Hrest.
  destruct (exec_prefix_marker m sp rest Hm Hsp Hrest) as (cs & E).
  unfold replace_first, js_match.
  rewrite (search_from_here _ _ _ _ _ _ E). cbn [f_before f_after app].
  replace (m ++ ":"%char :: sp ++ rest) with ((m ++ ":"%char :: sp) ++ rest)
    by (rewrite <- app_assoc; reflexivity).
  apply skipn_app_tail.
Qed.

Lemma cleanSubjectOf_nonempty raw : cleanSubjectOf raw <> [].
Proof.
  unfold cleanSubjectOf, str_or.
  destruct (trim (replace_first false prefixRegex [] raw)); discriminate.
Qed.

Lemma sample_title :
  cleanSubjectOf (sanitizeSubject (VStr (lit "Fwd: Fwd: Meeting"))) = lit "Fwd: Meeting".
Proof. vm_compute. reflexivity. Qed.

Lemma sample_title_no_due tza now :
  extractDueDateFromSubject tza now (lit "Fwd: Meeting") = None.
Proof.
  unfold extractDueDateFromSubject.
  replace (js_match false dueRegex (lit "Fwd: Meeting")) with (@None found)
    by (vm_compute; reflexivity).
  replace (js_match false tomorrowRegex (lit "Fwd: Meeting")) with (@None found)
    by (vm_compute; reflexivity).
  replace (js_match false nextWeekRegex (lit "Fwd: Meeting")) with (@None found)
    by (vm_compute; reflexivity).
  reflexivity.
Qed.

(** C5. Title cleaning removes one leading reply or forward marker and
    no more: the subject Fwd: Fwd: Meeting gives the title Fwd: Meeting;
    in general a marker (Fwd, Re, Fw, Forward, Reply in any letter case),
    its colon and the white space after it are removed and what follows
    is kept even when it starts with another marker; and a title that
    would be empty is the default Email Task. *)
Theorem title_cleaning_single_pass :
  (forall tza now email,
     subject email = lit "Fwd: Fwd: Meeting" ->
     exists t, parseEmailToTask tza now email = Ok t /\ title t = lit "Fwd: Meeting") /\
  (forall m sp rest,
     is_reply_marker m ->
     Forall (fun c => is_space c = true) sp ->
     no_leading_space rest ->
     cleanSubjectOf (m ++ ":"%char :: sp ++ rest) = str_or (trim rest) (lit "Email Task")) /\
  (forall raw,
     trim (replace_first false prefixRegex [] raw) = [] ->
     cleanSubjectOf raw = lit "Email Task") /\
  (forall tza now email t,
     parseEmailToTask tza now email = Ok t ->
     title t = cleanSubjectOf (sanitizeSubject (VStr (subject email))) /\ title t <> []).
Proof.
  repeat split.
  - intros tza now email Hs. unfold parseEmailToTask. cbv zeta.
    rewrite Hs, sample_title, sample_title_no_due. cbv [bind]. eexists. split; reflexivity.
  - intros m sp rest Hm Hsp Hrest. unfold cleanSubjectOf.
    now rewrite replace_first_marker.
  - intros raw H. unfold cleanSubjectOf. now rewrite H.
  - apply parse_ok_inv in H. cbv zeta in H. tauto.
  - apply parse_ok_inv in H. cbv zeta in H. destruct H as (H & _). rewrite H.
    apply cleanSubjectOf_nonempty.
Qed.

Lemma title_cleaning_single_pass_witness :
  cleanSubjectOf (lit "RE:  Fwd: Budget") = lit "Fwd: Budget".
Proof.
  apply (proj1 (proj2 title_cleaning_single_pass) (lit "RE") (lit "  ") (lit "Fwd: Budget")).
  - exists "Re"%string. split; [simpl; auto|]. repeat constructor.
  - repeat constructor.
  - reflexivity.
Defined.
Lemma importance_inference_witness :
  match parseEmailToTask utc_zone 0 (sample_email "URGENT: Server down - fix immediately") with
  | Ok t => importance t = extractImportanceFromSubject (title t) /\
            (1 <= importance t <= 10)%Z
  | Throw _ => False
  end.
Proof.
  destruct (parseEmailToTask utc_zone 0 (sample_email "URGENT: Server down - fix immediately"))
    as [t|e] eqn:E.
  - exact (proj2 importance_inference utc_zone 0%Z _ t E).
  - vm_compute in E. discriminate.
Defined.

Local Open Scope Z_scope.

Lemma month_range t : 0 <= MonthFromTime t <= 11.
Proof.
  unfold MonthFromTime. cbv zeta.
  repeat match goal with |- context [if ?b then _ else _] => destruct b end; lia.
Qed.

Lemma div_mod_day t : Day t * msPerDay + TimeWithinDay t = t.
Proof.
  unfold Day, TimeWithinDay, msPerDay.
  pose proof (Z.div_mod t 86400000 ltac:(lia)). lia.
Qed.

(** Setting the day of the month to the current one plus [k] moves the
    local time by [k] days; the new time value is that local time read
    in the zone. *)
Lemma setDate_plus tza now k :
  setDate tza (Instant now) (option_map (Z.add k) (getDate tza (Instant now))) =
  TimeClip (UTC tza (LocalTime tza now + k * msPerDay)).
Proof.
  unfold setDate, getDate, option_map. f_equal. f_equal.
  set (t := LocalTime tza now).
  unfold MakeDay. pose proof (month_range t) as M.
  rewrite (Z.div_small (MonthFromTime t) 12) by lia.
  rewrite (Z.mod_small (MonthFromTime t) 12) by lia.
  rewrite Z.add_0_r. unfold DateFromTime, DayWithinYear, MakeDate.
  pose proof (div_mod_day t) as D. lia.
Qed.




Lemma TimeClip_valid t d : TimeClip t = d -> d <> InvalidDate -> valid_date d.
Proof.
  unfold TimeClip. destruct (maxTime <? Z.abs t) eqn:E; intros <- H; [congruence|].
  simpl. apply Z.ltb_ge in E. exact E.
Qed.

Local Close Scope Z_scope.

Lemma take_greedy_sound p k cs x : forall s prev,
  take_greedy p k prev s cs = Some x ->
  exists run rest,
    s = run ++ rest /\ Forall (fun c => p c = true) run /\
    k (prev_after prev run) rest cs = Some x.
Proof.
  induction s as [|c t IH]; intros prev H; simpl in H.
  - exists [], []. repeat split; [constructor|exact H].
  - destruct (p c) eqn:Hp.
    + destruct (take_greedy p k (Some c) t cs) as [y|] eqn:E.
      * injection H as ->. destruct (IH (Some c) E) as (run & rest & Hs & F & K).
        exists (c :: run), rest. subst t. repeat split.
        -- now constructor.
        -- now rewrite prev_after_cons.
      * exists [], (c :: t). repeat split; [constructor|exact H].
    + exists [], (c :: t). repeat split; [constructor|exact H].
Qed.

Lemma take_greedy_complete p k cs : forall run prev rest,
  Forall (fun c => p c = true) run ->
  is_some (k (prev_after prev run) rest cs) = true ->
  is_some (take_greedy p k prev (run ++ rest) cs) = true.
Proof.
  induction run as [|c run IH]; intros prev rest F K.
  - rewrite prev_after_nil in K. simpl. destruct rest as [|c t]; simpl; [exact K|].
    destruct (p c); [|exact K].
    destruct (take_greedy p k (Some c) t cs); [reflexivity|exact K].
  - inversion F; subst. simpl. rewrite H1. rewrite prev_after_cons in K.
    specialize (IH (Some c) rest H2 K).
    destruct (take_greedy p k (Some c) (run ++ rest) cs); [reflexivity|discriminate].
Qed.

Lemma is_some_true (A : Type) (o : option A) : is_some o = true <-> exists x, o = Some x.
Proof.
  destruct o; simpl; split.
  - eauto.
  - reflexivity.
  - discriminate.
  - intros [x H]. discriminate.
Qed.





Local Open Scope Z_scope.

Lemma js_test_false_match ml r s : js_test ml r s = false -> js_match ml r s = None.
Proof. unfold js_test. destruct (js_match ml r s); [discriminate|reflexivity]. Qed.





Lemma due_date_cases tza now s :
  extractDueDateFromSubject tza now s =
  match js_match false dueRegex s with
  | Some m => Some (Date_of_string tza (group 1 m))
  | None =>
      if js_test false tomorrowRegex s
      then Some (TimeClip (UTC tza (LocalTime tza now + 1 * msPerDay)))
      else if js_test false nextWeekRegex s
      then Some (TimeClip (UTC tza (LocalTime tza now + 7 * msPerDay)))
      else None
  end.
Proof.
  unfold extractDueDateFromSubject, js_test.
  destruct (js_match false dueRegex s); [reflexivity|].
  destruct (js_match false tomorrowRegex s); [now rewrite setDate_plus|].
  destruct (js_match false nextWeekRegex s); [now rewrite setDate_plus|].
  reflexivity.
Qed.



Lemma extract_due_valid tza now s d :
  extractDueDateFromSubject tza now s = Some d -> d <> InvalidDate -> valid_date d.
Proof.
  rewrite due_date_cases. intros H N.
  destruct (js_match false dueRegex s) as [m|].
  - injection H as <-. unfold Date_of_string in *.
    repeat match goal with
    | |- context [match ?x with _ => _ end] => destruct x; try congruence
    end; eapply TimeClip_valid; try reflexivity; exact N.
  - destruct (js_test false tomorrowRegex s).
    { injection H as <-. eapply TimeClip_valid; [reflexivity|exact N]. }
    destruct (js_test false nextWeekRegex s); [|discriminate].
    injection H as <-. eapply TimeClip_valid; [reflexivity|exact N].
Qed.

Lemma parse_throws_on_invalid_date tza now email :
  extractDueDateFromSubject tza now
    (cleanSubjectOf (sanitizeSubject (VStr (subject email)))) = Some InvalidDate ->
  parseEmailToTask tza now email = Throw (JsError RangeError (lit "Invalid time value")).
Proof. unfold parseEmailToTask. cbv zeta. intros ->. reflexivity. Qed.

(** C4. A due date carried by a task draft is a valid date. For a
    subject whose explicit due marker denotes no date (month 13, day 45)
    the Date built from it is invalid, the logging call of
    [parseEmailToTask] throws a RangeError on it, and no task draft is
    produced. *)
Theorem due_date_of_draft_is_valid :
  (forall tza now email t d,
     parseEmailToTask tza now email = Ok t -> dueDate t = Some d -> valid_date d) /\
  (forall tza now email m,
     js_match false dueRegex (cleanSubjectOf (sanitizeSubject (VStr (subject email)))) = Some m ->
     Date_of_string tza (group 1 m) = InvalidDate ->
     parseEmailToTask tza now email =
       Throw (JsError RangeError (lit "Invalid time value"))) /\
  (forall tza now,
     extractDueDateFromSubject tza now (lit "Report due: 2024-13-45") = Some InvalidDate /\
     parseEmailToTask tza now (sample_email "Report due: 2024-13-45") =
       Throw (JsError RangeError (lit "Invalid time value"))).
Proof.
  split; [|split].
  - intros tza now email t d H Hd. pose proof (parse_ok_inv _ _ _ _ H) as I.
    cbv zeta in I. destruct I as (_ & _ & Hx & _ & _ & _ & V).
    destruct (V d Hd) as (tv & ->).
    rewrite Hx in Hd. apply (extract_due_valid _ _ _ _ Hd). discriminate.
  - intros tza now email m Hm Hi. apply parse_throws_on_invalid_date.
    rewrite due_date_cases, Hm, Hi. reflexivity.
  - intros tza now.
    assert (D : extractDueDateFromSubject tza now (lit "Report due: 2024-13-45")
                = Some InvalidDate).
    { rewrite due_date_cases.
      replace (js_match false dueRegex (lit "Report due: 2024-13-45"))
        with (Some (Found (lit "Report ") (lit "due: 2024-13-45") []
                      [(1%nat, lit "2024-13-45")]))
        by (vm_compute; reflexivity).
      reflexivity. }
    split; [exact D|].
    apply parse_throws_on_invalid_date.
    replace (cleanSubjectOf (sanitizeSubject (VStr (subject (sample_email "Report due: 2024-13-45")))))
      with (lit "Report due: 2024-13-45") by (vm_compute; reflexivity).
    exact D.
Qed.

Lemma due_date_of_draft_is_valid_witness :
  match parseEmailToTask utc_zone 1762128000000 (sample_email "Invoice due: 2024-01-15") with
  | Ok t => dueDate t = Some (Instant 1705276800000) /\ valid_date (Instant 1705276800000)
  | Throw _ => False
  end.
Proof.
  destruct (parseEmailToTask utc_zone 1762128000000 (sample_email "Invoice due: 2024-01-15"))
    as [t|e] eqn:E.
  - assert (D : dueDate t = Some (Instant 1705276800000)).
    { vm_compute in E. injection E as <-. reflexivity. }
    split; [exact D|].
    exact (proj1 due_date_of_draft_is_valid utc_zone 1762128000000 _ t _ E D).
  - vm_compute in E. discriminate.
Defined.

Local Close Scope Z_scope.

(** A global replacement is made of code units of the input and of the
    replacement text. *)
Lemma replace_go_Forall (P : ascii -> Prop) ml r rep :
  Forall P rep ->
  forall s prev skip, Forall P s -> Forall P (replace_go ml r rep prev s skip).
Proof.
  intros Hrep. induction s as [|c t IH]; intros prev skip Hs.
  - destruct skip; cbn [replace_go]; [|constructor].
    destruct (exec_at ml r prev []) as [[cs n]|]; [|constructor].
    rewrite app_nil_r. exact Hrep.
  - inversion Hs; subst. destruct skip as [|k]; cbn [replace_go].
    + destruct (exec_at ml r prev (c :: t)) as [[cs n]|].
      * apply Forall_app. split; [exact Hrep|].
        destruct (length (c :: t) - n); [constructor|]; auto.
      * constructor; auto.
    + auto.
Qed.

Lemma replace_all_Forall (P : ascii -> Prop) ml r rep s :
  Forall P rep -> Forall P s -> Forall P (replace_all ml r rep s).
Proof. intros. now apply replace_go_Forall. Qed.

(** Removing a class globally is filtering. *)
Lemma replace_all_cls ml p s :
  replace_all ml (Cls p) [] s = filter (fun c => negb (p c)) s.
Proof.
  unfold replace_all. generalize (@None ascii) as prev.
  induction s as [|c t IH]; intros prev.
  - reflexivity.
  - cbn [replace_go filter]. unfold exec_at. rewrite r_cls.
    destruct (p c) eqn:Hp; cbn [negb app].
    + replace (length (c :: t) - length t) with 1 by (cbn [length]; lia).
      apply IH.
    + f_equal. apply IH.
Qed.

Lemma drop_while_Forall (P : ascii -> Prop) p s : Forall P s -> Forall P (drop_while p s).
Proof.
  induction s as [|c t IH]; intros H; simpl; [constructor|].
  destruct (p c); [inversion H; auto|exact H].
Qed.

Lemma trim_Forall (P : ascii -> Prop) s : Forall P s -> Forall P (trim s).
Proof.
  intros H. unfold trim. apply Forall_rev, drop_while_Forall, Forall_rev, drop_while_Forall, H.
Qed.

Lemma firstn_Forall (A : Type) (P : A -> Prop) n : forall l, Forall P l -> Forall P (firstn n l).
Proof.
  induction n as [|n IH]; intros l H; [constructor|].
  destruct l; [constructor|]. inversion H; subst. simpl. constructor; auto.
Qed.

Lemma filter_not_control s :
  Forall (fun c => is_control c = false) (filter (fun c => negb (is_control c)) s).
Proof.
  induction s as [|c t IH]; simpl; [constructor|].
  destruct (is_control c) eqn:E; simpl; [exact IH|]. constructor; assumption.
Qed.

Lemma sanitizeTextContent_str s :
  sanitizeTextContent (VStr s) =
  substring0 5000
    (trim
       (replace_all false (amp "#39;") (lit "'")
          (replace_all false (amp "gt;") (lit ">")
             (replace_all false (amp "lt;") (lit "<")
                (replace_all false (amp "amp;") (lit "&")
                   (replace_all false (amp "quot;") [dquote]
                      (filter (fun c => negb (is_control c))
                         (filter (fun c => negb (existsb (ascii_eqb c) (lit "<>"))) s)))))))).
Proof.
  destruct s as [|c t]; [vm_compute; reflexivity|].
  unfold sanitizeTextContent. cbv zeta.
  unfold angle_brackets, control_chars, one_of. now rewrite !replace_all_cls.
Qed.

Lemma sanitizeTextContent_not_string v :
  typeof_string v = false -> sanitizeTextContent v = [].
Proof. destruct v; try reflexivity. discriminate. Qed.

Lemma sanitized_no_control v :
  Forall (fun c => is_control c = false) (sanitizeTextContent v).
Proof.
  destruct v; try (unfold sanitizeTextContent; constructor).
  rewrite sanitizeTextContent_str. unfold substring0.
  apply firstn_Forall, trim_Forall.
  repeat (apply replace_all_Forall; [repeat constructor|]).
  apply filter_not_control.
Qed.

Lemma sanitized_length v : length (sanitizeTextContent v) <= 5000.
Proof.
  destruct v; try (unfold sanitizeTextContent; cbn [length]; lia).
  rewrite sanitizeTextContent_str. unfold substring0. apply firstn_le_length.
Qed.

Lemma sanitized_drops_control a b c :
  is_control c = true ->
  sanitizeTextContent (VStr (a ++ c :: b)) = sanitizeTextContent (VStr (a ++ b)).
Proof.
  intros Hc. rewrite !sanitizeTextContent_str.
  assert (K : filter (fun c => negb (is_control c))
                (filter (fun c => negb (existsb (ascii_eqb c) (lit "<>"))) (a ++ c :: b)) =
              filter (fun c => negb (is_control c))
                (filter (fun c => negb (existsb (ascii_eqb c) (lit "<>"))) (a ++ b))).
  { rewrite !filter_app. cbn [filter].
    destruct (negb (existsb (ascii_eqb c) (lit "<>"))).
    - cbn [filter]. now rewrite Hc.
    - reflexivity. }
  now rewrite K.
Qed.

Lemma placeholder_facts :
  Forall (fun c => is_control c = false) placeholder /\ length placeholder = 23.
Proof. split; [repeat constructor|reflexivity]. Qed.

Lemma clean_empty_body : cleanEmailBody [] = placeholder.
Proof. vm_compute. reflexivity. Qed.

Lemma sanitize_placeholder : sanitizeTextContent (VStr placeholder) = placeholder.
Proof. vm_compute. reflexivity. Qed.

(** C8. With neither a text nor an html body (absent or empty) the
    description of the task draft is the placeholder No description
    provided; and the draft is produced unless the due date inferred from
    the subject is an Invalid Date. *)
Theorem empty_body_gives_placeholder tza now email :
  opt_str (text email) = [] ->
  opt_str (html email) = [] ->
  (forall t, parseEmailToTask tza now email = Ok t ->
             description t = lit "No description provided") /\
  (extractDueDateFromSubject tza now
     (cleanSubjectOf (sanitizeSubject (VStr (subject email)))) <> Some InvalidDate ->
   exists t, parseEmailToTask tza now email = Ok t /\
             description t = lit "No description provided").
Proof.
  intros Ht Hh.
  assert (D : forall t, parseEmailToTask tza now email = Ok t ->
                        description t = lit "No description provided").
  { intros t H. apply parse_ok_inv in H. cbv zeta in H.
    destruct H as (_ & _ & _ & Hd & _). rewrite Hd, Ht, Hh. cbn [str_or].
    rewrite clean_empty_body, sanitize_placeholder. reflexivity. }
  split; [exact D|].
  intros N. destruct (parseEmailToTask tza now email) as [t|e] eqn:E.
  - exists t. split; [reflexivity|]. now apply D.
  - exfalso. apply N. revert E. unfold parseEmailToTask. cbv zeta.
    destruct (extractDueDateFromSubject tza now _) as [[|tv]|]; cbv [bind toISOString];
      intros E; try discriminate. reflexivity.
Qed.

Lemma empty_body_gives_placeholder_witness :
  exists t, parseEmailToTask utc_zone 0 (sample_email "Status") = Ok t /\
            description t = lit "No description provided".
Proof.
  apply (proj2 (empty_body_gives_placeholder utc_zone 0%Z (sample_email "Status")
                  eq_refl eq_refl)).
  vm_compute. discriminate.
Defined.

Lemma r_seq_assoc ml a b c prev s cs k :
  rmatch ml (Seq (Seq a b) c) prev s cs k = rmatch ml (Seq a (Seq b c)) prev s cs k.
Proof. reflexivity. Qed.

Lemma cls_step ml p X prev s cs k x :
  rmatch ml (Seq (Cls p) X) prev s cs k = Some x ->
  exists c t, s = c :: t /\ p c = true /\ rmatch ml X (Some c) t cs k = Some x.
Proof.
  rewrite r_seq, r_cls. destruct s as [|c t]; [discriminate|].
  destruct (p c) eqn:E; [|discriminate]. eauto.
Qed.

Lemma star_step ml p X prev s cs k x :
  rmatch ml (Seq (Star true (Cls p)) X) prev s cs k = Some x ->
  exists run rest,
    s = run ++ rest /\ Forall (fun c => p c = true) run /\
    rmatch ml X (prev_after prev run) rest cs k = Some x.
Proof. rewrite r_seq, star_cls_greedy. apply take_greedy_sound. Qed.

Lemma cls_step_ok ml p X prev c t cs k :
  p c = true ->
  rmatch ml (Seq (Cls p) X) prev (c :: t) cs k = rmatch ml X (Some c) t cs k.
Proof. intros H. rewrite r_seq, r_cls. now rewrite H. Qed.

Lemma star_step_ok ml p X prev run rest cs k x :
  Forall (fun c => p c = true) run ->
  match rest with [] => True | c :: _ => p c = false end ->
  rmatch ml X (prev_after prev run) rest cs k = Some x ->
  rmatch ml (Seq (Star true (Cls p)) X) prev (run ++ rest) cs k = Some x.
Proof.
  intros F R K. rewrite r_seq, star_cls_greedy. now apply take_greedy_run.
Qed.

Lemma prev_after_some prev pre : pre <> [] -> exists c, prev_after prev pre = Some c.
Proof.
  intros H. unfold prev_after. destruct (rev pre) eqn:E; [|eauto].
  apply (f_equal (@rev ascii)) in E. rewrite rev_involutive in E. simpl in E. congruence.
Qed.

(** A pattern that starts with [^] (without the [m] flag) matches at the
    start of the input or not at all. *)
Lemma test_anchored X s :
  js_test false (Seq Bol X) s = true <->
  is_some (rmatch false X None s [] (fun _ s' cs' => Some (cs', length s'))) = true.
Proof.
  rewrite js_test_true. split.
  - intros (pre & post & Hs & Hm). unfold exec_at in Hm. rewrite r_seq, r_bol in Hm.
    destruct pre as [|c pre].
    + simpl in Hs. subst. exact Hm.
    + destruct (prev_after_some None (c :: pre)) as (x & E); [discriminate|].
      rewrite E in Hm. discriminate.
  - intros H. exists [], s. split; [reflexivity|]. unfold exec_at. now rewrite r_seq, r_bol.
Qed.

Lemma match_anchored X s :
  js_match false (Seq Bol X) s =
  match rmatch false X None s [] (fun _ s' cs' => Some (cs', length s')) with
  | Some (cs, n) => Some (Found [] (firstn (length s - n) s) (skipn (length s - n) s) cs)
  | None => None
  end.
Proof.
  unfold js_match.
  destruct (rmatch false X None s [] _) as [[cs n]|] eqn:E.
  - apply search_from_here. unfold exec_at. now rewrite r_seq, r_bol.
  - apply search_from_none. intros pre post Hs. unfold exec_at. rewrite r_seq, r_bol.
    destruct pre as [|c pre].
    + simpl in Hs. subst. exact E.
    + destruct (prev_after_some None (c :: pre)) as (x & Ex); [discriminate|].
      now rewrite Ex.
Qed.

Lemma email_shape t :
  js_test false emailRegex t = true -> exists local, address_shape t local.
Proof.
  unfold emailRegex. cbn [seqs plus times].
  intros H. apply test_anchored in H. apply is_some_true in H. destruct H as (x & H).
  unfold plus in H. rewrite r_seq_assoc in H.
  apply cls_step in H. destruct H as (c & t1 & -> & Hc & H).
  apply star_step in H. destruct H as (run1 & rest1 & -> & F1 & H).
  unfold chr in H.
  apply cls_step in H. destruct H as (at' & t2 & -> & Hat & H).
  rewrite r_seq_assoc in H.
  apply cls_step in H. destruct H as (d & t3 & -> & Hd & H).
  apply star_step in H. destruct H as (run2 & rest2 & -> & F2 & H).
  apply cls_step in H. destruct H as (dt & t4 & -> & Hdt & H).
  rewrite r_seq_assoc in H.
  apply cls_step in H. destruct H as (a1 & t5 & -> & Ha1 & H).
  apply cls_step in H. destruct H as (a2 & t6 & -> & Ha2 & H).
  apply star_step in H. destruct H as (run3 & rest3 & -> & F3 & H).
  rewrite r_eol in H. destruct rest3 as [|z rest3]; [|discriminate].
  unfold ascii_eqb in Hat, Hdt. apply Ascii.eqb_eq in Hat, Hdt. subst at' dt.
  exists (c :: run1), c, run1, d, run2, a1, a2, run3. rewrite app_nil_r.
  repeat split; auto.
Qed.

Lemma firstn_app_tail (A : Type) (a b : list A) :
  firstn (length (a ++ b) - length b) (a ++ b) = a.
Proof.
  rewrite length_app. replace (length a + length b - length b) with (length a) by lia.
  rewrite firstn_app, Nat.sub_diag, firstn_all. simpl. apply app_nil_r.
Qed.

Lemma local_not_at c : local_class c = true -> negb (existsb (ascii_eqb c) (lit "@")) = true.
Proof. destruct c as [[] [] [] [] [] [] [] []]; vm_compute; congruence. Qed.

Lemma local_not_space c : local_class c = true -> is_space c = false.
Proof. destruct c as [[] [] [] [] [] [] [] []]; vm_compute; congruence. Qed.

Lemma domain_not_space c : domain_class c = true -> is_space c = false.
Proof. destruct c as [[] [] [] [] [] [] [] []]; vm_compute; congruence. Qed.

Lemma alpha_not_space c : is_alpha c = true -> is_space c = false.
Proof. destruct c as [[] [] [] [] [] [] [] []]; vm_compute; congruence. Qed.

Lemma lower_char_idem c : lower_char (lower_char c) = lower_char c.
Proof. destruct c as [[] [] [] [] [] [] [] []]; vm_compute; reflexivity. Qed.

Lemma lower_char_not_upper c : is_upper (lower_char c) = false.
Proof. destruct c as [[] [] [] [] [] [] [] []]; vm_compute; reflexivity. Qed.

(** The user-identifier pattern captures the local part of an address of
    that shape. *)
Lemma userId_of_shape t local :
  address_shape t local ->
  exists m, js_match false userIdRegex t = Some m /\ group 1 m = local.
Proof.
  intros (c & run1 & d & run2 & a1 & a2 & run3 & -> & -> & F1 & F2 & F3).
  unfold userIdRegex. cbn [seqs]. rewrite match_anchored.
  set (rest := "@"%char :: (d :: run2) ++ "."%char :: a1 :: a2 :: run3).
  assert (E : rmatch false (Seq (Grp 1 (plus (none_of "@"))) (chr "@")) None
                ((c :: run1) ++ rest) [] (fun _ s' cs' => Some (cs', length s'))
              = Some ([(1, c :: run1)], length ((d :: run2) ++ "."%char :: a1 :: a2 :: run3))).
  { rewrite r_seq, r_grp. unfold plus, none_of. inversion F1; subst.
    cbn [app]. rewrite r_seq, r_cls. rewrite (local_not_at c H1).
    rewrite star_cls_greedy.
    apply take_greedy_run.
    - eapply Forall_impl; [|exact H2]. intros a Ha. now apply local_not_at.
    - unfold chr. rewrite r_cls. unfold rest. change (ascii_eqb "@" "@") with true.
      cbv iota beta.
      change (c :: run1 ++ "@"%char :: (d :: run2) ++ "."%char :: a1 :: a2 :: run3)
        with ((c :: run1) ++ "@"%char :: (d :: run2) ++ "."%char :: a1 :: a2 :: run3).
      now rewrite firstn_app_tail.
    - reflexivity. }
  rewrite E. eexists. split; reflexivity.
Qed.

Lemma validate_inv v t :
  validateAndSanitizeEmail v = Some t ->
  exists e, v = VStr e /\ e <> [] /\ t = toLowerCase (trim e) /\
            js_test false emailRegex t = true /\ length t <= 254.
Proof.
  unfold validateAndSanitizeEmail. destruct v as [| | | |e| |]; try discriminate.
  destruct e as [|c e]; [discriminate|]. cbv zeta.
  destruct (js_test false emailRegex (toLowerCase (trim (c :: e)))) eqn:T; [|discriminate].
  cbn [negb]. destruct (254 <? length (toLowerCase (trim (c :: e)))) eqn:L; [discriminate|].
  intros H. injection H as <-. exists (c :: e). apply Nat.ltb_ge in L.
  repeat split; auto. discriminate.
Qed.

Lemma shape_no_space t local :
  address_shape t local -> Forall (fun c => is_space c = false) t.
Proof.
  intros (c & run1 & d & run2 & a1 & a2 & run3 & -> & _ & F1 & F2 & F3).
  apply Forall_app. split.
  { eapply Forall_impl; [|exact F1]. intros a. apply local_not_space. }
  constructor; [reflexivity|]. apply Forall_app. split.
  { eapply Forall_impl; [|exact F2]. intros a. apply domain_not_space. }
  constructor; [reflexivity|].
  eapply Forall_impl; [|exact F3]. intros a. apply alpha_not_space.
Qed.

Lemma drop_while_no_space s :
  Forall (fun c => is_space c = false) s -> drop_while is_space s = s.
Proof. destruct s as [|c t]; intros H; [reflexivity|]. inversion H; subst. simpl. now rewrite H2. Qed.

Lemma trim_no_space s : Forall (fun c => is_space c = false) s -> trim s = s.
Proof.
  intros H. unfold trim. rewrite (drop_while_no_space s H).
  rewrite drop_while_no_space by now apply Forall_rev. apply rev_involutive.
Qed.

Lemma toLowerCase_idem s : toLowerCase (toLowerCase s) = toLowerCase s.
Proof.
  unfold toLowerCase. rewrite map_map. apply map_ext. intros c. apply lower_char_idem.
Qed.

Lemma toLowerCase_not_upper s : Forall (fun c => is_upper c = false) (toLowerCase s).
Proof.
  unfold toLowerCase. apply Forall_forall. intros c Hc. apply in_map_iff in Hc.
  destruct Hc as (x & <- & _). apply lower_char_not_upper.
Qed.

(** A validated address validates again to itself. *)
Lemma validate_idem v t :
  validateAndSanitizeEmail v = Some t -> validateAndSanitizeEmail (VStr t) = Some t.
Proof.
  intros H. destruct (validate_inv v t H) as (e & -> & He & Ht & T & L).
  destruct (email_shape t T) as (local & Sh).
  pose proof (shape_no_space t local Sh) as NS.
  assert (Tr : toLowerCase (trim t) = t).
  { rewrite (trim_no_space t NS). rewrite Ht. apply toLowerCase_idem. }
  unfold validateAndSanitizeEmail. destruct t as [|c t'].
  - destruct Sh as (? & ? & ? & ? & ? & ? & ? & Hx & _). discriminate.
  - cbv zeta. rewrite Tr, T. cbn [negb].
    destruct (254 <? length (c :: t')) eqn:E; [|reflexivity].
    apply Nat.ltb_lt in E. lia.
Qed.

(** The identifier extracted from an address is the local part of the
    address in lower case. *)
Lemma extract_user_id_spec e id :
  extractUserIdFromEmail (VStr e) = Some id ->
  address_shape (toLowerCase (trim e)) id /\ Forall (fun c => is_upper c = false) id.
Proof.
  unfold extractUserIdFromEmail.
  destruct (validateAndSanitizeEmail (VStr e)) as [t|] eqn:V; [|discriminate].
  destruct (validate_inv _ _ V) as (e' & He & _ & Ht & T & _). injection He as <-.
  destruct (email_shape t T) as (local & Sh).
  destruct (userId_of_shape t local Sh) as (m & Hm & Hg). rewrite Hm.
  intros H. injection H as <-. rewrite Hg. subst t. split; [exact Sh|].
  pose proof (toLowerCase_not_upper (trim e)) as NU.
  destruct Sh as (c & run1 & d & run2 & a1 & a2 & run3 & Hx & -> & _).
  rewrite Hx in NU. apply Forall_app in NU. tauto.
Qed.

Lemma extract_after_validate v t :
  validateAndSanitizeEmail v = Some t ->
  exists c u, extractUserIdFromEmail (VStr t) = Some (c :: u) /\ address_shape t (c :: u).
Proof.
  intros V. pose proof (validate_idem v t V) as V2.
  destruct (validate_inv _ _ V) as (e & _ & _ & _ & T & _).
  destruct (email_shape t T) as (local & Sh).
  destruct (userId_of_shape t local Sh) as (m & Hm & Hg).
  unfold extractUserIdFromEmail. rewrite V2, Hm, Hg.
  destruct Sh as (c & run1 & d & run2 & a1 & a2 & run3 & Hx & Hl & F).
  exists c, run1. subst local. split; [reflexivity|].
  exists c, run1, d, run2, a1, a2, run3. tauto.
Qed.

(** C3 (the code differs). The identifier extracted from
    JohnDoe@tasks.example.com is johndoe: [validateAndSanitizeEmail] puts
    the address in lower case before the local part is taken, so the
    identifier is the local part of the lower-cased address and never
    holds an upper-case letter. *)
Theorem user_id_is_lower_cased :
  extractUserIdFromEmail (VStr (lit "JohnDoe@tasks.example.com")) = Some (lit "johndoe") /\
  (forall e id,
     extractUserIdFromEmail (VStr e) = Some id ->
     address_shape (toLowerCase (trim e)) id /\
     Forall (fun c => is_upper c = false) id).
Proof.
  split; [vm_compute; reflexivity|]. apply extract_user_id_spec.
Qed.

Lemma user_id_is_lower_cased_witness :
  Forall (fun c => is_upper c = false) (lit "johndoe").
Proof.
  apply (proj2 user_id_is_lower_cased (lit "JohnDoe@tasks.example.com") (lit "johndoe")).
  vm_compute. reflexivity.
Defined.

(** C9 (the code differs). The extraction phase throws a TypeError on
    the JSON text null (the property read of the format dispatch has no
    guard) and on an object whose sender is not a string (the preview of
    the extracted fields calls substring on it); the handler answers both
    with status 500. *)
Theorem normalizer_throws :
  normalize json_parse (VStr (lit "null")) =
    Throw (JsError TypeError (lit "Cannot read properties of null (reading 'event-data')")) /\
  (forall parse,
     normalize parse (obj [("sender", VNum 5)]%string) =
       Throw (JsError TypeError (lit "from.substring is not a function"))) /\
  status (fst (processEmailTask json_parse utc_zone 0 sample_store
                 {| method := lit "POST"; body := VStr (lit "null") |})) = 500 /\
  (forall parse,
     status (fst (processEmailTask parse utc_zone 0 sample_store
                    {| method := lit "POST"; body := obj [("sender", VNum 5)]%string |})) = 500).
Proof.
  repeat split; try (intros parse); vm_compute; reflexivity.
Qed.

(** An array has none of the properties the format dispatch reads. *)
Lemma prop_of_array items k :
  str_eqb (lit k) (lit "length") = false ->
  is_index (lit k) = false ->
  prop (VArr items) k = VUndef.
Proof. intros H1 H2. unfold prop. cbn [get]. rewrite H1, H2. reflexivity. Qed.

Lemma preview_ok name v : string_or_undefined v -> preview name v = Ok tt.
Proof. destruct v; simpl; try contradiction; intros _; unfold preview; simpl.
  - reflexivity.
  - destruct s; reflexivity.
Qed.

Lemma set_if_string m old : string_or_undefined old -> string_or_undefined (set_if m old).
Proof. destruct m; simpl; auto. Qed.

Lemma first_match_string ps s old :
  string_or_undefined old -> string_or_undefined (first_match ps s old).
Proof.
  intros H. induction ps as [|p ps IH]; simpl; [exact H|].
  destruct (js_match false p s); simpl; auto.
Qed.





Lemma str_eqb_eq a : forall b, str_eqb a b = true <-> a = b.
Proof.
  induction a as [|x a IH]; intros [|y b]; simpl; split; try discriminate; auto.
  - intros H. apply andb_true_iff in H. destruct H as [H1 H2].
    unfold ascii_eqb in H1. apply Ascii.eqb_eq in H1. apply IH in H2. congruence.
  - intros H. injection H as -> ->. apply andb_true_iff. split.
    + unfold ascii_eqb. apply Ascii.eqb_refl.
    + now apply IH.
Qed.

Lemma sanitizeSubject_nonempty v : is_empty (sanitizeSubject v) = false.
Proof.
  unfold sanitizeSubject. destruct v as [| | | |s| |]; try reflexivity.
  destruct s as [|c s]; [reflexivity|]. cbv zeta.
  destruct (substring0 200 _) eqn:E; reflexivity.
Qed.

(** No user has the identifier, exactly or up to letter case. *)
Lemma find_user_none st userId :
  (forall id, In id (users st) -> toLowerCase id <> toLowerCase userId) ->
  find_user st userId = None.
Proof.
  intros H. unfold find_user.
  destruct (existsb (str_eqb userId) (users st)) eqn:E.
  - apply existsb_exists in E. destruct E as (id & Hin & Heq).
    apply str_eqb_eq in Heq. subst id. exfalso. now apply (H userId Hin).
  - destruct (find _ (users st)) as [id|] eqn:F; [|reflexivity].
    apply find_some in F. destruct F as (Hin & Heq). apply str_eqb_eq in Heq.
    exfalso. now apply (H id Hin).
Qed.

(** C7. After a successful extraction phase the handler has two client
    errors. When the sender or the recipient fails validation it answers
    400 with the state of each of from, to and subject (the subject never
    fails: an empty one is replaced by the default). When both validate
    but no user has the identifier taken from the recipient, exactly or
    up to letter case, it answers 404 with that identifier. In both cases
    the store is unchanged. *)
Theorem client_error_outcomes parse tza now st req e :
  method req = lit "POST" ->
  normalize parse (body req) = Ok e ->
  let sanitizedFrom := validateAndSanitizeEmail (js_or (e_from e) (VStr [])) in
  let sanitizedTo := validateAndSanitizeEmail (js_or (e_to e) (VStr [])) in
  (sanitizedFrom = None \/ sanitizedTo = None ->
     processEmailTask parse tza now st req =
       ({| status := 400;
           payload :=
             failure "Missing or invalid required email fields"
               (obj [ ("from", missing_or_ok (is_none sanitizedFrom));
                      ("to", missing_or_ok (is_none sanitizedTo));
                      ("subject", VStr (lit "ok")) ]%string) |}, st)) /\
  (forall sFrom sTo,
     sanitizedFrom = Some sFrom -> sanitizedTo = Some sTo ->
     fault st <> LookupRejects ->
     exists userId,
       extractUserIdFromEmail (VStr sTo) = Some userId /\
       address_shape sTo userId /\
       ((forall id, In id (users st) -> toLowerCase id <> toLowerCase userId) ->
        processEmailTask parse tza now st req =
          ({| status := 404;
              payload :=
                failure "User not found"
                  (obj [ ("requestedUserId", VStr userId);
                         ("availableUsers",
                          VArr (map VStr (firstn 5 (users st)))) ]%string) |}, st))).
Proof.
  intros Hm Hn sanitizedFrom sanitizedTo.
  assert (P : processEmailTask parse tza now st req = respond tza now st e).
  { unfold processEmailTask. rewrite Hm, Hn.
    replace (str_eqb (lit "POST") (lit "OPTIONS")) with false by reflexivity.
    replace (str_eqb (lit "POST") (lit "POST")) with true by reflexivity.
    reflexivity. }
  rewrite P. unfold respond. cbv zeta. fold sanitizedFrom. fold sanitizedTo.
  rewrite sanitizeSubject_nonempty.
  split.
  - intros [H|H].
    + rewrite H. reflexivity.
    + rewrite H. destruct sanitizedFrom; reflexivity.
  - intros sFrom sTo HF HT Hfault.
    destruct (extract_after_validate _ _ HT) as (c & u & Hx & Hs).
    exists (c :: u). split; [exact Hx|]. split; [exact Hs|].
    intros Hno. rewrite HF, HT, Hx. cbv iota beta.
    rewrite (find_user_none st (c :: u) Hno).
    destruct (fault st); try reflexivity. congruence.
Qed.

Lemma client_error_outcomes_witness :
  processEmailTask json_parse utc_zone 0 sample_store
    {| method := lit "POST";
       body := obj [ ("from", VStr (lit "alice@example.com"));
                     ("to", VStr (lit "not-an-email"));
                     ("subject", VStr (lit "Hello")) ]%string |} =
  ({| status := 400;
      payload :=
        failure "Missing or invalid required email fields"
          (obj [ ("from", VStr (lit "ok"));
                 ("to", VStr (lit "missing or invalid"));
                 ("subject", VStr (lit "ok")) ]%string) |}, sample_store).
Proof.
  refine (proj1 (client_error_outcomes json_parse utc_zone 0%Z sample_store
                   {| method := lit "POST";
                      body := obj [ ("from", VStr (lit "alice@example.com"));
                                    ("to", VStr (lit "not-an-email"));
                                    ("subject", VStr (lit "Hello")) ]%string |}
                   {| e_from := VStr (lit "alice@example.com");
                      e_to := VStr (lit "not-an-email");
                      e_subject := VStr (lit "Hello");
                      e_text := VUndef; e_html := VUndef |}
                   eq_refl _) _).
  - vm_compute. reflexivity.
  - right. vm_compute. reflexivity.
Defined.

Lemma unknown_user_example :
  processEmailTask json_parse utc_zone 0 sample_store
    {| method := lit "POST";
       body := obj [ ("from", VStr (lit "alice@example.com"));
                     ("to", VStr (lit "Nobody@tasks.example.com"));
                     ("subject", VStr (lit "Hello")) ]%string |} =
  ({| status := 404;
      payload :=
        failure "User not found"
          (obj [ ("requestedUserId", VStr (lit "nobody"));
                 ("availableUsers", VArr [VStr (lit "JohnDoe")]) ]%string) |},
   sample_store).
Proof. vm_compute. reflexivity. Qed.

(* ================================================================== *)
(** * Further properties of the sanitizers *)

Lemma search_from_split ml r : forall s prev f,
  search_from ml r prev s = Some f -> s = f_before f ++ f_match f ++ f_after f.
Proof.
  induction s as [|c t IH]; intros prev f H; cbn [search_from] in H.
  - destruct (exec_at ml r prev []) as [[cs n]|]; [|discriminate].
    injection H as <-. reflexivity.
  - destruct (exec_at ml r prev (c :: t)) as [[cs n]|].
    + injection H as <-. cbn [f_before f_match f_after app].
      now rewrite firstn_skipn.
    + destruct (search_from ml r (Some c) t) as [g|] eqn:E; [|discriminate].
      injection H as <-. cbn [f_before f_match f_after app].
      now rewrite <- (IH (Some c) g E).
Qed.

(** Removing the first match keeps code units of the input, in order,
    and does not lengthen it. *)
Lemma replace_first_empty ml r s :
  exists a m b, s = a ++ m ++ b /\ replace_first ml r [] s = a ++ b.
Proof.
  unfold replace_first, js_match.
  destruct (search_from ml r None s) as [f|] eqn:E.
  - exists (f_before f), (f_match f), (f_after f). split; [|reflexivity].
    now apply search_from_split in E.
  - exists s, [], []. now rewrite !app_nil_r.
Qed.

Lemma drop_while_suffix p s : exists a, s = a ++ drop_while p s.
Proof.
  induction s as [|c t [a IH]]; simpl.
  - now exists [].
  - destruct (p c).
    + exists (c :: a). simpl. now rewrite <- IH.
    + now exists [].
Qed.

Lemma drop_while_head p s :
  match drop_while p s with [] => True | c :: _ => p c = false end.
Proof.
  induction s as [|c t IH]; simpl; [exact I|].
  destruct (p c) eqn:E; [exact IH|exact E].
Qed.

Lemma drop_while_length p s : length (drop_while p s) <= length s.
Proof.
  destruct (drop_while_suffix p s) as [a H]. rewrite H at 2. rewrite length_app. lia.
Qed.

Lemma trim_length s : length (trim s) <= length s.
Proof.
  unfold trim. rewrite length_rev.
  etransitivity; [apply drop_while_length|]. rewrite length_rev. apply drop_while_length.
Qed.

Lemma no_leading_space_app_l a b :
  a <> [] -> no_leading_space (a ++ b) -> no_leading_space a.
Proof. destruct a; [congruence|]. intros _ H. exact H. Qed.

(** [trim] removes the white space at both ends. *)
Lemma trim_trimmed s : trimmed (trim s).
Proof.
  unfold trimmed, trim. rewrite rev_involutive. split.
  - pose proof (drop_while_head is_space (rev (drop_while is_space s))) as H.
    pose proof (drop_while_head is_space s) as H0.
    destruct (drop_while_suffix is_space (rev (drop_while is_space s))) as [a Ha].
    remember (drop_while is_space (rev (drop_while is_space s))) as d.
    apply (f_equal (@rev ascii)) in Ha. rewrite rev_involutive, rev_app_distr in Ha.
    destruct (rev d) as [|x l] eqn:E; [exact I|].
    rewrite Ha in H0. exact H0.
  - apply (drop_while_head is_space (rev (drop_while is_space s))).
Qed.

Lemma trim_of_trimmed s : trimmed s -> trim s = s.
Proof.
  intros [H1 H2]. unfold trim.
  assert (A : forall x, no_leading_space x -> drop_while is_space x = x).
  { intros [|c t] H; [reflexivity|]. simpl in *. now rewrite H. }
  rewrite (A s H1), (A (rev s) H2). apply rev_involutive.
Qed.

Lemma trim_idem s : trim (trim s) = trim s.
Proof. apply trim_of_trimmed, trim_trimmed. Qed.

Lemma firstn_no_leading_space n s : no_leading_space s -> no_leading_space (firstn n s).
Proof. destruct n, s; simpl; auto. Qed.

Lemma filter_plain s :
  Forall plain_char
    (filter (fun c => negb (is_control c))
       (filter (fun c => negb (existsb (ascii_eqb c) (lit "<>"))) s)).
Proof.
  apply Forall_forall. intros c H. apply filter_In in H. destruct H as [H Hc].
  apply filter_In in H. destruct H as [_ Ha]. split.
  - now apply negb_true_iff.
  - now apply negb_true_iff.
Qed.

Lemma sanitizeSubject_str s :
  sanitizeSubject (VStr s) =
  str_or (substring0 200
            (trim (filter (fun c => negb (is_control c))
                     (filter (fun c => negb (existsb (ascii_eqb c) (lit "<>"))) s))))
         (lit "Email Task").
Proof.
  destruct s as [|c t]; [vm_compute; reflexivity|].
  unfold sanitizeSubject. cbv zeta.
  unfold angle_brackets, control_chars, one_of. now rewrite !replace_all_cls.
Qed.

Lemma default_title_facts :
  length (lit "Email Task") = 10 /\ Forall plain_char (lit "Email Task") /\
  trimmed (lit "Email Task").
Proof.
  split; [reflexivity|]. split.
  - repeat constructor.
  - split; reflexivity.
Qed.

Lemma sanitizeSubject_facts v :
  1 <= length (sanitizeSubject v) <= 200 /\
  Forall plain_char (sanitizeSubject v) /\
  no_leading_space (sanitizeSubject v).
Proof.
  destruct default_title_facts as (DL & DP & DT & _).
  assert (D : 1 <= length (lit "Email Task") <= 200 /\
              Forall plain_char (lit "Email Task") /\ no_leading_space (lit "Email Task")).
  { rewrite DL. repeat split; auto; lia. }
  destruct v; try exact D.
  rewrite sanitizeSubject_str.
  set (f := filter _ (filter _ s)).
  destruct (substring0 200 (trim f)) as [|c r] eqn:E; cbn [str_or]; [exact D|].
  rewrite <- E. unfold substring0 in *. repeat split.
  - rewrite E. cbn [length]. lia.
  - apply firstn_le_length.
  - apply firstn_Forall, trim_Forall, filter_plain.
  - apply firstn_no_leading_space. apply trim_trimmed.
Qed.

(** X1. Whatever it is given, [sanitizeSubject] returns between 1 and 200
    code units, none of them a control character or an angle bracket,
    and without leading white space; for a value that is not a non-empty
    string it returns the default Email Task. *)
Theorem sanitized_subject_invariant :
  (forall v,
     1 <= length (sanitizeSubject v) <= 200 /\
     Forall plain_char (sanitizeSubject v) /\
     no_leading_space (sanitizeSubject v)) /\
  (forall v, is_string v = false -> sanitizeSubject v = lit "Email Task").
Proof.
  split; [apply sanitizeSubject_facts|].
  intros v H. destruct v as [| | | |s| |]; try reflexivity.
  destruct s; [reflexivity|discriminate].
Qed.

Lemma sanitized_subject_invariant_witness :
  sanitizeSubject (VNum 42) = lit "Email Task".
Proof. apply (proj2 sanitized_subject_invariant). reflexivity. Defined.

Lemma cleanSubjectOf_facts raw :
  length raw <= 200 -> Forall plain_char raw ->
  1 <= length (cleanSubjectOf raw) <= 200 /\
  Forall plain_char (cleanSubjectOf raw) /\
  trimmed (cleanSubjectOf raw).
Proof.
  intros L P. destruct default_title_facts as (DL & DP & DT).
  unfold cleanSubjectOf.
  destruct (replace_first_empty false prefixRegex raw) as (a & m & b & Hs & Hr).
  rewrite Hr.
  destruct (trim (a ++ b)) as [|c r] eqn:E; cbn [str_or].
  - rewrite DL. repeat split; auto; try lia; apply DT.
  - rewrite <- E. repeat split.
    + rewrite E. cbn [length]. lia.
    + etransitivity; [apply trim_length|]. subst raw.
      rewrite !length_app in *. lia.
    + apply trim_Forall. subst raw. apply Forall_app in P. destruct P as [Pa P].
      apply Forall_app in P. destruct P as [_ Pb]. now apply Forall_app.
    + apply trim_trimmed.
    + apply trim_trimmed.
Qed.

Lemma title_facts tza now email t :
  parseEmailToTask tza now email = Ok t ->
  1 <= length (title t) <= 200 /\ Forall plain_char (title t) /\ trimmed (title t).
Proof.
  intros H. apply parse_ok_inv in H. cbv zeta in H. destruct H as (Ht & _).
  rewrite Ht.
  destruct (sanitizeSubject_facts (VStr (subject email))) as ((_ & L) & P & _).
  now apply cleanSubjectOf_facts.
Qed.

(** X2. The title of every task draft has between 1 and 200 code units,
    holds no control character and no angle bracket, and has no white
    space at either end; the provenance block keeps the sanitized subject
    as it was before the reply marker was removed. *)
Theorem title_invariant tza now email t :
  parseEmailToTask tza now email = Ok t ->
  1 <= length (title t) <= 200 /\
  Forall plain_char (title t) /\
  trimmed (title t) /\
  originalSubject (emailSource t) = sanitizeSubject (VStr (subject email)) /\
  title t = cleanSubjectOf (originalSubject (emailSource t)).
Proof.
  intros H. destruct (title_facts _ _ _ _ H) as (L & P & T).
  apply parse_ok_inv in H. cbv zeta in H. destruct H as (Ht & _ & _ & _ & Ho & _).
  split; [exact L|]. split; [exact P|]. split; [exact T|]. split; [exact Ho|].
  now rewrite Ho.
Qed.

Lemma title_invariant_witness :
  match parseEmailToTask utc_zone 0 (sample_email "Re:   <b>Budget</b> review  ") with
  | Ok t => 1 <= length (title t) <= 200 /\ Forall plain_char (title t) /\
            trimmed (title t) /\
            originalSubject (emailSource t) =
              sanitizeSubject (VStr (lit "Re:   <b>Budget</b> review  ")) /\
            title t = cleanSubjectOf (originalSubject (emailSource t))
  | Throw _ => False
  end.
Proof.
  destruct (parseEmailToTask utc_zone 0 (sample_email "Re:   <b>Budget</b> review  "))
    as [t|e] eqn:E.
  - exact (title_invariant utc_zone 0%Z _ t E).
  - vm_compute in E. discriminate.
Defined.

Lemma validate_task_ok tza now email t :
  parseEmailToTask tza now email = Ok t -> validate_task t = Ok tt.
Proof.
  intros H. destruct (title_facts _ _ _ _ H) as (L & _ & T).
  pose proof (parse_ok_inv _ _ _ _ H) as I. cbv zeta in I.
  destruct I as (_ & Hi & _ & _ & _ & Ha & _).
  unfold validate_task. rewrite (trim_of_trimmed _ T).
  destruct (title t) as [|c r] eqn:Et; [simpl in L; lia|].
  cbn [is_empty length Nat.eqb orb].
  rewrite Hi, Ha.
  pose proof (importance_values (cleanSubjectOf (sanitizeSubject (VStr (subject email))))) as V.
  cbv zeta in V. destruct V as [V|[V|[V|V]]]; rewrite V; reflexivity.
Qed.

(** X3. The checks made before the write (a title that is not blank, an
    importance between 1 and 10, an area) accept every task draft that
    [parseEmailToTask] produces, so that with a store that works the
    creation step always writes the task and answers 200. *)
Theorem pre_write_checks_always_pass tza now email t :
  parseEmailToTask tza now email = Ok t ->
  validate_task t = Ok tt /\
  (forall st userId actual,
     fault st = NoFault ->
     create_task st userId actual t = (created_response st t, store_with st actual t)).
Proof.
  intros H. pose proof (validate_task_ok _ _ _ _ H) as V.
  split; [exact V|].
  intros st userId actual Hf. unfold create_task, store_with. rewrite V, Hf. reflexivity.
Qed.

Lemma pre_write_checks_always_pass_witness :
  match parseEmailToTask utc_zone 0 (sample_email "low priority chores") with
  | Ok t => validate_task t = Ok tt
  | Throw _ => False
  end.
Proof.
  destruct (parseEmailToTask utc_zone 0 (sample_email "low priority chores")) as [t|e] eqn:E.
  - exact (proj1 (pre_write_checks_always_pass utc_zone 0%Z _ t E)).
  - vm_compute in E. discriminate.
Defined.

(* ================================================================== *)
(** * Further properties of the handler *)

Lemma find_user_some st userId a :
  find_user st userId = Some a ->
  In a (users st) /\ toLowerCase a = toLowerCase userId /\
  (In userId (users st) -> a = userId).
Proof.
  unfold find_user. destruct (existsb (str_eqb userId) (users st)) eqn:E.
  - intros H. injection H as <-. apply existsb_exists in E.
    destruct E as (x & Hin & Hx). apply str_eqb_eq in Hx. subst x. auto.
  - intros H. apply find_some in H. destruct H as (Hin & Hx). apply str_eqb_eq in Hx.
    repeat split; auto. intros Hu. exfalso.
    assert (existsb (str_eqb userId) (users st) = true).
    { apply existsb_exists. exists userId. split; [exact Hu|]. now apply str_eqb_eq. }
    congruence.
Qed.

Lemma create_failed_cases userId e :
  let r := create_failed userId e in
  (status r = 403 \/ status r = 429 \/ status r = 500) /\
  error_of r <> VStr (lit "Invalid email address format") /\
  prop (payload r) "success" = VBool false.
Proof.
  unfold create_failed. cbv zeta.
  destruct (includes (lit "permission") (err_message e)); [repeat split; auto; discriminate|].
  destruct (includes (lit "quota") (err_message e) || includes (lit "limit") (err_message e));
    repeat split; auto; discriminate.
Qed.

(** What the handler does once the extraction phase has given its five
    fields: every way [respond] can end. *)
Lemma respond_cases tza now st e :
  let sFromO := validateAndSanitizeEmail (js_or (e_from e) (VStr [])) in
  let sToO := validateAndSanitizeEmail (js_or (e_to e) (VStr [])) in
  (* a required field failed validation *)
  ((sFromO = None \/ sToO = None) /\
   status (fst (respond tza now st e)) = 400 /\
   error_of (fst (respond tza now st e)) =
     VStr (lit "Missing or invalid required email fields") /\
   snd (respond tza now st e) = st) \/
  (exists sFrom sTo userId,
     sFromO = Some sFrom /\ sToO = Some sTo /\
     extractUserIdFromEmail (VStr sTo) = Some userId /\ userId <> [] /\
     ((* the user lookup rejects *)
      (fault st = LookupRejects /\
       respond tza now st e =
         ({| status := 500;
             payload := failure "Database error while checking user"
                          (obj [("userId"%string, VStr userId)]) |}, st)) \/
      (* no such user *)
      (fault st <> LookupRejects /\ find_user st userId = None /\
       respond tza now st e =
         ({| status := 404;
             payload :=
               failure "User not found"
                 (obj [("requestedUserId"%string, VStr userId);
                       ("availableUsers"%string,
                        VArr (map VStr (firstn 5 (users st))))]) |}, st)) \/
      (exists actual,
         fault st <> LookupRejects /\ find_user st userId = Some actual /\
         ((* the task extractor throws *)
          (exists err,
             parseEmailToTask tza now (message_of now e sFrom sTo) = Throw err /\
             respond tza now st e =
               ({| status := 500;
                   payload := failure "Error parsing email content"
                                (obj [("error"%string, VStr (err_message err))]) |}, st)) \/
          (exists t,
             parseEmailToTask tza now (message_of now e sFrom sTo) = Ok t /\
             ((* the write rejects with an Error *)
              (exists m, fault st = AddRejects (Some m) /\
                 respond tza now st e =
                   (create_failed userId (JsError PlainError m), st)) \/
              (* the write rejects with another value *)
              (fault st = AddRejects None /\
                 respond tza now st e =
                   ({| status := 500;
                       payload := failure "Unknown error while creating task"
                                    (obj [("userId"%string, VStr userId)]) |}, st)) \/
              (* the task is written *)
              (fault st = NoFault /\
                 respond tza now st e = (created_response st t, store_with st actual t)))))))).
Proof.
  cbv zeta. unfold respond. cbv zeta. rewrite sanitizeSubject_nonempty.
  fold (message_of now e).
  destruct (validateAndSanitizeEmail (js_or (e_from e) (VStr []))) as [sFrom|] eqn:VF;
    [|left; cbn; repeat split; auto].
  destruct (validateAndSanitizeEmail (js_or (e_to e) (VStr []))) as [sTo|] eqn:VT;
    [|left; cbn; repeat split; auto].
  right. destruct (extract_after_validate _ _ VT) as (c & u & Hx & _).
  exists sFrom, sTo, (c :: u). rewrite Hx. cbv iota beta.
  split; [reflexivity|]. split; [reflexivity|]. split; [reflexivity|].
  split; [discriminate|].
  change {| from := sFrom; to := sTo;
            subject := sanitizeSubject (js_or (e_subject e) (VStr []));
            text := Some (sanitizeTextContent (js_or (e_text e) (VStr [])));
            html := Some (sanitizeTextContent (js_or (e_html e) (VStr [])));
            receivedAt := Instant now |} with (message_of now e sFrom sTo).
  unfold create_task.
  destruct (parseEmailToTask tza now (message_of now e sFrom sTo)) as [t|err] eqn:P.
  - rewrite (validate_task_ok _ _ _ _ P).
    destruct (find_user st (c :: u)) as [actual|] eqn:F.
    + destruct (fault st) as [| |[m|]] eqn:Ef.
      * right. right. exists actual. split; [discriminate|]. split; [reflexivity|].
        right. exists t. split; [reflexivity|]. right. right. split; [reflexivity|].
        unfold created_response, store_with. now rewrite Ef.
      * left. split; reflexivity.
      * right. right. exists actual. split; [discriminate|]. split; [reflexivity|].
        right. exists t. split; [reflexivity|]. left. exists m. split; reflexivity.
      * right. right. exists actual. split; [discriminate|]. split; [reflexivity|].
        right. exists t. split; [reflexivity|]. right. left. split; reflexivity.
    + destruct (fault st) eqn:Ef.
      * right. left. split; [discriminate|]. split; reflexivity.
      * left. split; reflexivity.
      * right. left. split; [discriminate|]. split; reflexivity.
  - destruct (find_user st (c :: u)) as [actual|] eqn:F.
    + destruct (fault st) eqn:Ef.
      * right. right. exists actual. split; [discriminate|]. split; [reflexivity|].
        left. exists err. split; reflexivity.
      * left. split; reflexivity.
      * right. right. exists actual. split; [discriminate|]. split; [reflexivity|].
        left. exists err. split; reflexivity.
    + destruct (fault st) eqn:Ef.
      * right. left. split; [discriminate|]. split; reflexivity.
      * left. split; reflexivity.
      * right. left. split; [discriminate|]. split; reflexivity.
Qed.

Lemma process_post parse tza now st req :
  method req = lit "POST" ->
  processEmailTask parse tza now st req =
  match normalize parse (body req) with
  | Ok e => respond tza now st e
  | Throw err =>
      ({| status := 500;
          payload :=
            failure "Internal server error while processing email"
              (obj [ ("message", VStr (err_message err));
                     ("timestamp", VStr (iso_string now)) ]%string) |}, st)
  end.
Proof.
  intros Hm. unfold processEmailTask. rewrite Hm.
  replace (str_eqb (lit "POST") (lit "OPTIONS")) with false by reflexivity.
  replace (str_eqb (lit "POST") (lit "POST")) with true by reflexivity.
  reflexivity.
Qed.

(** The handler either answers without touching the store or writes one
    task. *)
Lemma respond_store tza now st e :
  (In (status (fst (respond tza now st e))) [400; 403; 404; 429; 500] /\
   snd (respond tza now st e) = st) \/
  (status (fst (respond tza now st e)) = 200 /\
   exists uid t, In uid (users st) /\ snd (respond tza now st e) = store_with st uid t).
Proof.
  pose proof (respond_cases tza now st e) as C. cbv zeta in C.
  destruct C as [(_ & S & _ & U)|(sFrom & sTo & userId & _ & _ & _ & _ & C)].
  { left. rewrite S, U. simpl. tauto. }
  destruct C as [(_ & ->)|[(_ & _ & ->)|(actual & _ & F & C)]];
    [left; simpl; tauto|left; simpl; tauto|].
  destruct C as [(err & _ & ->)|(t & _ & C)]; [left; simpl; tauto|].
  destruct C as [(m & _ & ->)|[(_ & ->)|(_ & ->)]].
  - left. cbn [fst snd]. split; [|reflexivity].
    destruct (create_failed_cases userId (JsError PlainError m)) as ([S|[S|S]] & _);
      rewrite S; simpl; tauto.
  - left. simpl. tauto.
  - right. cbn [fst snd]. split; [reflexivity|]. exists actual, t. split; [|reflexivity].
    now apply find_user_some in F.
Qed.

(** X4. Whatever the request, the handler leaves the list of users as
    it is and either answers with a status other than 200 and leaves the
    store unchanged, or answers 200 and has written exactly one task, with
    status open, for a user of the store. *)
Theorem handler_writes_at_most_one_task parse tza now st req :
  let out := processEmailTask parse tza now st req in
  users (snd out) = users st /\
  ((In (status (fst out)) [204; 400; 403; 404; 405; 429; 500] /\ snd out = st) \/
   (status (fst out) = 200 /\
    exists uid t,
      In uid (users st) /\
      tasks (snd out) =
        tasks st ++ [(uid, {| task := t; task_status := lit "open"; task_userId := uid |})])).
Proof.
  cbv zeta.
  assert (A : (In (status (fst (processEmailTask parse tza now st req)))
                 [204; 400; 403; 404; 405; 429; 500] /\
               snd (processEmailTask parse tza now st req) = st) \/
              (status (fst (processEmailTask parse tza now st req)) = 200 /\
               exists uid t, In uid (users st) /\
                 snd (processEmailTask parse tza now st req) = store_with st uid t)).
  { unfold processEmailTask.
    destruct (str_eqb (method req) (lit "OPTIONS")); [left; simpl; tauto|].
    destruct (negb (str_eqb (method req) (lit "POST"))); [left; simpl; tauto|].
    destruct (normalize parse (body req)) as [e|err]; [|left; simpl; tauto].
    destruct (respond_store tza now st e) as [(S & U)|R]; [|right; exact R].
    left. split; [|exact U]. simpl in *. tauto. }
  destruct A as [(S & U)|(S & uid & t & Hin & U)].
  - rewrite U. split; [reflexivity|]. left. split; [exact S|reflexivity].
  - rewrite U. split; [reflexivity|]. right. split; [exact S|]. exists uid, t.
    split; [exact Hin|reflexivity].
Qed.

Lemma error_of_failure n err d :
  error_of {| status := n; payload := failure err d |} = VStr (lit err).
Proof. reflexivity. Qed.

(** X5. The answer Invalid email address format is never given: a
    recipient that passes validation always yields an identifier. *)
Theorem invalid_format_answer_is_unreachable parse tza now st req :
  error_of (fst (processEmailTask parse tza now st req)) <>
    VStr (lit "Invalid email address format").
Proof.
  unfold processEmailTask.
  destruct (str_eqb (method req) (lit "OPTIONS")); [discriminate|].
  destruct (negb (str_eqb (method req) (lit "POST"))); [discriminate|].
  destruct (normalize parse (body req)) as [e|err]; [|discriminate].
  pose proof (respond_cases tza now st e) as C. cbv zeta in C.
  destruct C as [(_ & _ & E & _)|(sFrom & sTo & userId & _ & _ & _ & _ & C)].
  { rewrite E. discriminate. }
  destruct C as [(_ & ->)|[(_ & _ & ->)|(actual & _ & F & C)]]; try discriminate.
  destruct C as [(err & _ & ->)|(t & _ & C)]; [discriminate|].
  destruct C as [(m & _ & ->)|[(_ & ->)|(_ & ->)]]; try discriminate.
  apply create_failed_cases.
Qed.

Lemma sanitize_falsy v : truthy v = false -> sanitizeTextContent (js_or v (VStr [])) = [].
Proof. intros H. unfold js_or. now rewrite H. Qed.

Lemma no_body_description tza now email t :
  opt_str (text email) = [] -> opt_str (html email) = [] ->
  parseEmailToTask tza now email = Ok t -> description t = placeholder.
Proof.
  intros Ht Hh H. apply parse_ok_inv in H. cbv zeta in H.
  destruct H as (_ & _ & _ & Hd & _). rewrite Hd, Ht, Hh. cbn [str_or].
  now rewrite clean_empty_body, sanitize_placeholder.
Qed.

(** X6. When the extraction phase found no text and no html (both
    falsy, for instance absent, empty or not strings that sanitize to
    nothing) and the handler answers 200, the task it has written carries
    the placeholder description. *)
Theorem stored_task_without_body_has_placeholder parse tza now st req e :
  method req = lit "POST" ->
  normalize parse (body req) = Ok e ->
  truthy (e_text e) = false -> truthy (e_html e) = false ->
  status (fst (processEmailTask parse tza now st req)) = 200 ->
  exists uid t,
    snd (processEmailTask parse tza now st req) = store_with st uid t /\
    description t = lit "No description provided".
Proof.
  intros Hm Hn Ht Hh. rewrite (process_post _ _ _ _ _ Hm), Hn.
  pose proof (respond_cases tza now st e) as C. cbv zeta in C.
  destruct C as [(_ & S & _ & _)|(sFrom & sTo & userId & _ & _ & _ & _ & C)].
  { rewrite S. discriminate. }
  destruct C as [(_ & ->)|[(_ & _ & ->)|(actual & _ & F & C)]]; try discriminate.
  destruct C as [(err & _ & ->)|(t & P & C)]; [discriminate|].
  destruct C as [(m & _ & ->)|[(_ & ->)|(_ & ->)]]; try discriminate.
  - cbn [fst]. intros S.
    destruct (create_failed_cases userId (JsError PlainError m)) as ([X|[X|X]] & _);
      rewrite X in S; discriminate.
  - intros _. exists actual, t. split; [reflexivity|].
    apply (no_body_description tza now (message_of now e sFrom sTo)); auto.
    + cbn [message_of text opt_str]. now apply sanitize_falsy.
    + cbn [message_of html opt_str]. now apply sanitize_falsy.
Qed.

Lemma stored_task_without_body_has_placeholder_witness :
  exists uid t,
    snd (processEmailTask json_parse utc_zone 0 sample_store
           {| method := lit "POST";
              body := obj [ ("from", VStr (lit "alice@example.com"));
                            ("to", VStr (lit "johndoe@tasks.example.com"));
                            ("subject", VStr (lit "Water the plants")) ]%string |})
      = store_with sample_store uid t /\
    description t = lit "No description provided".
Proof.
  apply (stored_task_without_body_has_placeholder json_parse utc_zone 0%Z sample_store
           {| method := lit "POST";
              body := obj [ ("from", VStr (lit "alice@example.com"));
                            ("to", VStr (lit "johndoe@tasks.example.com"));
                            ("subject", VStr (lit "Water the plants")) ]%string |}
           {| e_from := VStr (lit "alice@example.com");
              e_to := VStr (lit "johndoe@tasks.example.com");
              e_subject := VStr (lit "Water the plants");
              e_text := VUndef; e_html := VUndef |}).
  - reflexivity.
  - vm_compute. reflexivity.
  - reflexivity.
  - reflexivity.
  - vm_compute. reflexivity.
Defined.

(** For an object body the extraction phase is the format dispatch; the
    array stage does not apply. *)
Lemma normalize_object parse props :
  normalize parse (VObj props) =
  dispatch_stage parse (VObj props) (array_like_stage parse (VObj props) nothing).
Proof. reflexivity. Qed.

Lemma parse_ok_sender tza now email t :
  parseEmailToTask tza now email = Ok t ->
  sender (emailSource t) =
    match validateAndSanitizeEmail (VStr (from email)) with
    | Some s => s
    | None => lit "unknown@sender.com"
    end /\
  source_receivedAt (emailSource t) = receivedAt email.
Proof.
  unfold parseEmailToTask. cbv zeta.
  destruct (extractDueDateFromSubject tza now _) as [[|tv]|] eqn:E;
    cbv [bind toISOString]; intros H; try discriminate H;
    apply (f_equal (fun r => match r with Ok x => x | Throw _ => t end)) in H;
    cbv beta iota in H; rewrite <- H; split; reflexivity.
Qed.

(** X8. End to end for the simple format. A POST whose body is an
    object without event-data message and without recipient, with string
    from, to and subject that validate, for a recipient whose local part
    names a user of the store exactly or up to letter case, with a store
    that works and a subject whose due date (if any) is valid, is answered
    200 and one task is written for that user, under the identifier as the
    store has it: its title is the cleaned subject, its area inbox, its
    importance the one inferred from the title.  The subject goes through
    the subject sanitizer twice, once in the handler and once in the task
    extractor. *)
Theorem simple_email_creates_task parse tza now st req props f t0 s sFrom sTo actual :
  method req = lit "POST" ->
  body req = VObj props ->
  truthy (prop (VObj props) "event-data") = false ->
  truthy (prop (VObj props) "recipient") = false ->
  prop (VObj props) "from" = VStr f ->
  prop (VObj props) "to" = VStr t0 ->
  prop (VObj props) "subject" = VStr s ->
  validateAndSanitizeEmail (VStr f) = Some sFrom ->
  validateAndSanitizeEmail (VStr t0) = Some sTo ->
  (forall uid, extractUserIdFromEmail (VStr sTo) = Some uid ->
               find_user st uid = Some actual) ->
  fault st = NoFault ->
  extractDueDateFromSubject tza now
    (cleanSubjectOf (sanitizeSubject (VStr (sanitizeSubject (VStr s)))))
    <> Some InvalidDate ->
  exists t,
    processEmailTask parse tza now st req = (created_response st t, store_with st actual t) /\
    title t = cleanSubjectOf (sanitizeSubject (VStr (sanitizeSubject (VStr s)))) /\
    area t = lit "inbox" /\
    importance t = extractImportanceFromSubject (title t) /\
    sender (emailSource t) = sFrom.
Proof.
  intros Hm Hb Hed Hr Hf Ht Hs VF VT Hu Hfault Hdue.
  assert (Hh : has_header_keys (VObj props) = true).
  { unfold has_header_keys. rewrite Hf. destruct f as [|c f'].
    - discriminate VF.
    - reflexivity. }
  assert (N : normalize parse (body req) = Ok (extract_simple (VObj props))).
  { rewrite Hb, normalize_object. unfold dispatch_stage. cbn [is_nullish].
    rewrite Hed. cbn [andb]. now rewrite Hr, Hh. }
  rewrite (process_post _ _ _ _ _ Hm), N.
  set (e := extract_simple (VObj props)).
  assert (Ef : js_or (e_from e) (VStr []) = VStr f).
  { subst e. cbn [extract_simple e_from]. rewrite Hf. unfold js_or.
    destruct f; [discriminate VF|reflexivity]. }
  assert (Et : js_or (e_to e) (VStr []) = VStr t0).
  { subst e. cbn [extract_simple e_to]. rewrite Ht. unfold js_or.
    destruct t0; [discriminate VT|reflexivity]. }
  assert (Es : sanitizeSubject (js_or (e_subject e) (VStr [])) = sanitizeSubject (VStr s)).
  { subst e. cbn [extract_simple e_subject]. rewrite Hs. unfold js_or.
    destruct s; reflexivity. }
  pose proof (respond_cases tza now st e) as C. cbv zeta in C.
  rewrite Ef, Et, VF, VT in C.
  destruct C as [([C|C] & _)|(sFrom' & sTo' & userId & E1 & E2 & Hx & _ & C)];
    try discriminate.
  injection E1 as <-. injection E2 as <-.
  pose proof (Hu userId Hx) as F.
  destruct C as [(C & _)|[(_ & C & _)|(actual' & _ & F' & C)]]; try congruence.
  assert (actual' = actual) by congruence. subst actual'.
  assert (P : exists t, parseEmailToTask tza now (message_of now e sFrom sTo) = Ok t).
  { destruct (parseEmailToTask tza now (message_of now e sFrom sTo)) as [t|err] eqn:P;
      [eauto|].
    exfalso. apply Hdue. revert P. unfold parseEmailToTask. cbv zeta.
    cbn [message_of subject]. rewrite Es.
    destruct (extractDueDateFromSubject tza now _) as [[|tv]|]; cbv [bind toISOString];
      intros P; try discriminate. reflexivity. }
  destruct P as (t & P).
  destruct C as [(err & C & _)|(t' & P' & C)]; [congruence|].
  assert (t' = t) by congruence. subst t'.
  destruct C as [(m & C & _)|[(C & _)|(_ & C)]]; try congruence.
  exists t. split; [exact C|].
  pose proof (parse_ok_inv _ _ _ _ P) as I. cbv zeta in I.
  cbn [message_of subject from] in I. rewrite Es in I.
  destruct I as (I1 & I2 & _ & _ & _ & I6 & _).
  split; [exact I1|]. split; [exact I6|]. split.
  - rewrite I2, I1.
    pose proof (importance_values
                  (cleanSubjectOf (sanitizeSubject (VStr (sanitizeSubject (VStr s)))))) as V.
    cbv zeta in V. destruct V as [V|[V|[V|V]]]; rewrite V; reflexivity.
  - rewrite (proj1 (parse_ok_sender _ _ _ _ P)). cbn [message_of from].
    now rewrite (validate_idem _ _ VF).
Qed.

Lemma simple_email_creates_task_witness :
  exists t,
    processEmailTask json_parse utc_zone 0 sample_store
      {| method := lit "POST";
         body := obj [ ("from", VStr (lit "Alice@Example.com"));
                       ("to", VStr (lit "JohnDoe@tasks.example.com"));
                       ("subject", VStr (lit "Fwd: urgent report")) ]%string |}
      = (created_response sample_store t, store_with sample_store (lit "JohnDoe") t) /\
    title t = cleanSubjectOf
                (sanitizeSubject (VStr (sanitizeSubject (VStr (lit "Fwd: urgent report"))))) /\
    area t = lit "inbox" /\
    importance t = extractImportanceFromSubject (title t) /\
    sender (emailSource t) = lit "alice@example.com".
Proof.
  apply (simple_email_creates_task json_parse utc_zone 0%Z sample_store
           {| method := lit "POST";
              body := obj [ ("from", VStr (lit "Alice@Example.com"));
                            ("to", VStr (lit "JohnDoe@tasks.example.com"));
                            ("subject", VStr (lit "Fwd: urgent report")) ]%string |}
           [ (lit "from", VStr (lit "Alice@Example.com"));
             (lit "to", VStr (lit "JohnDoe@tasks.example.com"));
             (lit "subject", VStr (lit "Fwd: urgent report")) ]
           (lit "Alice@Example.com") (lit "JohnDoe@tasks.example.com")
           (lit "Fwd: urgent report")
           (lit "alice@example.com") (lit "johndoe@tasks.example.com") (lit "JohnDoe")).
  - reflexivity.
  - reflexivity.
  - reflexivity.
  - reflexivity.
  - reflexivity.
  - reflexivity.
  - reflexivity.
  - vm_compute. reflexivity.
  - vm_compute. reflexivity.
  - intros uid H. vm_compute in H. injection H as <-. vm_compute. reflexivity.
  - reflexivity.
  - vm_compute. discriminate.
Defined.

Lemma find_user_none_inv st userId :
  find_user st userId = None ->
  forall id, In id (users st) -> toLowerCase id <> toLowerCase userId.
Proof.
  intros H id Hin Heq. unfold find_user in H.
  destruct (existsb (str_eqb userId) (users st)); [discriminate|].
  apply (find_none _ _ H) in Hin. cbv beta in Hin.
  assert (T : str_eqb (toLowerCase id) (toLowerCase userId) = true) by now apply str_eqb_eq.
  congruence.
Qed.

(** X9. The lookup of the user. A found identifier is one of the
    store, equal to the requested one up to letter case, and the requested
    one itself when the store has it; nothing is found exactly when no
    identifier of the store equals the requested one up to letter case. *)
Theorem user_lookup_is_case_insensitive st userId :
  (forall a, find_user st userId = Some a ->
     In a (users st) /\ toLowerCase a = toLowerCase userId /\
     (In userId (users st) -> a = userId)) /\
  (find_user st userId = None <->
     forall id, In id (users st) -> toLowerCase id <> toLowerCase userId).
Proof.
  split; [intros a; apply find_user_some|].
  split; [apply find_user_none_inv|apply find_user_none].
Qed.

Lemma user_lookup_is_case_insensitive_witness :
  In (lit "JohnDoe") (users sample_store) /\
  toLowerCase (lit "JohnDoe") = toLowerCase (lit "johndoe") /\
  (In (lit "johndoe") (users sample_store) -> lit "JohnDoe" = lit "johndoe").
Proof.
  apply (proj1 (user_lookup_is_case_insensitive sample_store (lit "johndoe"))
           (lit "JohnDoe")).
  reflexivity.
Defined.

(** The answers of the handler that depend on the store: every other
    answer has one of the statuses 204, 405, 500, 400 and 200. *)
Lemma handler_fault_cases parse tza now st req :
  let r := fst (processEmailTask parse tza now st req) in
  In (status r) [204; 405; 500; 400; 200] \/
  (exists e sTo userId,
     normalize parse (body req) = Ok e /\
     validateAndSanitizeEmail (js_or (e_to e) (VStr [])) = Some sTo /\
     extractUserIdFromEmail (VStr sTo) = Some userId /\
     find_user st userId = None /\
     r = {| status := 404;
            payload :=
              failure "User not found"
                (obj [ ("requestedUserId", VStr userId);
                       ("availableUsers",
                        VArr (map VStr (firstn 5 (users st)))) ]%string) |}) \/
  (exists userId m,
     fault st = AddRejects (Some m) /\
     r = create_failed userId (JsError PlainError m)).
Proof.
  cbv zeta. unfold processEmailTask.
  destruct (str_eqb (method req) (lit "OPTIONS")); [left; simpl; tauto|].
  destruct (negb (str_eqb (method req) (lit "POST"))); [left; simpl; tauto|].
  destruct (normalize parse (body req)) as [e|err]; [|left; simpl; tauto].
  pose proof (respond_cases tza now st e) as C. cbv zeta in C.
  destruct C as [(_ & S & _)|(sFrom & sTo & userId & _ & VT & Hx & _ & C)].
  { left. rewrite S. simpl. tauto. }
  destruct C as [(_ & ->)|[(_ & F & ->)|(actual & _ & F & C)]].
  - left. simpl. tauto.
  - right. left. exists e, sTo, userId. cbn [fst]. auto.
  - destruct C as [(err & _ & ->)|(t & _ & C)]; [left; simpl; tauto|].
    destruct C as [(m & Hf & ->)|[(_ & ->)|(_ & ->)]];
      [|left; simpl; tauto|left; simpl; tauto].
    right. right. exists userId, m. cbn [fst]. auto.
Qed.

(** X10. What the rarer status codes tell. The handler answers 403
    only when the store rejected the write with an Error whose message
    includes permission; 429 only when that message does not and includes
    quota or limit; 404 only when the extraction succeeded, the recipient
    validated to an address, and the store has no user equal, up to letter
    case, to the local part of that address; the 404 answer then names
    that local part and lists the first five user identifiers of the
    store. *)
Theorem status_codes_of_store_faults parse tza now st req :
  let r := fst (processEmailTask parse tza now st req) in
  (status r = 403 ->
     exists m, fault st = AddRejects (Some m) /\ includes (lit "permission") m = true) /\
  (status r = 429 ->
     exists m, fault st = AddRejects (Some m) /\
               includes (lit "permission") m = false /\
               includes (lit "quota") m || includes (lit "limit") m = true) /\
  (status r = 404 ->
     exists e sTo userId,
       normalize parse (body req) = Ok e /\
       validateAndSanitizeEmail (js_or (e_to e) (VStr [])) = Some sTo /\
       address_shape sTo userId /\
       extractUserIdFromEmail (VStr sTo) = Some userId /\
       (forall id, In id (users st) -> toLowerCase id <> toLowerCase userId) /\
       payload r =
         failure "User not found"
           (obj [ ("requestedUserId", VStr userId);
                  ("availableUsers", VArr (map VStr (firstn 5 (users st)))) ]%string)).
Proof.
  cbv zeta.
  destruct (handler_fault_cases parse tza now st req)
    as [H|[(e & sTo & userId & Hn & VT & Hx & F & ->)|(userId & m & Hf & ->)]].
  - cbv zeta in H. simpl in H.
    repeat split; intros E; rewrite E in H;
      repeat (destruct H as [H|H]; [discriminate|]); contradiction.
  - cbn [status payload]. split; [discriminate|]. split; [discriminate|]. intros _.
    exists e, sTo, userId.
    destruct (extract_after_validate _ _ VT) as (c & u & Hx' & Sh).
    assert (userId = c :: u) by congruence. subst userId.
    repeat split; auto. now apply find_user_none_inv.
  - unfold create_failed. cbn [err_message].
    destruct (includes (lit "permission") m) eqn:P.
    { cbn [status]. split; [intros _; exists m; auto|]. split; discriminate. }
    destruct (includes (lit "quota") m || includes (lit "limit") m) eqn:Q.
    { cbn [status]. split; [discriminate|]. split; [intros _; exists m; auto|discriminate]. }
    cbn [status]. repeat split; discriminate.
Qed.

Lemma status_codes_of_store_faults_witness :
  exists m,
    fault {| users := [lit "JohnDoe"]; tasks := []; next_task_id := lit "task-1";
             fault := AddRejects (Some (lit "rate limit reached")) |}
      = AddRejects (Some m) /\
    includes (lit "permission") m = false /\
    includes (lit "quota") m || includes (lit "limit") m = true.
Proof.
  apply (proj1 (proj2 (status_codes_of_store_faults json_parse utc_zone 0%Z
           {| users := [lit "JohnDoe"]; tasks := []; next_task_id := lit "task-1";
              fault := AddRejects (Some (lit "rate limit reached")) |}
           {| method := lit "POST"; body := sample_mail |}))).
  vm_compute. reflexivity.
Defined.

(* ================================================================== *)
(** * The subject sanitized twice *)

(** The characters [sanitizeSubject] removes are absent from a plain
    string, so the two replacements leave it as it is. *)
Lemma filter_id (A : Type) (p : A -> bool) l :
  Forall (fun c => p c = true) l -> filter p l = l.
Proof.
  induction 1 as [|c t Hc Ht IH]; [reflexivity|]. simpl. rewrite Hc. now f_equal.
Qed.

Lemma plain_filters s :
  Forall plain_char s ->
  filter (fun c => negb (is_control c))
    (filter (fun c => negb (existsb (ascii_eqb c) (lit "<>"))) s) = s.
Proof.
  intros P. rewrite (filter_id _ (fun c => negb (existsb (ascii_eqb c) (lit "<>"))) s).
  - apply filter_id. eapply Forall_impl; [|exact P]. intros c (Hc & _). cbv beta.
    now rewrite Hc.
  - eapply Forall_impl; [|exact P]. intros c (_ & Hc). cbv beta. now rewrite Hc.
Qed.

Lemma drop_while_stop p a c b :
  p c = false -> drop_while p (a ++ c :: b) = drop_while p a ++ c :: b.
Proof.
  intros Hc. induction a as [|x a IH]; simpl.
  - now rewrite Hc.
  - destruct (p x); [exact IH|reflexivity].
Qed.

Lemma trim_nonempty s : s <> [] -> no_leading_space s -> trim s <> [].
Proof.
  destruct s as [|c t]; [congruence|]. intros _ Hc. simpl in Hc.
  unfold trim. cbn [drop_while]. rewrite Hc. cbn [rev].
  rewrite (drop_while_stop is_space (rev t) c [] Hc), rev_app_distr. discriminate.
Qed.

(** On a string that is already clean, [sanitizeSubject] is [trim]. *)
Lemma sanitizeSubject_of_plain s :
  Forall plain_char s -> length s <= 200 -> s <> [] -> no_leading_space s ->
  sanitizeSubject (VStr s) = trim s.
Proof.
  intros P L N H. rewrite sanitizeSubject_str, (plain_filters s P).
  unfold substring0. rewrite firstn_all2 by (pose proof (trim_length s); lia).
  pose proof (trim_nonempty s N H) as T. destruct (trim s); [congruence|reflexivity].
Qed.

(** X11. Sanitizing a subject a second time, as the handler and the task
    extractor do in turn, only trims it: it removes the white space that
    the cut at 200 code units may have left at the end. A subject of at
    most 200 code units is sanitized to a fixed point. *)
Theorem sanitizeSubject_twice :
  (forall v, sanitizeSubject (VStr (sanitizeSubject v)) = trim (sanitizeSubject v)) /\
  (forall v, sanitizeSubject (VStr (sanitizeSubject (VStr (sanitizeSubject v))))
             = sanitizeSubject (VStr (sanitizeSubject v))) /\
  (forall s, length s <= 200 ->
             sanitizeSubject (VStr (sanitizeSubject (VStr s))) = sanitizeSubject (VStr s)).
Proof.
  assert (A : forall v, sanitizeSubject (VStr (sanitizeSubject v)) = trim (sanitizeSubject v)).
  { intros v. destruct (sanitizeSubject_facts v) as (L & P & H).
    apply sanitizeSubject_of_plain; auto; [lia|].
    intros E. rewrite E in L. simpl in L. lia. }
  split; [exact A|]. split.
  - intros v. rewrite (A v).
    destruct (sanitizeSubject_facts v) as (L & P & H).
    rewrite sanitizeSubject_of_plain.
    + apply trim_idem.
    + now apply trim_Forall.
    + pose proof (trim_length (sanitizeSubject v)). lia.
    + apply trim_nonempty; auto. intros E. rewrite E in L. simpl in L. lia.
    + apply trim_trimmed.
  - intros s L. rewrite (A (VStr s)). apply trim_of_trimmed.
    destruct default_title_facts as (_ & _ & DT).
    rewrite sanitizeSubject_str.
    set (f := filter _ (filter _ s)).
    assert (Lf : length f <= 200).
    { subst f. etransitivity; [apply filter_length_le|].
      etransitivity; [apply filter_length_le|]. exact L. }
    unfold substring0. rewrite firstn_all2 by (pose proof (trim_length f); lia).
    destruct (trim f) eqn:E; cbn [str_or]; [exact DT|].
    rewrite <- E. apply trim_trimmed.
Qed.

Lemma sanitizeSubject_twice_witness :
  sanitizeSubject (VStr (sanitizeSubject (VStr (lit "  <b>Call Bob</b>  ")))) =
  sanitizeSubject (VStr (lit "  <b>Call Bob</b>  ")).
Proof.
  apply (proj2 (proj2 sanitizeSubject_twice) (lit "  <b>Call Bob</b>  ")).
  vm_compute. lia.
Defined.

(* ================================================================== *)
(** * Further properties of the payload normalizer *)

(** No property that the dispatch reads is defined on a string. *)
Lemma string_has_no_fields s :
  prop (VStr s) "event-data" = VUndef /\ prop (VStr s) "recipient" = VUndef /\
  prop (VStr s) "from" = VUndef /\ prop (VStr s) "to" = VUndef /\
  prop (VStr s) "subject" = VUndef.
Proof. repeat split. Qed.

Lemma fallback_strings body e :
  string_or_undefined (e_from e) -> string_or_undefined (e_to e) ->
  string_or_undefined (e_subject e) ->
  string_or_undefined (e_from (extract_fallback body e)) /\
  string_or_undefined (e_to (extract_fallback body e)) /\
  string_or_undefined (e_subject (extract_fallback body e)).
Proof.
  intros A B C. unfold extract_fallback. cbv zeta. cbn [e_from e_to e_subject].
  repeat split; now apply first_match_string.
Qed.

(** X12. A body that is a string and not JSON text is never the cause
    of a throw: the five fields are those of the final fallback over the
    text itself, each found field a string, and the handler does not
    answer with its internal-error 500. *)
Theorem text_body_uses_fallback parse tza now st s :
  parse s = None ->
  normalize parse (VStr s) = Ok (extract_fallback (VStr s) nothing) /\
  processEmailTask parse tza now st {| method := lit "POST"; body := VStr s |} =
    respond tza now st (extract_fallback (VStr s) nothing).
Proof.
  intros H.
  assert (N : normalize parse (VStr s) = Ok (extract_fallback (VStr s) nothing)).
  { unfold normalize, parse_body. rewrite H. cbn [array_stage array_like_stage].
    unfold dispatch_stage. cbn [is_nullish].
    destruct (string_has_no_fields s) as (-> & R & F & T & S).
    rewrite R. unfold has_header_keys. rewrite F, T, S. cbn [truthy andb orb].
    unfold extract_any. cbn [massive_stage].
    replace (none_of_three nothing) with true by reflexivity.
    replace (is_object (VStr s)) with false
      by (unfold is_object; cbn [typeof_object]; now rewrite andb_false_r).
    cbn [andb].
    set (e := extract_fallback (VStr s) nothing).
    destruct (fallback_strings (VStr s) nothing I I I) as (A & B & C). fold e in A, B, C.
    replace (none_of_three nothing) with true by reflexivity. cbv iota.
    rewrite (preview_ok "from" _ A), (preview_ok "to" _ B), (preview_ok "subject" _ C).
    reflexivity. }
  split; [exact N|].
  rewrite process_post by reflexivity. cbn [body]. now rewrite N.
Qed.

Lemma text_body_uses_fallback_witness :
  normalize json_parse (VStr (lit "From: alice@example.com, To: johndoe@tasks.example.com")) =
  Ok (extract_fallback
        (VStr (lit "From: alice@example.com, To: johndoe@tasks.example.com")) nothing).
Proof.
  apply (text_body_uses_fallback json_parse utc_zone 0%Z sample_store
           (lit "From: alice@example.com, To: johndoe@tasks.example.com")).
  vm_compute. reflexivity.
Defined.

Lemma is_string_inv item : is_string item = true -> exists s, item = VStr s /\ s <> [].
Proof.
  unfold is_string.
  destruct item as [| |b|z|s|l|l]; cbn [typeof_string]; rewrite ?andb_false_r;
    try discriminate.
  intros H. exists s. split; [reflexivity|]. destruct s; discriminate.
Qed.

Lemma scan_small_array_some parse items v :
  scan_small_array parse items = Some v ->
  is_object v && has_email_keys v = true /\
  (In v items \/ exists s, In (VStr s) items /\ parse s = Some v).
Proof.
  induction items as [|item rest IH]; [discriminate|]. cbn [scan_small_array].
  destruct (is_object item && has_email_keys item) eqn:A.
  { intros E. injection E as <-. split; [exact A|]. left. now left. }
  assert (K : scan_small_array parse rest = Some v ->
              is_object v && has_email_keys v = true /\
              (In v (item :: rest) \/ exists s, In (VStr s) (item :: rest) /\ parse s = Some v)).
  { intros E. destruct (IH E) as (B & [C|(s & C & D)]); split; auto.
    - left. now right.
    - right. exists s. split; [now right|exact D]. }
  destruct (is_string item) eqn:S; [|exact K].
  apply is_string_inv in S. destruct S as (s & -> & _). cbn [str_of].
  destruct (parse s) as [parsed|] eqn:P; [|exact K].
  destruct (is_object parsed && has_email_keys parsed) eqn:B; [|exact K].
  intros E. injection E as <-. split; [exact B|]. right. exists s. split; [now left|exact P].
Qed.

Lemma scan_small_array_none parse items :
  scan_small_array parse items = None ->
  (forall item, In item items -> is_object item && has_email_keys item = false) /\
  (forall s v, In (VStr s) items -> s <> [] -> parse s = Some v ->
               is_object v && has_email_keys v = false).
Proof.
  induction items as [|item rest IH]; [intros _; split; intros; contradiction|].
  cbn [scan_small_array].
  destruct (is_object item && has_email_keys item) eqn:A; [discriminate|].
  destruct (is_string item) eqn:S.
  - destruct (is_string_inv _ S) as (s & -> & Hs). cbn [str_of].
    destruct (parse s) as [parsed|] eqn:P.
    + destruct (is_object parsed && has_email_keys parsed) eqn:B; [discriminate|].
      intros E. destruct (IH E) as (I1 & I2). split.
      * intros x [<-|Hx]; auto.
      * intros s' v [Hx|Hx] Hn Hp; [|eauto]. injection Hx as ->. congruence.
    + intros E. destruct (IH E) as (I1 & I2). split.
      * intros x [<-|Hx]; auto.
      * intros s' v [Hx|Hx] Hn Hp; [|eauto]. injection Hx as ->. congruence.
  - intros E. destruct (IH E) as (I1 & I2). split.
    + intros x [<-|Hx]; auto.
    + intros s' v [Hx|Hx] Hn Hp; [|eauto]. subst item.
      destruct s'; [congruence|discriminate].
Qed.

(** X13. The scan of an array of at most 100 items leaves the five
    fields as they are and changes only the body: it becomes an object
    that carries one of from, to, subject, sender or recipient, taken from
    the items or parsed from a string item; it stays the array exactly
    when no item and no parsed non-empty string item is such an object. *)
Theorem small_array_adopts_email_item parse items e :
  length items <= 100 ->
  let b := fst (array_stage parse (VArr items) e) in
  snd (array_stage parse (VArr items) e) = e /\
  ((b = VArr items /\
    (forall item, In item items -> is_object item && has_email_keys item = false) /\
    (forall s v, In (VStr s) items -> s <> [] -> parse s = Some v ->
                 is_object v && has_email_keys v = false)) \/
   (is_object b && has_email_keys b = true /\
    (In b items \/ exists s, In (VStr s) items /\ parse s = Some b))).
Proof.
  intros L. cbv zeta. cbn [array_stage].
  replace (length items <=? 100) with true by (symmetry; now apply Nat.leb_le).
  destruct (scan_small_array parse items) as [item|] eqn:E; cbn [fst snd].
  - split; [reflexivity|]. right. now apply scan_small_array_some.
  - split; [reflexivity|]. left. split; [reflexivity|]. now apply scan_small_array_none.
Qed.

Lemma small_array_adopts_email_item_witness :
  let b := fst (array_stage json_parse (VArr [VNull; VNum 7; sample_mail]) nothing) in
  snd (array_stage json_parse (VArr [VNull; VNum 7; sample_mail]) nothing) = nothing /\
  ((b = VArr [VNull; VNum 7; sample_mail] /\
    (forall item, In item [VNull; VNum 7; sample_mail] ->
                  is_object item && has_email_keys item = false) /\
    (forall s v, In (VStr s) [VNull; VNum 7; sample_mail] -> s <> [] ->
                 json_parse s = Some v -> is_object v && has_email_keys v = false)) \/
   (is_object b && has_email_keys b = true /\
    (In b [VNull; VNum 7; sample_mail] \/
     exists s, In (VStr s) [VNull; VNum 7; sample_mail] /\ json_parse s = Some b))).
Proof.
  apply (small_array_adopts_email_item json_parse [VNull; VNum 7; sample_mail] nothing).
  simpl. lia.
Defined.

Lemma stride_length start stop : length (stride start stop) = (stop - start + 99) / 100.
Proof. unfold stride. now rewrite length_map, length_seq. Qed.

Lemma stride_bound start stop :
  Forall (fun i => start <= i < stop) (stride start stop).
Proof.
  unfold stride. apply Forall_forall. intros i H. apply in_map_iff in H.
  destruct H as (j & <- & H). apply in_seq in H.
  pose proof (Nat.Div0.mul_div_le (stop - start + 99) 100). lia.
Qed.

Lemma stride_short start stop n :
  stop - start <= 100 * n -> length (stride start stop) <= n.
Proof.
  intros H. rewrite stride_length.
  apply Nat.lt_succ_r, Nat.Div0.div_lt_upper_bound. lia.
Qed.

Lemma stride_first start stop : start < stop -> In start (stride start stop).
Proof.
  intros H. unfold stride. apply in_map_iff. exists 0. split; [lia|].
  apply in_seq. split; [lia|]. cbn [Nat.add].
  apply Nat.div_str_pos. lia.
Qed.

(** X14. Of an array of any length the sampling inspects at most 30
    items, each at an index within the array, so that every sample is an
    item of the array. When the array has more than 1000 items (the only
    case in which it is sampled) the first item, the middle item and the
    item at the length minus the sample size (the smaller of 1000 and a
    tenth of the length) are among them: up to 10009 items that is the
    item that opens the last tenth, from 10010 items on it is the item
    1000 before the end, and the item that opens the last tenth is not
    sampled. *)
Theorem sampling_is_bounded len :
  length (sample_indices len) <= 30 /\
  Forall (fun i => i < len) (sample_indices len) /\
  (forall items : list jsval, length items = len ->
     Forall (fun v => In v items)
       (map (fun i => nth i items VUndef) (sample_indices len))) /\
  (1000 < len ->
   In 0 (sample_indices len) /\ In (len / 2) (sample_indices len) /\
   In (len - Nat.min 1000 (len / 10)) (sample_indices len) /\
   (len < 10010 -> In (len - len / 10) (sample_indices len)) /\
   (10010 <= len ->
    In (len - 1000) (sample_indices len) /\
    ~ In (len - len / 10) (sample_indices len))).
Proof.
  assert (B : Forall (fun i => i < len) (sample_indices len) ->
              forall items : list jsval, length items = len ->
                Forall (fun v => In v items)
                  (map (fun i => nth i items VUndef) (sample_indices len))).
  { intros F items <-. apply Forall_map. eapply Forall_impl; [|exact F].
    intros i Hi. now apply nth_In. }
  cut (length (sample_indices len) <= 30 /\
       Forall (fun i => i < len) (sample_indices len) /\
       (1000 < len ->
        In 0 (sample_indices len) /\ In (len / 2) (sample_indices len) /\
        In (len - Nat.min 1000 (len / 10)) (sample_indices len) /\
        (len < 10010 -> In (len - len / 10) (sample_indices len)) /\
        (10010 <= len ->
         In (len - 1000) (sample_indices len) /\
         ~ In (len - len / 10) (sample_indices len)))).
  { intros (H1 & H2 & H3). auto. }
  clear B. unfold sample_indices. cbv zeta.
  set (k := Nat.min 1000 (len / 10)).
  assert (Hk : k <= 1000) by (subst k; lia).
  assert (Hd : k <= len / 10) by (subst k; lia).
  pose proof (Nat.Div0.mul_div_le len 10) as H10.
  pose proof (Nat.Div0.mul_div_le len 2) as H2.
  split; [|split].
  - rewrite !length_app.
    pose proof (stride_short 0 k 10).
    pose proof (stride_short (len / 2) (Nat.min (len / 2 + k) len) 10).
    pose proof (stride_short (len - k) len 10). lia.
  - rewrite !Forall_app. repeat split.
    + eapply Forall_impl; [|apply stride_bound]. cbv beta. lia.
    + eapply Forall_impl; [|apply stride_bound]. cbv beta. lia.
    + eapply Forall_impl; [|apply stride_bound]. cbv beta. lia.
  - intros L.
    assert (Hk1 : 100 <= k).
    { subst k. apply Nat.min_glb; [lia|]. apply Nat.div_le_lower_bound; lia. }
    assert (Hl2 : len / 2 < len) by (apply Nat.div_lt; lia).
    assert (Last : In (len - k)
                     (stride 0 k ++ stride (len / 2) (Nat.min (len / 2 + k) len)
                      ++ stride (len - k) len)).
    { rewrite !in_app_iff. right. right. apply stride_first. lia. }
    assert (T : 10010 = 10 * 1001) by (vm_compute; reflexivity).
    split; [|split; [|split; [|split]]].
    + rewrite !in_app_iff. left. apply stride_first. lia.
    + rewrite !in_app_iff. right. left. apply stride_first. lia.
    + exact Last.
    + intros Hs. rewrite T in Hs.
      assert (E : k = len / 10).
      { pose proof (Nat.div_mod_eq len 10) as Dm. subst k. lia. }
      now rewrite <- E.
    + intros Hs. rewrite T in Hs.
      assert (Hq : 1001 <= len / 10).
      { pose proof (Nat.div_mod_eq len 10) as Dm.
        pose proof (Nat.mod_upper_bound len 10). lia. }
      assert (E : k = 1000) by (subst k; lia).
      split; [now rewrite <- E|].
      rewrite !in_app_iff. intros [H|[H|H]];
        pose proof (proj1 (Forall_forall _ _) (stride_bound _ _) _ H) as Bd;
        cbv beta in Bd; lia.
Qed.

Lemma sampling_is_bounded_witness :
  In 0 (sample_indices 12000) /\ In (12000 / 2) (sample_indices 12000) /\
  In (12000 - Nat.min 1000 (12000 / 10)) (sample_indices 12000) /\
  (12000 < 10010 -> In (12000 - 12000 / 10) (sample_indices 12000)) /\
  (10010 <= 12000 ->
   In (12000 - 1000) (sample_indices 12000) /\
   ~ In (12000 - 12000 / 10) (sample_indices 12000)).
Proof.
  apply (proj2 (proj2 (proj2 (sampling_is_bounded 12000)))).
  apply Nat.ltb_lt. vm_compute. reflexivity.
Defined.

(* ================================================================== *)
(** * The address validator *)

Lemma star_step_some ml p X prev run rest cs k :
  Forall (fun c => p c = true) run ->
  is_some (rmatch ml X (prev_after prev run) rest cs k) = true ->
  is_some (rmatch ml (Seq (Star true (Cls p)) X) prev (run ++ rest) cs k) = true.
Proof.
  intros F K. rewrite r_seq, star_cls_greedy.
  now apply (take_greedy_complete p (fun p' s' cs' => rmatch ml X p' s' cs' k)).
Qed.

(** The email pattern accepts every string of the shape of an address:
    the greedy domain part gives back what the last label needs. *)
Lemma shape_accepted t local :
  address_shape t local -> js_test false emailRegex t = true.
Proof.
  intros (c & run1 & d & run2 & a1 & a2 & run3 & -> & _ & F1 & F2 & F3).
  inversion F1 as [|? ? Hc F1']; subst.
  inversion F2 as [|? ? Hd F2']; subst.
  inversion F3 as [|? ? Ha1 F3']; subst.
  inversion F3' as [|? ? Ha2 F3'']; subst.
  unfold emailRegex. cbn [seqs plus times]. apply test_anchored.
  unfold plus. rewrite r_seq_assoc. cbn [app].
  rewrite (cls_step_ok _ _ _ _ _ _ _ _ Hc).
  apply star_step_some; [exact F1'|].
  unfold chr. rewrite cls_step_ok by reflexivity.
  rewrite r_seq_assoc. rewrite (cls_step_ok _ _ _ _ _ _ _ _ Hd).
  apply star_step_some; [exact F2'|].
  rewrite cls_step_ok by reflexivity.
  rewrite r_seq_assoc.
  rewrite (cls_step_ok _ _ _ _ _ _ _ _ Ha1).
  rewrite (cls_step_ok _ _ _ _ _ _ _ _ Ha2).
  rewrite <- (app_nil_r run3).
  apply star_step_some; [exact F3''|].
  rewrite r_eol. reflexivity.
Qed.

(** X15. [validateAndSanitizeEmail] accepts exactly the strings that,
    once trimmed and put in lower case, have the shape of an address (one
    or more code units of the local class, an at sign, one or more of the
    domain class, a dot and two or more letters) and at most 254 code
    units, and it returns that trimmed lower-case string, which it accepts
    unchanged when given it again. *)
Theorem validator_accepts_shaped_addresses v t :
  (validateAndSanitizeEmail v = Some t <->
   exists e, v = VStr e /\ t = toLowerCase (trim e) /\
             (exists local, address_shape t local) /\ length t <= 254) /\
  (validateAndSanitizeEmail v = Some t -> validateAndSanitizeEmail (VStr t) = Some t).
Proof.
  split; [|apply validate_idem]. split.
  - intros H. destruct (validate_inv _ _ H) as (e & -> & _ & Ht & T & L).
    exists e. repeat split; auto. now apply email_shape.
  - intros (e & -> & Ht & (local & Sh) & L).
    pose proof (shape_accepted _ _ Sh) as T.
    unfold validateAndSanitizeEmail. destruct e as [|c e].
    + exfalso. destruct Sh as (? & ? & ? & ? & ? & ? & ? & Hx & _).
      rewrite Ht in Hx. discriminate Hx.
    + cbv zeta. rewrite <- Ht, T. cbn [negb].
      destruct (254 <? length t) eqn:E; [|reflexivity].
      apply Nat.ltb_lt in E. lia.
Qed.

Lemma validator_accepts_shaped_addresses_witness :
  validateAndSanitizeEmail (VStr (lit "bob.smith@mail.example.org")) =
  Some (lit "bob.smith@mail.example.org").
Proof.
  apply (proj2 (validator_accepts_shaped_addresses
                  (VStr (lit "  Bob.Smith@Mail.Example.org "))
                  (lit "bob.smith@mail.example.org"))).
  vm_compute. reflexivity.
Defined.

(* ================================================================== *)
(** * The owner of a created task *)

Lemma lower_char_local c : local_class c = true -> is_upper c = false -> lower_char c = c.
Proof. destruct c as [[] [] [] [] [] [] [] []]; vm_compute; congruence. Qed.

Lemma toLowerCase_local s :
  Forall (fun c => local_class c = true) s -> Forall (fun c => is_upper c = false) s ->
  toLowerCase s = s.
Proof.
  induction 1 as [|c t Hc Ht IH]; intros U; [reflexivity|]. inversion U; subst.
  cbn [toLowerCase map]. rewrite (lower_char_local c Hc) by assumption.
  f_equal. now apply IH.
Qed.

(** X16. The owner of a created task. When the handler answers 200
    the recipient validated to an address whose local part, in lower
    case, equals the lower-cased identifier of the user the task was
    written for; that user is one of the store, and is the local part
    itself when the store has a user of exactly that identifier. *)
Theorem task_owner_matches_recipient parse tza now st req e :
  method req = lit "POST" ->
  normalize parse (body req) = Ok e ->
  status (fst (processEmailTask parse tza now st req)) = 200 ->
  exists sTo local owner t,
    validateAndSanitizeEmail (js_or (e_to e) (VStr [])) = Some sTo /\
    address_shape sTo local /\
    In owner (users st) /\ toLowerCase owner = local /\
    (In local (users st) -> owner = local) /\
    snd (processEmailTask parse tza now st req) = store_with st owner t.
Proof.
  intros Hm Hn. rewrite (process_post _ _ _ _ _ Hm), Hn.
  pose proof (respond_cases tza now st e) as C. cbv zeta in C.
  destruct C as [(_ & S & _)|(sFrom & sTo & userId & _ & VT & Hx & _ & C)].
  { rewrite S. discriminate. }
  destruct C as [(_ & ->)|[(_ & _ & ->)|(actual & _ & F & C)]]; try discriminate.
  destruct C as [(err & _ & ->)|(t & _ & C)]; try discriminate.
  destruct C as [(m & _ & ->)|[(_ & ->)|(_ & ->)]]; try discriminate.
  - cbn [fst]. intros S. exfalso.
    destruct (create_failed_cases userId (JsError PlainError m)) as ([K|[K|K]] & _);
      cbv zeta in K; rewrite K in S; discriminate.
  - intros _. cbn [snd].
    destruct (extract_after_validate _ _ VT) as (c & u & Hx' & Sh).
    assert (userId = c :: u) by congruence. subst userId.
    destruct (extract_user_id_spec _ _ Hx) as (_ & NU).
    destruct (find_user_some _ _ _ F) as (Hin & Hl & Hex).
    assert (L : toLowerCase (c :: u) = c :: u).
    { apply toLowerCase_local; [|exact NU].
      destruct Sh as (c' & run1 & ? & ? & ? & ? & ? & _ & Hloc & F1 & _).
      now rewrite Hloc. }
    exists sTo, (c :: u), actual, t. rewrite <- L at 2. repeat split; auto.
Qed.

Lemma task_owner_matches_recipient_witness :
  exists sTo local owner t,
    validateAndSanitizeEmail
      (js_or (e_to (extract_simple sample_mail)) (VStr [])) = Some sTo /\
    address_shape sTo local /\
    In owner (users sample_store) /\ toLowerCase owner = local /\
    (In local (users sample_store) -> owner = local) /\
    snd (processEmailTask json_parse utc_zone 0 sample_store
           {| method := lit "POST"; body := sample_mail |})
      = store_with sample_store owner t.
Proof.
  apply (task_owner_matches_recipient json_parse utc_zone 0%Z sample_store
           {| method := lit "POST"; body := sample_mail |} (extract_simple sample_mail)).
  - reflexivity.
  - vm_compute. reflexivity.
  - vm_compute. reflexivity.
Defined.

(* ================================================================== *)
(** * Where the extraction phase throws *)

Lemma preview_falsy_or_string name v : falsy_or_string v -> preview name v = Ok tt.
Proof.
  unfold preview. intros [H|H]; rewrite H; [reflexivity|].
  now rewrite andb_false_r.
Qed.

Lemma string_or_undefined_fs v : string_or_undefined v -> falsy_or_string v.
Proof. destruct v; simpl; try contradiction; intros _; [left|right]; reflexivity. Qed.

Lemma first_match_fs ps s old : falsy_or_string old -> falsy_or_string (first_match ps s old).
Proof.
  intros H. induction ps as [|p ps IH]; simpl; [exact H|].
  destruct (js_match false p s); [right; reflexivity|exact IH].
Qed.

Lemma pick_string_su v old : string_or_undefined old -> string_or_undefined (pick_string v old).
Proof. unfold pick_string. destruct v; simpl; auto. Qed.

Lemma take_headers_typed h e : headers_typed e -> headers_typed (take_headers h e).
Proof.
  intros (A & B & C). unfold headers_typed, take_headers. cbn [e_from e_to e_subject].
  repeat split; now apply pick_string_su.
Qed.

Lemma take_bodies_typed m e : headers_typed e -> headers_typed (take_bodies m e).
Proof. intros H. exact H. Qed.

(** The scan of an array-like object sets the three headers to strings
    only. *)
Lemma scan_array_like_typed parse items : forall e,
  headers_typed e -> headers_typed (scan_array_like parse items e).
Proof.
  induction items as [|item rest IH]; intros e H; [exact H|].
  cbn [scan_array_like].
  destruct (is_object item).
  - destruct (is_object (prop item "headers") && has_header_keys (prop item "headers"));
      [now apply take_headers_typed|].
    destruct (is_object (prop item "message")
              && is_object (prop (prop item "message") "headers"));
      [now apply take_headers_typed|].
    destruct (is_object (prop item "message")); destruct (has_header_keys item);
      try (apply take_headers_typed); try (apply IH); try (apply take_bodies_typed); exact H.
  - destruct (is_string item); [|now apply IH].
    destruct (parse (str_of item)) as [parsed|]; [|now apply IH].
    destruct (is_object parsed); [|now apply IH].
    destruct (is_object (prop parsed "headers")); [now apply take_headers_typed|].
    destruct (truthy (prop parsed "message")
              && is_object (prop (prop parsed "message") "headers"));
      [now apply take_headers_typed|].
    apply IH. now apply take_bodies_typed.
Qed.

Lemma array_like_stage_typed parse b e :
  headers_typed e -> headers_typed (array_like_stage parse b e).
Proof.
  intros H. unfold array_like_stage. destruct b; try exact H. cbv zeta.
  destruct (_ && _); [|exact H]. now apply scan_array_like_typed.
Qed.

Lemma headers_typed_previews e :
  falsy_or_string (e_from e) -> falsy_or_string (e_to e) -> falsy_or_string (e_subject e) ->
  bind (preview "from" (e_from e)) (fun _ =>
  bind (preview "to" (e_to e)) (fun _ =>
  bind (preview "subject" (e_subject e)) (fun _ => Ok e))) = Ok e.
Proof.
  intros A B C.
  rewrite (preview_falsy_or_string "from" _ A), (preview_falsy_or_string "to" _ B),
    (preview_falsy_or_string "subject" _ C). reflexivity.
Qed.

Lemma fallback_fs body e :
  falsy_or_string (e_from e) -> falsy_or_string (e_to e) -> falsy_or_string (e_subject e) ->
  falsy_or_string (e_from (extract_fallback body e)) /\
  falsy_or_string (e_to (extract_fallback body e)) /\
  falsy_or_string (e_subject (extract_fallback body e)).
Proof.
  intros A B C. unfold extract_fallback. cbv zeta. cbn [e_from e_to e_subject].
  repeat split; now apply first_match_fs.
Qed.

Lemma js_or_falsy a b : truthy a = false -> js_or a b = b.
Proof. unfold js_or. now intros ->. Qed.

Lemma js_or_truthy a b : truthy a = true -> js_or a b = a.
Proof. unfold js_or. now intros ->. Qed.

(** The last branch of the dispatch on an object whose recipient, from,
    to and subject are falsy. *)
Lemma extract_any_object parse props e :
  let b := VObj props in
  headers_typed e ->
  truthy (prop b "recipient") = false -> has_header_keys b = false ->
  (falsy_or_string (prop b "sender") -> exists e', extract_any parse b e = Ok e') /\
  (forall err, extract_any parse b e = Throw err ->
     err = JsError TypeError (lit "from.substring is not a function") /\
     truthy (prop b "sender") = true /\ typeof_string (prop b "sender") = false).
Proof.
  cbv zeta. intros (A & B & C) R Hh.
  unfold has_header_keys in Hh. apply orb_false_iff in Hh. destruct Hh as (Hh & Hs).
  apply orb_false_iff in Hh. destruct Hh as (Hf & Ht).
  unfold extract_any. cbn [massive_stage].
  replace (is_object (VObj props)) with true by reflexivity.
  replace (isArray (VObj props)) with false by reflexivity. cbn [negb]. rewrite !andb_true_r.
  destruct (none_of_three e) eqn:N3.
  2:{ rewrite N3.
      rewrite headers_typed_previews by now apply string_or_undefined_fs.
      split; [eauto|discriminate]. }
  set (e2 := extract_recipient (VObj props)).
  assert (E2t : e_to e2 = prop (VObj props) "to").
  { subst e2. cbn [extract_recipient e_to first_truthy]. now apply js_or_falsy. }
  assert (E2s : e_subject e2 = prop (VObj props) "subject") by reflexivity.
  destruct (truthy (prop (VObj props) "sender")) eqn:S.
  - assert (E2f : e_from e2 = prop (VObj props) "sender").
    { subst e2. cbn [extract_recipient e_from first_truthy]. now apply js_or_truthy. }
    replace (none_of_three e2) with false
      by (unfold none_of_three; now rewrite E2f, S).
    rewrite E2f, E2t, E2s.
    rewrite (preview_falsy_or_string "to" _ (or_introl Ht)),
      (preview_falsy_or_string "subject" _ (or_introl Hs)).
    unfold preview. rewrite S. cbn [andb].
    destruct (typeof_string (prop (VObj props) "sender")) eqn:Ts; cbv beta iota delta [negb bind].
    + split; [eauto|discriminate].
    + split.
      * intros [K|K]; congruence.
      * intros err K. injection K as <-. repeat split.
  - assert (E2f : e_from e2 = prop (VObj props) "from").
    { subst e2. cbn [extract_recipient e_from first_truthy]. now apply js_or_falsy. }
    replace (none_of_three e2) with true
      by (unfold none_of_three; now rewrite E2f, E2t, E2s, Hf, Ht, Hs).
    destruct (fallback_fs (VObj props) e2) as (F1 & F2 & F3);
      [left; now rewrite E2f|left; now rewrite E2t|left; now rewrite E2s|].
    rewrite (headers_typed_previews _ F1 F2 F3). split; [eauto|discriminate].
Qed.

(** On an object for which nothing has been extracted so far, a sender
    that is truthy and not a string becomes the [from] of the recipient
    format, and its preview throws. *)
Lemma extract_any_object_throws parse props e :
  let b := VObj props in
  none_of_three e = true ->
  truthy (prop b "sender") = true -> typeof_string (prop b "sender") = false ->
  extract_any parse b e = Throw (JsError TypeError (lit "from.substring is not a function")).
Proof.
  cbv zeta. intros N3 S Ts. unfold extract_any. cbn [massive_stage]. rewrite N3.
  replace (is_object (VObj props)) with true by reflexivity.
  replace (isArray (VObj props)) with false by reflexivity. cbn [negb andb].
  set (e2 := extract_recipient (VObj props)).
  assert (E2f : e_from e2 = prop (VObj props) "sender").
  { subst e2. cbn [extract_recipient e_from first_truthy]. now apply js_or_truthy. }
  replace (none_of_three e2) with false
    by (unfold none_of_three; now rewrite E2f, S).
  unfold preview at 1. now rewrite E2f, S, Ts.
Qed.

(** X17. An object body makes the extraction phase throw in exactly
    one situation: it has no event-data message, its recipient, from, to
    and subject are falsy, the scan of its numeric keys has set none of
    from, to and subject, and its sender is truthy and not a string. The
    error is then the TypeError of the preview, from.substring is not a
    function. In every other situation, in particular with a sender that
    is falsy or a string, the object body is extracted without a
    throw. *)
Theorem object_body_throws_only_on_sender parse props :
  let b := VObj props in
  let thrown := JsError TypeError (lit "from.substring is not a function") in
  let situation :=
    truthy (prop b "event-data") && truthy (prop (prop b "event-data") "message") = false /\
    truthy (prop b "recipient") = false /\ has_header_keys b = false /\
    none_of_three (array_like_stage parse b nothing) = true /\
    truthy (prop b "sender") = true /\ typeof_string (prop b "sender") = false in
  (situation -> normalize parse b = Throw thrown) /\
  (forall err, normalize parse b = Throw err -> err = thrown /\ situation) /\
  (~ situation -> exists e, normalize parse b = Ok e) /\
  (falsy_or_string (prop b "sender") -> exists e, normalize parse b = Ok e).
Proof.
  cbv zeta. rewrite normalize_object. unfold dispatch_stage. cbn [is_nullish].
  assert (T : headers_typed (array_like_stage parse (VObj props) nothing)).
  { apply array_like_stage_typed. repeat split. }
  assert (Back : forall err,
            (if truthy (prop (VObj props) "event-data")
                && truthy (prop (prop (VObj props) "event-data") "message")
             then Ok (extract_event_data (prop (prop (VObj props) "event-data") "message"))
             else if truthy (prop (VObj props) "recipient")
                  then Ok (extract_recipient (VObj props))
                  else if has_header_keys (VObj props)
                       then Ok (extract_simple (VObj props))
                       else extract_any parse (VObj props)
                              (array_like_stage parse (VObj props) nothing)) = Throw err ->
            err = JsError TypeError (lit "from.substring is not a function") /\
            truthy (prop (VObj props) "event-data")
              && truthy (prop (prop (VObj props) "event-data") "message") = false /\
            truthy (prop (VObj props) "recipient") = false /\
            has_header_keys (VObj props) = false /\
            none_of_three (array_like_stage parse (VObj props) nothing) = true /\
            truthy (prop (VObj props) "sender") = true /\
            typeof_string (prop (VObj props) "sender") = false).
  { intros err.
    destruct (truthy (prop (VObj props) "event-data") && _); [discriminate|].
    destruct (truthy (prop (VObj props) "recipient")) eqn:R; [discriminate|].
    destruct (has_header_keys (VObj props)) eqn:Hh; [discriminate|].
    intros K. destruct (extract_any_object parse props _ T R Hh) as (_ & B).
    destruct (B err K) as (B1 & B2 & B3). repeat split; auto.
    destruct (none_of_three (array_like_stage parse (VObj props) nothing)) eqn:N3;
      [reflexivity|].
    exfalso. revert K. unfold extract_any. cbn [massive_stage]. rewrite N3. cbn [andb].
    rewrite N3. destruct T as (T1 & T2 & T3).
    rewrite headers_typed_previews by now apply string_or_undefined_fs. discriminate. }
  split; [|split; [|split]].
  - intros (Ed & R & Hh & N3 & S & Ts). rewrite Ed, R, Hh.
    now apply extract_any_object_throws.
  - exact Back.
  - intros No.
    match goal with |- exists e, ?x = Ok e => destruct x as [e|err] eqn:K end;
      [eauto|].
    exfalso. apply No. exact (proj2 (Back err eq_refl)).
  - intros Fs.
    match goal with |- exists e, ?x = Ok e => destruct x as [e|err] eqn:K end;
      [eauto|].
    exfalso. destruct (Back err eq_refl) as (_ & _ & _ & _ & _ & S & Ts).
    destruct Fs; congruence.
Qed.

Lemma object_body_throws_only_on_sender_witness :
  normalize json_parse (obj [ ("sender", VNum 5); ("note", VStr (lit "hello")) ]%string) =
  Throw (JsError TypeError (lit "from.substring is not a function")).
Proof.
  apply (proj1 (object_body_throws_only_on_sender json_parse
           [ (lit "sender", VNum 5); (lit "note", VStr (lit "hello")) ])).
  repeat split; vm_compute; reflexivity.
Defined.

(* ================================================================== *)
(** * The reCAPTCHA callable and the cleaned body *)

(** X18. [verifyRecaptcha] never rejects with permission-denied: the
    HttpsError it throws for a failed verification is thrown inside the
    [try] block, whose [catch] replaces it by the internal error. With a
    token and an action that are truthy it returns the success object when
    the verification succeeds and rejects with internal otherwise; with a
    falsy token or action it rejects with invalid-argument. *)
Theorem recaptcha_failure_is_reported_as_internal verify data :
  let token := prop data "token" in
  let action := prop data "action" in
  (forall m, verifyRecaptcha verify data <>
             Rejects (HttpsError (lit "permission-denied") m)) /\
  (is_nullish data = false -> truthy token && truthy action = false ->
   verifyRecaptcha verify data =
     Rejects (HttpsError (lit "invalid-argument") (lit "Token and action are required"))) /\
  (is_nullish data = false -> truthy token && truthy action = true ->
   verifyRecaptcha verify data =
     if verify token action
     then Returns (obj [ ("success", VBool true);
                         ("message", VStr (lit "reCAPTCHA verified successfully")) ]%string)
     else Rejects (HttpsError (lit "internal") (lit "Failed to verify reCAPTCHA"))).
Proof.
  cbv zeta. unfold verifyRecaptcha. cbv zeta.
  destruct (is_nullish data).
  { split; [intros m; discriminate|]. split; discriminate. }
  destruct (truthy (prop data "token")), (truthy (prop data "action")); cbn [negb orb andb];
    (split; [|split; intros _ H; try discriminate H; try reflexivity]);
    try (intros m; discriminate).
  - intros m. destruct (verify _ _); discriminate.
  - destruct (verify _ _); reflexivity.
Qed.

Lemma recaptcha_failure_is_reported_as_internal_witness :
  verifyRecaptcha (fun _ _ => false)
    (obj [ ("token", VStr (lit "abc")); ("action", VStr (lit "login")) ]%string) =
  Rejects (HttpsError (lit "internal") (lit "Failed to verify reCAPTCHA")).
Proof.
  apply (proj2 (proj2 (recaptcha_failure_is_reported_as_internal (fun _ _ => false)
           (obj [ ("token", VStr (lit "abc")); ("action", VStr (lit "login")) ]%string))));
    reflexivity.
Defined.

Lemma trimmed_str_or a b : trimmed a -> trimmed b -> trimmed (str_or a b).
Proof. destruct a; simpl; auto. Qed.

Lemma str_or_nonempty a b : b <> [] -> str_or a b <> [].
Proof. destruct a; simpl; [auto|discriminate]. Qed.

Lemma trim_nil : trim [] = [].
Proof. reflexivity. Qed.

(** [cleanEmailBody] in terms of the values it computes on the way. *)
Lemma cleanEmailBody_eq body :
  cleanEmailBody body =
  if length (cleaned_of body) <? 50 then
    match firstParagraph_of body with
    | Some [] => str_or (cleaned_of body) placeholder
    | Some p => str_or (trim p) placeholder
    | None => str_or (cleaned_of body) placeholder
    end
  else str_or (cleaned_of body) placeholder.
Proof. reflexivity. Qed.

(** X19. The cleaned body is never empty and has no white space at
    either end, and it is one of three texts. When the text left by the
    replacements and the trim has 50 code units or more, it is that
    text. When it has fewer, the result is the trimmed first paragraph of
    the body without tags (the pieces between blank lines) that has more
    than 20 code units once trimmed, if there is one: the placeholder of
    that branch is never used. Otherwise it is the text left by the
    replacements, or the placeholder No description provided when that
    text is empty. *)
Theorem cleaned_body_is_never_empty body :
  let result := cleanEmailBody body in
  result <> [] /\ trimmed result /\
  (50 <= length (cleaned_of body) -> result = cleaned_of body) /\
  (length (cleaned_of body) < 50 ->
   forall p, firstParagraph_of body = Some p ->
     In p (js_split false blankLine (textOnly_of body)) /\
     result = trim p /\ 20 < length result) /\
  (length (cleaned_of body) < 50 -> firstParagraph_of body = None ->
   (cleaned_of body = [] -> result = lit "No description provided") /\
   (cleaned_of body <> [] -> result = cleaned_of body)).
Proof.
  cbv zeta.
  assert (P : placeholder <> [] /\ trimmed placeholder).
  { split; [discriminate|split; reflexivity]. }
  destruct P as (P1 & P2).
  assert (T : trimmed (cleaned_of body)) by apply trim_trimmed.
  assert (Par : forall p, firstParagraph_of body = Some p ->
            In p (js_split false blankLine (textOnly_of body)) /\
            20 < length (trim p) /\ p <> []).
  { intros p H. apply find_some in H. destruct H as (I & H).
    apply Nat.ltb_lt in H. repeat split; [exact I|exact H|].
    intros ->. rewrite trim_nil in H. cbn [length] in H. lia. }
  rewrite cleanEmailBody_eq.
  destruct (length (cleaned_of body) <? 50) eqn:L;
    [apply Nat.ltb_lt in L|apply Nat.ltb_ge in L].
  - destruct (firstParagraph_of body) as [p|] eqn:F.
    + destruct (Par p eq_refl) as (I & G & N).
      assert (E : match p with
                  | [] => str_or (cleaned_of body) placeholder
                  | _ :: _ => str_or (trim p) placeholder
                  end = trim p).
      { destruct p as [|c p']; [congruence|].
        destruct (trim (c :: p')) as [|d l] eqn:Et; [cbn [length] in G; lia|reflexivity]. }
      rewrite E. split; [|split; [|split; [|split]]].
      * intros Z. rewrite Z in G. cbn [length] in G. lia.
      * apply trim_trimmed.
      * lia.
      * intros _ q Hq. injection Hq as <-. auto.
      * discriminate.
    + split; [|split; [|split; [|split]]].
      * now apply str_or_nonempty.
      * now apply trimmed_str_or.
      * lia.
      * discriminate.
      * intros _ _. split.
        -- intros ->. reflexivity.
        -- intros N. destruct (cleaned_of body); [congruence|reflexivity].
  - assert (N : cleaned_of body <> []).
    { intros Z. rewrite Z in L. cbn [length] in L. lia. }
    assert (E : str_or (cleaned_of body) placeholder = cleaned_of body).
    { destruct (cleaned_of body); [congruence|reflexivity]. }
    rewrite E. split; [exact N|]. split; [exact T|]. split; [reflexivity|].
    split; intros; lia.
Qed.

Lemma cleaned_body_is_never_empty_witness :
  cleanEmailBody (lit "> this is a long quoted line of text" ++ LF :: LF :: lit "My reply.")
  = lit "> this is a long quoted line of text".
Proof.
  refine (proj1 (proj2 (proj1 (proj2 (proj2 (proj2
            (cleaned_body_is_never_empty
               (lit "> this is a long quoted line of text"
                ++ LF :: LF :: lit "My reply."))))) _
            (lit "> this is a long quoted line of text") _))).
  - apply Nat.ltb_lt. vm_compute. reflexivity.
  - vm_compute. reflexivity.
Defined.

(* ================================================================== *)
(** * Failures of the handler and of the extraction phase *)

(** X20. A due marker that denotes no date rejects the whole email.
    When the fields validate, the user is found and the subject carries a
    due marker whose digits give an Invalid Date, the handler answers 500
    with Error parsing email content and the message of the RangeError,
    and writes nothing: the logging call that formats the date throws
    before the task draft exists. *)
Theorem invalid_due_date_rejects_email parse tza now st req e sFrom sTo userId actual :
  method req = lit "POST" ->
  normalize parse (body req) = Ok e ->
  validateAndSanitizeEmail (js_or (e_from e) (VStr [])) = Some sFrom ->
  validateAndSanitizeEmail (js_or (e_to e) (VStr [])) = Some sTo ->
  extractUserIdFromEmail (VStr sTo) = Some userId ->
  fault st <> LookupRejects ->
  find_user st userId = Some actual ->
  extractDueDateFromSubject tza now
    (cleanSubjectOf
       (sanitizeSubject (VStr (sanitizeSubject (js_or (e_subject e) (VStr []))))))
    = Some InvalidDate ->
  processEmailTask parse tza now st req =
    ({| status := 500;
        payload := failure "Error parsing email content"
                     (obj [ ("error", VStr (lit "Invalid time value")) ]%string) |}, st).
Proof.
  intros Hm Hn VF VT Hx Hl F D.
  rewrite (process_post _ _ _ _ _ Hm), Hn.
  pose proof (respond_cases tza now st e) as C. cbv zeta in C.
  rewrite VF, VT in C.
  destruct C as [([C|C] & _)|(sFrom' & sTo' & userId' & E1 & E2 & Hx' & _ & C)];
    try discriminate.
  injection E1 as <-. injection E2 as <-.
  assert (userId' = userId) by congruence. subst userId'.
  destruct C as [(C & _)|[(_ & C & _)|(actual' & _ & _ & C)]]; try congruence.
  pose proof (parse_throws_on_invalid_date tza now (message_of now e sFrom sTo) D) as P.
  destruct C as [(err & P' & ->)|(t & P' & _)]; [|congruence].
  assert (err = JsError RangeError (lit "Invalid time value")) by congruence. subst err.
  reflexivity.
Qed.

Lemma invalid_due_date_rejects_email_witness :
  processEmailTask json_parse utc_zone 0 sample_store
    {| method := lit "POST";
       body := obj [ ("from", VStr (lit "alice@example.com"));
                     ("to", VStr (lit "johndoe@tasks.example.com"));
                     ("subject", VStr (lit "Pay rent due: 2024-13-45")) ]%string |} =
  ({| status := 500;
      payload := failure "Error parsing email content"
                   (obj [ ("error", VStr (lit "Invalid time value")) ]%string) |},
   sample_store).
Proof.
  apply (invalid_due_date_rejects_email json_parse utc_zone 0%Z sample_store
           {| method := lit "POST";
              body := obj [ ("from", VStr (lit "alice@example.com"));
                            ("to", VStr (lit "johndoe@tasks.example.com"));
                            ("subject", VStr (lit "Pay rent due: 2024-13-45")) ]%string |}
           {| e_from := VStr (lit "alice@example.com");
              e_to := VStr (lit "johndoe@tasks.example.com");
              e_subject := VStr (lit "Pay rent due: 2024-13-45");
              e_text := VUndef; e_html := VUndef |}
           (lit "alice@example.com") (lit "johndoe@tasks.example.com")
           (lit "johndoe") (lit "JohnDoe")).
  - reflexivity.
  - vm_compute. reflexivity.
  - vm_compute. reflexivity.
  - vm_compute. reflexivity.
  - vm_compute. reflexivity.
  - discriminate.
  - vm_compute. reflexivity.
  - vm_compute. reflexivity.
Defined.

(** A body that is neither an object nor [null] nor [undefined] has none
    of the properties the dispatch reads. *)
Lemma no_fields b :
  match b with
  | VObj _ | VUndef | VNull => True
  | _ => truthy (prop b "event-data") = false /\ truthy (prop b "recipient") = false /\
         has_header_keys b = false
  end.
Proof.
  destruct b as [| |x|z|s|items|props]; try exact I; repeat split; reflexivity.
Qed.

(** The last branch of the dispatch on a body that is not a plain object
    and not a massive array: the fields found so far, or the fallback. *)
Lemma extract_any_plain parse b e :
  headers_typed e ->
  is_object b && negb (isArray b) = false ->
  (forall items, b = VArr items -> length items <= 1000) ->
  extract_any parse b e = Ok (if none_of_three e then extract_fallback b e else e).
Proof.
  intros (A & B & C) O L. unfold extract_any.
  assert (M : massive_stage parse b e = (b, e)).
  { destruct b as [| |x|z|s|items|props]; try reflexivity. cbn [massive_stage].
    replace (1000 <? length items) with false; [reflexivity|].
    symmetry. apply Nat.ltb_ge. now apply L. }
  rewrite M, <- andb_assoc, O, andb_false_r.
  apply string_or_undefined_fs in A, B, C.
  destruct (none_of_three e).
  - destruct (fallback_fs b e A B C) as (F1 & F2 & F3).
    now apply headers_typed_previews.
  - now apply headers_typed_previews.
Qed.

Lemma extract_large_array_typed b e : headers_typed e -> headers_typed (extract_large_array b e).
Proof.
  intros (A & B & C). unfold extract_large_array, headers_typed. cbv zeta.
  cbn [e_from e_to e_subject]. repeat split; now apply set_if_string.
Qed.

Lemma has_email_keys_array items : has_email_keys (VArr items) = false.
Proof. unfold has_email_keys. now rewrite !prop_of_array by reflexivity. Qed.

Lemma not_plain_object b :
  match b with VObj _ => False | _ => True end ->
  is_object b && negb (isArray b) = false.
Proof.
  destruct b as [| |x|z|s|items|props]; try contradiction; intros _; try reflexivity.
  - unfold is_object. cbn [typeof_object]. now rewrite andb_false_r.
  - unfold is_object. cbn [typeof_object]. now rewrite !andb_false_r.
  - unfold is_object. cbn [typeof_object]. now rewrite !andb_false_r.
Qed.

(** The format dispatch throws on [null] and [undefined], and on an
    object whose sender is truthy and not a string. *)
Lemma dispatch_throws parse b e err :
  headers_typed e ->
  (forall items, b = VArr items -> length items <= 1000) ->
  dispatch_stage parse b (array_like_stage parse b e) = Throw err ->
  (is_nullish b = true /\
   err = JsError TypeError
           (lit "Cannot read properties of "
            ++ match b with VNull => lit "null" | _ => lit "undefined" end
            ++ lit " (reading 'event-data')")) \/
  (err = JsError TypeError (lit "from.substring is not a function") /\
   exists props, b = VObj props /\
     truthy (prop b "sender") = true /\ typeof_string (prop b "sender") = false).
Proof.
  intros T L. unfold dispatch_stage.
  destruct (is_nullish b) eqn:Nl.
  { intros H. injection H as <-. left. split; reflexivity. }
  pose proof (array_like_stage_typed parse b e T) as T'.
  assert (P : match b with VObj _ => False | _ => True end ->
              truthy (prop b "event-data") = false /\ truthy (prop b "recipient") = false /\
              has_header_keys b = false).
  { pose proof (no_fields b) as NF.
    destruct b as [| |x|z|s|items|props]; try discriminate Nl; try contradiction;
      intros _; exact NF. }
  destruct b as [| |x|z|s|items|props]; try discriminate Nl.
  1-4: destruct (P I) as (-> & -> & ->); cbn [andb];
       rewrite extract_any_plain by (auto using not_plain_object; exact I);
       discriminate.
  clear P.
  destruct (truthy (prop (VObj props) "event-data") && _); [discriminate|].
  destruct (truthy (prop (VObj props) "recipient")) eqn:R; [discriminate|].
  destruct (has_header_keys (VObj props)) eqn:Hh; [discriminate|].
  intros K. destruct (extract_any_object parse props _ T' R Hh) as (_ & B).
  destruct (B err K) as (B1 & B2 & B3). right. split; [exact B1|].
  exists props. auto.
Qed.

(** X21. Apart from arrays of more than 1000 items, the extraction
    phase can throw in two ways only. Either the body, after the JSON
    parse of a string body, is [null] or [undefined], and the error is
    the TypeError of the unguarded property read; or the working body
    (the body itself, or the item adopted from an array of at most 100
    items) is an object whose sender is truthy and not a string, and the
    error is the TypeError of the preview. *)
Theorem extraction_throws_in_two_ways parse b err :
  let p := parse_body parse b in
  let w := fst (array_stage parse p nothing) in
  (forall items, p = VArr items -> length items <= 1000) ->
  normalize parse b = Throw err ->
  (is_nullish p = true /\
   err = JsError TypeError
           (lit "Cannot read properties of "
            ++ match p with VNull => lit "null" | _ => lit "undefined" end
            ++ lit " (reading 'event-data')")) \/
  (err = JsError TypeError (lit "from.substring is not a function") /\
   exists props, w = VObj props /\
     truthy (prop w "sender") = true /\ typeof_string (prop w "sender") = false).
Proof.
  cbv zeta. intros L. unfold normalize. cbv zeta.
  remember (parse_body parse b) as p eqn:Ep. clear Ep.
  assert (T0 : headers_typed nothing) by (repeat split).
  destruct p as [| |x|z|s|items|props];
    try (cbn [array_stage fst]; intros K;
         match type of K with
         | dispatch_stage _ ?w _ = _ =>
             destruct (dispatch_throws parse w nothing err T0 ltac:(discriminate) K)
               as [D|D]
         end; [left; exact D|right; exact D]).
  - (* an array *)
    cbn [array_stage]. destruct (length items <=? 100) eqn:Small.
    + destruct (scan_small_array parse items) as [item|] eqn:Sc; cbn [fst].
      * intros K. apply scan_small_array_some in Sc. destruct Sc as (Ob & _).
        assert (La : forall l, item = VArr l -> length l <= 1000).
        { intros l ->. rewrite has_email_keys_array, andb_false_r in Ob. discriminate. }
        destruct (dispatch_throws parse item nothing err T0 La K) as [(D & _)|D].
        -- exfalso. unfold is_object in Ob. destruct item; try discriminate D;
             discriminate Ob.
        -- right. exact D.
      * intros K.
        destruct (dispatch_throws parse (VArr items) nothing err T0
                    L K)
          as [(D & _)|(_ & props & D & _)]; discriminate.
    + cbn [fst]. intros K.
      destruct (dispatch_throws parse (VArr items) _ err
                  (extract_large_array_typed (VArr items) nothing T0)
                  L K)
        as [(D & _)|(_ & props & D & _)]; discriminate.
Qed.

Lemma extraction_throws_in_two_ways_witness :
  (is_nullish (parse_body json_parse (VStr (lit "null"))) = true /\
   JsError TypeError (lit "Cannot read properties of null (reading 'event-data')") =
   JsError TypeError
     (lit "Cannot read properties of "
      ++ match parse_body json_parse (VStr (lit "null")) with
         | VNull => lit "null" | _ => lit "undefined" end
      ++ lit " (reading 'event-data')")) \/
  (JsError TypeError (lit "Cannot read properties of null (reading 'event-data')") =
   JsError TypeError (lit "from.substring is not a function") /\
   exists props,
     fst (array_stage json_parse (parse_body json_parse (VStr (lit "null"))) nothing)
       = VObj props /\
     truthy (prop (fst (array_stage json_parse
                          (parse_body json_parse (VStr (lit "null"))) nothing)) "sender")
       = true /\
     typeof_string (prop (fst (array_stage json_parse
                                 (parse_body json_parse (VStr (lit "null"))) nothing))
                      "sender") = false).
Proof.
  apply (extraction_throws_in_two_ways json_parse (VStr (lit "null"))
           (JsError TypeError (lit "Cannot read properties of null (reading 'event-data')"))).
  - intros items H. vm_compute in H. discriminate H.
  - vm_compute. reflexivity.
Defined.

(* ================================================================== *)
(** * Bodies that pass through the cleaner and the sanitizer *)

(** A match whose continuation fails wherever it can be called fails:
    [Q] holds of the input and of every input left after reading code
    units. *)
Lemma rmatch_fails (Q : jsstr -> Prop) ml r :
  (forall c t, Q (c :: t) -> Q t) ->
  forall prev s cs k,
    Q s -> (forall p' s' cs', Q s' -> k p' s' cs' = None) ->
    rmatch ml r prev s cs k = None.
Proof.
  intros Qt. induction r as [|p|a IHa b IHb|a IHa b IHb|g a IHa|i a IHa| | |a IHa];
    intros prev s cs k Hq Hk.
  - now apply Hk.
  - cbn [rmatch]. destruct s as [|c t]; [reflexivity|]. destruct (p c); [|reflexivity].
    apply Hk. now apply (Qt c).
  - cbn [rmatch]. apply IHa; [exact Hq|]. intros p' s' cs' Hq'. now apply IHb.
  - cbn [rmatch]. rewrite IHa by assumption. now apply IHb.
  - change (rmatch ml (Star g a) prev s cs k) with
      ((fix loop (fuel : nat) (prev : option ascii) (s : jsstr) (cs : caps)
          {struct fuel} : outcome :=
          match fuel with
          | O => k prev s cs
          | S f =>
              let again (_ : unit) :=
                rmatch ml a prev s cs
                  (fun p' s' cs' =>
                     if length s' <? length s then loop f p' s' cs' else None) in
              if g then
                match again tt with Some x => Some x | None => k prev s cs end
              else
                match k prev s cs with Some x => Some x | None => again tt end
          end) (S (length s)) prev s cs).
    generalize (S (length s)) as fuel. intros fuel. revert prev s cs Hq.
    induction fuel as [|f IHf]; intros prev s cs Hq; [now apply Hk|].
    cbv zeta. rewrite (Hk prev s cs Hq).
    rewrite IHa; [destruct g; reflexivity|exact Hq|].
    intros p' s' cs' Hq'. destruct (length s' <? length s); [|reflexivity].
    now apply IHf.
  - cbn [rmatch]. apply IHa; [exact Hq|]. intros p' s' cs' Hq'. now apply Hk.
  - cbn [rmatch]. destruct (at_bol ml prev); [now apply Hk|reflexivity].
  - cbn [rmatch]. destruct (at_eol ml s); [now apply Hk|reflexivity].
  - cbn [rmatch]. destruct (rmatch ml a prev s cs _) as [[cs' n]|]; [now apply Hk|reflexivity].
Qed.

(** A global replacement leaves a string without a match as it is. *)
Lemma replace_all_none ml r rep : forall s prev,
  (forall pre post, s = pre ++ post -> exec_at ml r (prev_after prev pre) post = None) ->
  replace_go ml r rep prev s 0 = s.
Proof.
  induction s as [|c t IH]; intros prev H; cbn [replace_go].
  - specialize (H [] [] eq_refl). rewrite prev_after_nil in H. now rewrite H.
  - pose proof (H [] (c :: t) eq_refl) as H0. rewrite prev_after_nil in H0. rewrite H0.
    f_equal. apply IH. intros pre post E. specialize (H (c :: pre) post).
    rewrite prev_after_cons in H. apply H. now rewrite E.
Qed.

Lemma replace_first_none ml r rep s :
  (forall pre post, s = pre ++ post -> exec_at ml r (prev_after None pre) post = None) ->
  replace_first ml r rep s = s.
Proof.
  intros H. unfold replace_first, js_match.
  now rewrite (proj2 (search_from_none ml r s None) H).
Qed.

Lemma split_go_none ml r : forall s prev piece,
  (forall pre post, s = pre ++ post -> exec_at ml r (prev_after prev pre) post = None) ->
  split_go ml r prev s 0 piece = [rev piece ++ s].
Proof.
  induction s as [|c t IH]; intros prev piece H; cbn [split_go].
  - now rewrite app_nil_r.
  - pose proof (H [] (c :: t) eq_refl) as H0. rewrite prev_after_nil in H0. rewrite H0.
    rewrite IH.
    + cbn [rev]. now rewrite <- app_assoc.
    + intros pre post E. specialize (H (c :: pre) post).
      rewrite prev_after_cons in H. apply H. now rewrite E.
Qed.

Lemma js_split_none ml r s :
  s <> [] ->
  (forall pre post, s = pre ++ post -> exec_at ml r (prev_after None pre) post = None) ->
  js_split ml r s = [s].
Proof.
  intros N H. unfold js_split. destruct s as [|c t]; [congruence|].
  now rewrite split_go_none.
Qed.

(** A pattern that starts with a class fails where no code unit of the
    class stands. *)
Lemma exec_first_class ml p X prev s :
  match s with [] => True | c :: _ => p c = false end ->
  exec_at ml (Seq (Cls p) X) prev s = None.
Proof.
  intros H. unfold exec_at. rewrite r_seq, r_cls. destruct s as [|c t]; [reflexivity|].
  now rewrite H.
Qed.

Lemma Forall_suffix (A : Type) (P : A -> Prop) (pre post : list A) :
  Forall P (pre ++ post) -> Forall P post.
Proof. intros H. apply Forall_app in H. tauto. Qed.

Lemma replace_all_first_class ml p X rep s :
  Forall (fun c => p c = false) s ->
  replace_all ml (Seq (Cls p) X) rep s = s.
Proof.
  intros F. unfold replace_all. apply replace_all_none. intros pre post ->.
  apply exec_first_class. apply Forall_suffix in F. destruct post; [exact I|].
  now inversion F.
Qed.

Lemma eat_prev ps prev prev' s : eat ps prev s = None -> eat ps prev' s = None.
Proof.
  destruct ps as [|p ps]; [discriminate|]. cbn [eat]. destruct s as [|c t]; auto.
Qed.

(** Whether one of several literal patterns matches at a position does
    not depend on the flags, the code unit before or the continuation. *)
Lemma words_fail ws : forall ml ml' prev prev' s cs cs' k,
  rmatch ml (alts (map word_i ws)) prev s cs (fun _ s' c' => Some (c', length s')) = None ->
  rmatch ml' (alts (map word_i ws)) prev' s cs' k = None.
Proof.
  assert (W : forall w ml ml' prev prev' s cs cs' k,
            rmatch ml (word_i w) prev s cs (fun _ s' c' => Some (c', length s')) = None ->
            rmatch ml' (word_i w) prev' s cs' k = None).
  { intros w ml ml' prev prev' s cs cs' k. rewrite !word_i_cls, !rmatch_seqs_cls.
    destruct (eat _ prev s) as [[p' s']|] eqn:E; [discriminate|].
    intros _. now rewrite (eat_prev _ prev prev' s E). }
  induction ws as [|w ws IH]; intros ml ml' prev prev' s cs cs' k H.
  - cbn [map alts rmatch]. destruct s; reflexivity.
  - destruct ws as [|w2 ws'].
    + cbn [map alts] in *. eapply W; exact H.
    + change (alts (map word_i (w :: w2 :: ws')))
        with (Alt (word_i w) (alts (map word_i (w2 :: ws')))) in *.
      rewrite r_alt in *.
      destruct (rmatch ml (word_i w) prev s cs _) eqn:E; [discriminate|].
      rewrite (W _ _ ml' _ prev' _ _ cs' k E). eapply IH; exact H.
Qed.

Lemma test_false_everywhere r s :
  js_test false r s = false ->
  forall pre post, s = pre ++ post -> exec_at false r (prev_after None pre) post = None.
Proof.
  intros H. apply js_test_false_match in H. unfold js_match in H.
  now apply (proj1 (search_from_none false r s None)).
Qed.

(** A pattern [^.*?(?=words)] finds nothing in a text where none of the
    words occurs. *)
Lemma lookahead_none ws s :
  js_test false (alts (map word_i ws)) s = false ->
  forall pre post prev, s = pre ++ post ->
    exec_at true (seqs [ Bol; Star false dot; Ahead (alts (map word_i ws)) ]) prev post = None.
Proof.
  intros H pre post prev E. unfold exec_at. cbn [seqs].
  rewrite <- r_seq_assoc, r_seq.
  apply (rmatch_fails (fun x => exists p, s = p ++ x)).
  - intros c t (p & ->). exists (p ++ [c]). now rewrite <- app_assoc.
  - now exists pre.
  - intros p' s' cs' (p & Hp). cbn [rmatch].
    rewrite (words_fail ws false true (prev_after None p) p' s' [] cs' _
               (test_false_everywhere _ _ H p s' Hp)).
    reflexivity.
Qed.

Lemma chars_absent s :
  Forall (fun c => is_control c = false /\ existsb (ascii_eqb c) (lit "<>&") = false) s ->
  Forall (fun c => ascii_eqb "<" c = false) s /\
  Forall (fun c => ascii_eqb ">" c = false) s /\
  Forall (fun c => ascii_eqb "&" c = false) s /\
  Forall (fun c => ascii_eqb LF c = false) s /\
  Forall (fun c => is_line_terminator c = false) s /\
  Forall plain_char s.
Proof.
  intros F. repeat split; (eapply Forall_impl; [|exact F]); intros c; cbv beta;
    destruct c as [[] [] [] [] [] [] [] []]; vm_compute; intuition congruence.
Qed.

Lemma prev_after_in pre x : prev_after None pre = Some x -> In x pre.
Proof.
  unfold prev_after. destruct (rev pre) as [|c l] eqn:E; [discriminate|].
  intros H. injection H as <-. apply in_rev. rewrite E. now left.
Qed.

(** The pattern that trims every line finds nothing in a one-line text
    without white space at either end. *)
Lemma line_trim_none s :
  s <> [] -> trimmed s -> Forall (fun c => is_line_terminator c = false) s ->
  forall pre post, s = pre ++ post ->
    exec_at true (Alt (Seq Bol (plus ws)) (Seq (plus ws) Eol)) (prev_after None pre) post
    = None.
Proof.
  intros N (T1 & T2) F pre post E. unfold exec_at. rewrite r_alt.
  assert (A : rmatch true (Seq Bol (plus ws)) (prev_after None pre) post []
                (fun _ s' cs' => Some (cs', length s')) = None).
  { rewrite r_seq, r_bol. destruct (prev_after None pre) as [x|] eqn:P.
    - apply prev_after_in in P. cbn [at_bol andb].
      assert (is_line_terminator x = false) as ->; [|reflexivity].
      rewrite Forall_forall in F. apply F. rewrite E. apply in_or_app. now left.
    - cbn [at_bol]. destruct pre as [|c pre].
      + cbn [app] in E. subst post. unfold plus, ws. rewrite r_seq, r_cls.
        destruct s as [|c t]; [reflexivity|]. cbn [no_leading_space] in T1. now rewrite T1.
      + destruct (prev_after_some None (c :: pre)) as (y & Hy); [discriminate|]. congruence. }
  rewrite A. clear A.
  destruct (rmatch true (Seq (plus ws) Eol) _ post [] _) as [x|] eqn:R; [|reflexivity].
  exfalso. unfold plus, ws in R. rewrite r_seq_assoc in R.
  apply cls_step in R. destruct R as (c & t & -> & Hc & R).
  apply star_step in R. destruct R as (run & rest & -> & Fr & R).
  rewrite r_eol in R. destruct rest as [|z rest].
  - rewrite app_nil_r in E.
    assert (Fs : Forall (fun c => is_space c = true) (rev (c :: run))).
    { apply Forall_rev. now constructor. }
    rewrite E, rev_app_distr in T2.
    destruct (rev (c :: run)) as [|y l] eqn:Er.
    + apply (f_equal (@length ascii)) in Er. rewrite length_rev in Er. discriminate.
    + inversion Fs; subst. cbn [app no_leading_space] in T2. congruence.
  - cbn [at_eol andb] in R.
    assert (is_line_terminator z = false) as Hz.
    { rewrite Forall_forall in F. apply F. rewrite E.
      apply in_or_app. right. right. apply in_or_app. right. now left. }
    rewrite Hz in R. discriminate.
Qed.

Lemma trim_first_class p X s :
  Forall (fun c => p c = false) s ->
  forall pre post prev, s = pre ++ post ->
    exec_at true (Seq Bol (Seq (Cls p) X)) prev post = None.
Proof.
  intros F pre post prev ->. unfold exec_at. rewrite r_seq, r_bol.
  destruct (at_bol true prev); [|reflexivity].
  apply (exec_first_class true p X prev). apply Forall_suffix in F.
  destruct post; [exact I|]. now inversion F.
Qed.

Lemma signature_none s :
  Forall (fun c => ascii_eqb LF c = false) s ->
  forall pre post prev, s = pre ++ post ->
    exec_at true (seqs [ word "--"; Star true ws; chr LF; Star true dot; Eol ]) prev post
    = None.
Proof.
  intros F pre post prev ->. unfold exec_at. cbn [seqs].
  rewrite <- r_seq_assoc, r_seq.
  apply (rmatch_fails (fun x => Forall (fun c => ascii_eqb LF c = false) x)).
  - intros c t H. now inversion H.
  - now apply Forall_suffix in F.
  - intros p' s' cs' H. unfold chr. rewrite r_seq, r_cls.
    destruct s' as [|c t]; [reflexivity|]. inversion H; subst. now rewrite H2.
Qed.

(** The body cleaner returns an ordinary text as it is. *)
Lemma cleanEmailBody_ordinary s : ordinary_text s -> cleanEmailBody s = s.
Proof.
  intros (N & T & L & F & H1 & H2).
  destruct (chars_absent s F) as (Flt & Fgt & Famp & Flf & Fterm & _).
  unfold cleanEmailBody. cbv zeta.
  assert (E1 : replace_all false (seqs [ chr "<"; Star true (none_of ">"); chr ">" ]) [] s = s).
  { cbn [seqs]. unfold chr. now apply replace_all_first_class. }
  rewrite E1.
  assert (E2 : replace_all true (seqs [ Bol; Star false dot; Ahead headerLabels ]) [] s = s).
  { unfold replace_all. apply replace_all_none. intros pre post E.
    apply (lookahead_none [ "From:"; "To:"; "Subject:"; "Date:"; "Sent:"; "Cc:"; "Bcc:" ]%string
             s H1 pre post _ E). }
  rewrite E2.
  assert (E3 : replace_all true (seqs [ Bol; chr ">"; Star true dot; Eol ]) [] s = s).
  { unfold replace_all. apply replace_all_none. intros pre post E.
    cbn [seqs]. unfold chr. now apply (trim_first_class _ _ s Fgt pre). }
  rewrite E3.
  assert (E4 : replace_first true
                 (seqs [ word "--"; Star true ws; chr LF; Star true dot; Eol ]) [] s = s).
  { apply replace_first_none. intros pre post E. now apply (signature_none s Flf pre). }
  rewrite E4.
  assert (E5 : replace_all true (seqs [ Bol; Star false dot; Ahead forwardMarkers ]) [] s = s).
  { unfold replace_all. apply replace_all_none. intros pre post E.
    apply (lookahead_none [ "Original Message"; "From:"; "Sent:" ]%string s H2 pre post _ E). }
  rewrite E5.
  assert (E6 : replace_all false blankLine [LF; LF] s = s).
  { unfold blankLine. cbn [seqs]. unfold chr. now apply replace_all_first_class. }
  rewrite E6.
  assert (E7 : replace_all true (Alt (Seq Bol (plus ws)) (Seq (plus ws) Eol)) [] s = s).
  { unfold replace_all. apply replace_all_none. intros pre post E.
    exact (line_trim_none s N T Fterm pre post E). }
  rewrite E7, (trim_of_trimmed s T).
  assert (S1 : js_split false blankLine s = [s]).
  { apply js_split_none; [exact N|]. intros pre post E. unfold blankLine. cbn [seqs].
    unfold chr. apply exec_first_class. rewrite E in Flf. apply Forall_suffix in Flf.
    destruct post; [exact I|]. now inversion Flf. }
  rewrite S1. cbn [find]. rewrite (trim_of_trimmed s T).
  destruct s as [|c t]; [congruence|]. cbn [str_or].
  destruct (length (c :: t) <? 50); [|reflexivity].
  destruct (20 <? length (c :: t)); [|reflexivity].
  cbv iota. now rewrite (trim_of_trimmed _ T).
Qed.

Lemma amp_none e s :
  Forall (fun c => ascii_eqb "&" c = false) s ->
  forall rep, replace_all false (Seq (chr "&") e) rep s = s.
Proof. intros F rep. unfold chr. now apply replace_all_first_class. Qed.

(** The text sanitizer returns an ordinary text as it is. *)
Lemma sanitizeTextContent_ordinary s : ordinary_text s -> sanitizeTextContent (VStr s) = s.
Proof.
  intros (N & T & L & F & _).
  destruct (chars_absent s F) as (_ & _ & Famp & _ & _ & P).
  rewrite sanitizeTextContent_str, (plain_filters s P).
  change (amp "quot;") with (Seq (chr "&") (word "quot;")).
  change (amp "amp;") with (Seq (chr "&") (word "amp;")).
  change (amp "lt;") with (Seq (chr "&") (word "lt;")).
  change (amp "gt;") with (Seq (chr "&") (word "gt;")).
  change (amp "#39;") with (Seq (chr "&") (word "#39;")).
  rewrite !(amp_none _ s Famp), (trim_of_trimmed s T).
  unfold substring0. now apply firstn_all2.
Qed.

Lemma filter_keeps (A : Type) (P : A -> Prop) (p : A -> bool) l :
  Forall P l -> Forall P (filter p l).
Proof.
  induction 1 as [|c t Hc Ht IH]; [constructor|]. simpl.
  destruct (p c); [constructor; assumption|assumption].
Qed.

(** The two first replacements of the text sanitizer delete a run of
    control characters. *)
Lemma controls_filtered sep :
  Forall (fun c => is_control c = true) sep ->
  filter (fun c => negb (is_control c))
    (filter (fun c => negb (existsb (ascii_eqb c) (lit "<>"))) sep) = [].
Proof.
  induction 1 as [|c t Hc Ht IH]; [reflexivity|]. cbn [filter].
  destruct (negb (existsb (ascii_eqb c) (lit "<>"))); [|exact IH].
  cbn [filter]. now rewrite Hc.
Qed.

(** They turn lines joined by control characters into the lines put end
    to end. *)
Lemma joined_lines_filtered sep lines :
  Forall (fun c => is_control c = true) sep ->
  Forall (Forall line_char) lines ->
  filter (fun c => negb (is_control c))
    (filter (fun c => negb (existsb (ascii_eqb c) (lit "<>"))) (join sep lines)) =
  concat lines.
Proof.
  intros Hs. induction 1 as [|x t Hx Ht IH]; [reflexivity|].
  assert (Ex : filter (fun c => negb (is_control c))
                 (filter (fun c => negb (existsb (ascii_eqb c) (lit "<>"))) x) = x).
  { apply plain_filters. now apply chars_absent. }
  destruct t as [|y t'].
  - cbn [join concat]. now rewrite app_nil_r.
  - change (join sep (x :: y :: t')) with (x ++ sep ++ join sep (y :: t')).
    rewrite !filter_app, Ex, (controls_filtered sep Hs), IH. reflexivity.
Qed.

(** Without an ampersand there is no entity to decode: the text
    sanitizer deletes the angle brackets and the control characters,
    trims, and cuts. *)
Lemma sanitizeTextContent_plain s :
  Forall (fun c => ascii_eqb "&" c = false) s ->
  sanitizeTextContent (VStr s) =
  substring0 5000
    (trim (filter (fun c => negb (is_control c))
             (filter (fun c => negb (existsb (ascii_eqb c) (lit "<>"))) s))).
Proof.
  intros F. rewrite sanitizeTextContent_str.
  set (f := filter _ (filter _ s)).
  assert (Ff : Forall (fun c => ascii_eqb "&" c = false) f).
  { subst f. now apply filter_keeps, filter_keeps. }
  change (amp "quot;") with (Seq (chr "&") (word "quot;")).
  change (amp "amp;") with (Seq (chr "&") (word "amp;")).
  change (amp "lt;") with (Seq (chr "&") (word "lt;")).
  change (amp "gt;") with (Seq (chr "&") (word "gt;")).
  change (amp "#39;") with (Seq (chr "&") (word "#39;")).
  now rewrite !(amp_none _ f Ff).
Qed.

(* ================================================================== *)
(** * The description is a single line *)

(** C10. The text sanitizer returns a string without control characters
    (the class 0x00-0x1F and 0x7F, so without line feed and carriage
    return) of at most 5000 code units; a control character between two
    pieces of text is dropped without a separator. The contents of the
    lines are kept: of a text without ampersand the result is the text
    with its angle brackets and control characters deleted, trimmed and
    cut to 5000 code units, so that lines without control characters,
    angle brackets and ampersands, joined by any run of control
    characters (a line feed, or a carriage return and a line feed), come
    out put end to end, trimmed and cut. And the description of every
    task draft is such a single line of 1 to 5000 code units. *)
Theorem sanitized_text_is_single_line :
  (forall v,
     Forall (fun c => is_control c = false) (sanitizeTextContent v) /\
     length (sanitizeTextContent v) <= 5000) /\
  (forall a b,
     sanitizeTextContent (VStr (a ++ LF :: b)) = sanitizeTextContent (VStr (a ++ b)) /\
     sanitizeTextContent (VStr (a ++ ascii_of_nat 13 :: b)) = sanitizeTextContent (VStr (a ++ b))) /\
  (forall tza now email t,
     parseEmailToTask tza now email = Ok t ->
     Forall (fun c => is_control c = false) (description t) /\
     1 <= length (description t) <= 5000) /\
  (forall s,
     Forall (fun c => ascii_eqb "&" c = false) s ->
     sanitizeTextContent (VStr s) =
     substring0 5000
       (trim (filter (fun c => negb (is_control c))
                (filter (fun c => negb (existsb (ascii_eqb c) (lit "<>"))) s)))) /\
  (forall sep lines,
     Forall (fun c => is_control c = true) sep ->
     Forall (Forall line_char) lines ->
     sanitizeTextContent (VStr (join sep lines)) = substring0 5000 (trim (concat lines))).
Proof.
  split; [|split; [|split; [|split]]].
  - intros v. split; [apply sanitized_no_control|apply sanitized_length].
  - intros a b. split; apply sanitized_drops_control; reflexivity.
  - intros tza now email t H. apply parse_ok_inv in H. cbv zeta in H.
    destruct H as (_ & _ & _ & Hd & _). rewrite Hd.
    set (d := sanitizeTextContent _).
    pose proof (sanitized_no_control (VStr (cleanEmailBody
                  (str_or (opt_str (text email)) (opt_str (html email)))))) as F.
    pose proof (sanitized_length (VStr (cleanEmailBody
                  (str_or (opt_str (text email)) (opt_str (html email)))))) as L.
    fold d in F, L. destruct d as [|c d'] eqn:E; cbn [str_or].
    + destruct placeholder_facts as (PF & PL). rewrite PL. split; [exact PF|lia].
    + split; [exact F|]. cbn [length] in *. lia.
  - exact sanitizeTextContent_plain.
  - intros sep lines Hs Hl.
    assert (Fa : Forall (fun c => ascii_eqb "&" c = false) (join sep lines)).
    { induction Hl as [|x t Hx Ht IH]; [constructor|].
      assert (Fx : Forall (fun c => ascii_eqb "&" c = false) x) by now apply chars_absent.
      assert (Fs : Forall (fun c => ascii_eqb "&" c = false) sep).
      { eapply Forall_impl; [|exact Hs]. intros c Hc. cbv beta.
        destruct c as [[] [] [] [] [] [] [] []]; try reflexivity; vm_compute in Hc;
          discriminate. }
      destruct t as [|y t']; [exact Fx|].
      change (join sep (x :: y :: t')) with (x ++ sep ++ join sep (y :: t')).
      rewrite !Forall_app. auto. }
    rewrite (sanitizeTextContent_plain _ Fa). now rewrite joined_lines_filtered.
Qed.

Lemma sanitized_text_is_single_line_witness :
  sanitizeTextContent (VStr (lit "Line one" ++ LF :: lit "Line two")) =
    lit "Line oneLine two" /\
  match parseEmailToTask utc_zone 0 two_line_email with
  | Ok t => description t = lit "Line oneLine two" /\
            Forall (fun c => is_control c = false) (description t) /\
            1 <= length (description t) <= 5000
  | Throw _ => False
  end.
Proof.
  split.
  - apply (proj2 (proj2 (proj2 (proj2 sanitized_text_is_single_line))) [LF]
             [lit "Line one"; lit "Line two"]).
    + repeat constructor.
    + repeat constructor.
  - destruct (parseEmailToTask utc_zone 0 two_line_email) as [t|e] eqn:E.
    + split.
      * vm_compute in E. injection E as <-. reflexivity.
      * exact (proj1 (proj2 (proj2 sanitized_text_is_single_line)) utc_zone 0%Z _ t E).
    + vm_compute in E. discriminate.
Defined.

(** X22. An ordinary body is the description. When the text of an
    email (or, without text, its html) is not empty, has no white space
    at either end, at most 5000 code units, no control character, angle
    bracket or ampersand, and holds no header label (From:, To:,
    Subject:, Date:, Sent:, Cc:, Bcc:) and no forward marker (Original
    Message) in any letter case, then the body cleaner and the text
    sanitizer both return it unchanged and the description of the task
    draft is that text, also for the message the handler builds from an
    extracted text. *)
Theorem ordinary_body_is_the_description s :
  ordinary_text s ->
  cleanEmailBody s = s /\
  sanitizeTextContent (VStr s) = s /\
  (forall tza now email t,
     str_or (opt_str (text email)) (opt_str (html email)) = s ->
     parseEmailToTask tza now email = Ok t ->
     description t = s) /\
  (forall tza now e sFrom sTo t,
     e_text e = VStr s ->
     parseEmailToTask tza now (message_of now e sFrom sTo) = Ok t ->
     description t = s).
Proof.
  intros O. pose proof (cleanEmailBody_ordinary s O) as C.
  pose proof (sanitizeTextContent_ordinary s O) as S.
  assert (D : forall tza now email t,
            str_or (opt_str (text email)) (opt_str (html email)) = s ->
            parseEmailToTask tza now email = Ok t ->
            description t = s).
  { intros tza now email t E H. apply parse_ok_inv in H. cbv zeta in H.
    destruct H as (_ & _ & _ & Hd & _). rewrite Hd, E, C, S.
    destruct O as (N & _). destruct s; [congruence|reflexivity]. }
  split; [exact C|]. split; [exact S|]. split; [exact D|].
  intros tza now e sFrom sTo t Et H. apply (D tza now (message_of now e sFrom sTo) t); [|exact H].
  cbn [message_of text html opt_str]. rewrite Et.
  destruct O as (N & _).
  replace (js_or (VStr s) (VStr [])) with (VStr s)
    by (unfold js_or; destruct s; [congruence|reflexivity]).
  rewrite S. destruct s; [congruence|reflexivity].
Qed.

Lemma ordinary_body_is_the_description_witness :
  cleanEmailBody (lit "Please review the attached report.") =
    lit "Please review the attached report." /\
  sanitizeTextContent (VStr (lit "Please review the attached report.")) =
    lit "Please review the attached report.".
Proof.
  assert (O : ordinary_text (lit "Please review the attached report.")).
  { split; [discriminate|]. split; [split; reflexivity|]. split; [vm_compute; lia|].
    split; [repeat constructor|]. split; vm_compute; reflexivity. }
  destruct (ordinary_body_is_the_description
              (lit "Please review the attached report.") O) as (A & B & _).
  split; [exact A|exact B].
Defined.
